(** * claude-cli-bridge: a shallow embedding of the bridge core

    The development follows the four source modules:
    - [Translate]       (src/translate.ts)  message and model-name translation;
    - [SessionTracker]  (src/sessions.ts)   the in-memory session registry;
    - [Claude]          (src/claude.ts)     command-line construction;
    - [Server]          (src/server.ts)     error classification and the
                                            streaming handler.

    Conventions.  A JavaScript string is a Rocq [string]; one [ascii] stands
    for one UTF-16 code unit, so the model covers code units below 256.
    JavaScript numbers that hold timestamps, counters and bounds are [Z].
    [Date.now()] is an explicit argument of every operation that reads it.
    A thrown exception is the [Thrown] branch of [outcome]; an exception
    that nothing catches is the [Uncaught] ending of [Server.Ending]. *)

From Stdlib Require Import ZArith Ascii String List Lia Bool.
From stdpp Require Import base option list strings gmap pretty.

Local Open Scope string_scope.
Local Open Scope Z_scope.

Set Warnings "-register-all".

(** ** JavaScript string primitives used by the sources *)

Module Js.

(** The line feed written in the sources with a backslash escape. *)
Definition nl : string := String "010"%char "".

(** Truthiness of a string value: every string but the empty one. *)
Definition truthy (s : string) : bool :=
  match s with "" => false | String _ _ => true end.

(** [hay.startsWith(needle)] *)
Fixpoint startsWith (hay needle : string) {struct needle} : bool :=
  match needle with
  | "" => true
  | String c needle' =>
      match hay with
      | "" => false
      | String d hay' => Ascii.eqb c d && startsWith hay' needle'
      end
  end.

(** [hay.includes(needle)]: the needle occurs at some offset. *)
Fixpoint includes (hay needle : string) : bool :=
  startsWith hay needle ||
  match hay with
  | "" => false
  | String _ hay' => includes hay' needle
  end.

(** [s.substring(0, n)] *)
Fixpoint substring0 (n : nat) (s : string) : string :=
  match n, s with
  | S n', String c s' => String c (substring0 n' s')
  | _, _ => ""
  end.

(** [parts.join(sep)] *)
Fixpoint join (sep : string) (parts : list string) : string :=
  match parts with
  | [] => ""
  | x :: rest =>
      match rest with
      | [] => x
      | _ :: _ => x +:+ sep +:+ join sep rest
      end
  end.

(** Lower-casing of one code unit below 256: the letters A to Z and the
    Latin-1 capitals (0xC0 to 0xDE, the multiplication sign apart) move
    up by 32; every other unit is left alone. *)
Definition lowerUnit (c : ascii) : ascii :=
  let n := N_of_ascii c in
  if ((65 <=? n) && (n <=? 90))%N then ascii_of_N (n + 32)
  else if ((192 <=? n) && (n <=? 222) && negb (n =? 215))%N
       then ascii_of_N (n + 32)
  else c.

(** [s.toLowerCase()] *)
Fixpoint toLowerCase (s : string) : string :=
  match s with
  | "" => ""
  | String c s' => String (lowerUnit c) (toLowerCase s')
  end.

(** [String(n)] for an integral number below [10^21] in absolute value:
    the decimal digits, with a minus sign for a negative one.  Larger
    numbers, which JavaScript prints with an exponent, and [NaN] are
    outside the model. *)
Definition ofNumber (n : Z) : string := pretty n.

(** [x | 0]: reduction of an integral number to a signed 32-bit one. *)
Definition toInt32 (x : Z) : Z :=
  (x + 2147483648) mod 4294967296 - 2147483648.

(** One digit of [Number.prototype.toString(36)]. *)
Definition digit36 (d : N) : ascii :=
  if (d <? 10)%N then ascii_of_N (48 + d) else ascii_of_N (87 + d).

Fixpoint toString36_go (fuel : nat) (n : N) (acc : string) : string :=
  match fuel with
  | O => acc
  | S fuel' =>
      let acc' := String (digit36 (n mod 36)) acc in
      if (n <? 36)%N then acc' else toString36_go fuel' (n / 36) acc'
  end.

(** [n.toString(36)] for a non-negative integral number; the number of
    binary digits bounds the number of base-36 digits. *)
Definition toString36 (n : N) : string :=
  toString36_go (S (N.size_nat n)) n "".

(** A thrown value as the handlers inspect it: the text obtained by
    [error instanceof Error ? error.message : String(error)] and the
    truthiness of its [killed] property. *)
Record Error := { message : string; killed : bool }.

(** [new Error(text)] *)
Definition newError (text : string) : Error :=
  {| message := text; killed := false |}.

End Js.

(** The result of a call that may throw. *)
Inductive outcome (A : Type) : Type :=
| Returned (a : A)
| Thrown (e : Js.Error).
Arguments Returned {A} a.
Arguments Thrown {A} e.

(** A JSON value, as handed to [JSON.stringify]. *)
Inductive Json :=
| JNull
| JNum (n : Z)
| JStr (s : string)
| JArr (items : list Json)
| JObj (fields : list (string * Json)).

(** One frame of the event stream.  [SseData j] is the text
    [data: <JSON.stringify(j)>] followed by a blank line, [SseDone] is the
    text [data: [DONE]] followed by a blank line.  A string built by the
    formatting functions is kept as the list of frames it holds. *)
Inductive Sse :=
| SseData (payload : Json)
| SseDone.

(** ** src/sessions.ts: the message model *)

(** One element of a multipart content array; [p_text] is [None] when the
    [text] property is absent. *)
Record Part := { p_type : string; p_text : option string }.

(** The [content] field: a string, an array of parts, or any other JSON
    value, kept as the text [String(content ?? '')] gives for it. *)
Inductive Content :=
| CString (s : string)
| CParts (ps : list Part)
| COther (coerced : string).

Record Message := { role : string; content : Content }.

(** ** src/translate.ts *)

Module Translate.

(** [p.type === 'text' && typeof p.text === 'string'], then [p.text] *)
Definition textOfPart (p : Part) : option string :=
  if decide (p_type p = "text") then p_text p else None.

Definition extractText (c : Content) : string :=
  match c with
  | CString s => s
  | CParts ps => Js.join Js.nl (omap textOfPart ps)
  | COther coerced => coerced
  end.

Record TranslatedInput := {
  prompt : string;
  systemPrompt : option string;
  isFirstTurn : bool
}.

(** The label put before one non-system message. *)
Definition renderTurn (m : Message) : string :=
  let text := extractText (content m) in
  if decide (role m = "user") then "User: " +:+ text
  else if decide (role m = "assistant") then "Assistant: " +:+ text
  else text.

Definition translateFirstTurn (messages : list Message) : TranslatedInput :=
  let systemMessages := filter (λ m, role m = "system") messages in
  let systemPrompt :=
    if (0 <? Z.of_nat (length systemMessages))
    then Some (Js.join Js.nl (map (λ m, extractText (content m)) systemMessages))
    else None in
  let conversation :=
    Js.join (Js.nl +:+ Js.nl)
      (map renderTurn (filter (λ m, role m ≠ "system") messages)) in
  {| prompt := conversation; systemPrompt := systemPrompt; isFirstTurn := true |}.

Definition noUserMessage : string :=
  "No user message found in messages array — cannot continue conversation".

Definition translateContinueTurn (messages : list Message)
  : outcome TranslatedInput :=
  match find (λ m, bool_decide (role m = "user")) (rev messages) with
  | None => Thrown (Js.newError noUserMessage)
  | Some lastUserMessage =>
      Returned {| prompt := extractText (content lastUserMessage);
                  systemPrompt := None;
                  isFirstTurn := false |}
  end.

(** [Math.floor(Date.now() / 1000)] *)
Definition created (now : Z) : Z := now / 1000.

Definition chunkObject (id model : string) (now : Z)
    (delta finish_reason : Json) : Json :=
  JObj [("id", JStr id);
        ("object", JStr "chat.completion.chunk");
        ("created", JNum (created now));
        ("model", JStr model);
        ("choices", JArr [JObj [("index", JNum 0);
                                ("delta", delta);
                                ("finish_reason", finish_reason)]])].

Definition formatSSEChunk (id text model : string) (now : Z) : list Sse :=
  [SseData (chunkObject id model now (JObj [("content", JStr text)]) JNull)].

Definition formatSSEDone (id model : string) (now : Z) : list Sse :=
  [SseData (chunkObject id model now (JObj []) (JStr "stop")); SseDone].

Definition mapModel (requestModel : option string) (defaultModel : string)
  : string :=
  match requestModel with
  | None => defaultModel
  | Some requested =>
      if negb (Js.truthy requested) then defaultModel
      else
        let normalized := Js.toLowerCase requested in
        if Js.includes normalized "haiku" then "haiku"
        else if Js.includes normalized "opus" then "opus"
        else if Js.includes normalized "sonnet" then "sonnet"
        else defaultModel
  end.

(** The [usage] object of the backend's JSON document. *)
Record CliUsage := {
  input_tokens : Z;
  output_tokens : Z;
  cache_read_input_tokens : Z
}.

(** The backend's JSON document ([--output-format json]), with the fields
    the bridge reads; [usage] is [None] when the document has none. *)
Record ClaudeCLIResponse := {
  is_error : bool;
  num_turns : Z;
  result : string;
  session_id : string;
  usage : option CliUsage
}.

(** [claude.usage?.field || 0] *)
Definition usageOr0 (claude : ClaudeCLIResponse) (f : CliUsage → Z) : Z :=
  match usage claude with
  | Some u => f u
  | None => 0
  end.

(** [translateResponse(claude, model)], with [now] the value of
    [Date.now()]. *)
Definition translateResponse (claude : ClaudeCLIResponse) (model : string)
    (now : Z) : Json :=
  JObj [("id", JStr ("chatcmpl-" +:+
                     (if Js.truthy (session_id claude) then session_id claude
                      else Js.ofNumber now)));
        ("object", JStr "chat.completion");
        ("created", JNum (created now));
        ("model", JStr model);
        ("choices",
         JArr [JObj [("index", JNum 0);
                     ("message", JObj [("role", JStr "assistant");
                                       ("content", JStr (result claude))]);
                     ("finish_reason",
                      JStr (if is_error claude then "error" else "stop"))]]);
        ("usage",
         JObj [("prompt_tokens", JNum (usageOr0 claude input_tokens));
               ("completion_tokens", JNum (usageOr0 claude output_tokens));
               ("total_tokens",
                JNum (usageOr0 claude input_tokens
                      + usageOr0 claude output_tokens));
               ("cache_read_tokens",
                JNum (usageOr0 claude cache_read_input_tokens))])].

End Translate.

(** ** src/sessions.ts: the session registry *)

Record Session := {
  claudeSessionId : string;
  turnCount : Z;
  lastUsedAt : Z;
  messageCount : Z
}.

Module SessionTracker.

(** The tracker object: the [sessions] map and the [ttlMs] bound fixed by
    the constructor. *)
Record t := { sessions : gmap string Session; ttlMs : Z }.

Definition new (ttl : Z) : t := {| sessions := ∅; ttlMs := ttl |}.

Definition withSessions (tr : t) (m : gmap string Session) : t :=
  {| sessions := m; ttlMs := ttlMs tr |}.

(** [get size()] *)
Definition size (tr : t) : nat := base.size (sessions tr).

(** [get(conversationKey)], with [now] the value of [Date.now()]. *)
Definition get (now : Z) (conversationKey : string) (tr : t)
  : option Session * t :=
  match sessions tr !! conversationKey with
  | None => (None, tr)
  | Some session =>
      if now - lastUsedAt session >? ttlMs tr
      then (None, withSessions tr (base.delete conversationKey (sessions tr)))
      else (Some session, tr)
  end.

(** [create(conversationKey)], with [uuid] the value of [randomUUID()]. *)
Definition create (uuid : string) (now : Z) (conversationKey : string) (tr : t)
  : Session * t :=
  let session := {| claudeSessionId := uuid; turnCount := 0;
                    lastUsedAt := now; messageCount := 0 |} in
  (session, withSessions tr (<[conversationKey := session]> (sessions tr))).

Definition touched (now : Z) (s : Session) : Session :=
  {| claudeSessionId := claudeSessionId s;
     turnCount := turnCount s + 1;
     lastUsedAt := now;
     messageCount := messageCount s + 1 |}.

(** [touch(conversationKey)]: the stored object is updated in place. *)
Definition touch (now : Z) (conversationKey : string) (tr : t) : t :=
  withSessions tr (alter (touched now) conversationKey (sessions tr)).

(** [delete(conversationKey)] *)
Definition delete (conversationKey : string) (tr : t) : t :=
  withSessions tr (base.delete conversationKey (sessions tr)).

(** [cleanup()] *)
Definition cleanup (now : Z) (tr : t) : t :=
  withSessions tr
    (filter (λ kv, ¬ (now - lastUsedAt kv.2 > ttlMs tr)) (sessions tr)).

(** The text [makeKey] reads from one message: string content as it is,
    the truthy texts of the text parts joined by a space, otherwise the
    empty string. *)
Definition keyPart (p : Part) : option string :=
  if decide (p_type p = "text") then
    match p_text p with
    | Some text => if Js.truthy text then Some text else None
    | None => None
    end
  else None.

Definition keyText (c : Content) : string :=
  match c with
  | CString s => s
  | CParts ps => Js.join " " (omap keyPart ps)
  | COther _ => ""
  end.

Definition keyEntry (m : Message) : string :=
  role m +:+ ":" +:+ Js.substring0 200 (keyText (content m)).

Definition fingerprint (messages : list Message) : string :=
  Js.join "|" (map keyEntry (take 3 messages)).

(** The loop [hash = ((hash << 5) - hash + charCodeAt(i)) | 0]. *)
Fixpoint hashFrom (hash : Z) (s : string) : Z :=
  match s with
  | "" => hash
  | String c s' =>
      hashFrom
        (Js.toInt32 (Js.toInt32 (Z.shiftl hash 5) - hash
                     + Z.of_N (N_of_ascii c))) s'
  end.

Definition makeKey (conversationId : option string) (messages : list Message)
  : string :=
  let hashed :=
    "conv-" +:+ Js.toString36 (Z.to_N (Z.abs (hashFrom 0 (fingerprint messages)))) in
  match conversationId with
  | Some id => if Js.truthy id then id else hashed
  | None => hashed
  end.

End SessionTracker.

(** ** src/config.ts *)

Record BridgeConfig := {
  port : Z;
  defaultModel : string;
  tools : string;
  maxTurns : Z;
  timeoutMs : Z;
  maxBufferBytes : Z;
  sessionTtlMs : Z
}.

(** ** src/claude.ts *)

Module Claude.

Local Open Scope list_scope.

Record ClaudeArgs := {
  model : string;
  systemPrompt : option string;
  sessionId : string;
  continueSession : bool;
  stream : bool;
  tools : string
}.

Definition withStream (opts : ClaudeArgs) (b : bool) : ClaudeArgs :=
  {| model := model opts; systemPrompt := systemPrompt opts;
     sessionId := sessionId opts; continueSession := continueSession opts;
     stream := b; tools := tools opts |}.

Record Delta := {
  d_type : option string;
  d_text : option string;
  d_thinking : option string
}.

(** The nested [event] object; [content_block] holds [content_block.type]. *)
Record InnerEvent := {
  ie_type : string;
  content_block : option string;
  delta : option Delta
}.

Record Usage := {
  input_tokens : Z;
  output_tokens : Z;
  cache_read_input_tokens : Z
}.

Record StreamEvent := {
  ev_type : string;
  event : option InnerEvent;
  result : option string;
  session_id : option string;
  usage : option Usage
}.

Section WithConfig.

Variable config : BridgeConfig.

Definition buildArgs (opts : ClaudeArgs) : list string :=
  let args := ["-p"] in
  let args := args ++ ["--model"; model opts] in
  let args :=
    if continueSession opts
    then args ++ ["--resume"; sessionId opts]
    else args ++ ["--session-id"; sessionId opts] in
  let args :=
    if stream opts
    then (args ++ ["--output-format"; "stream-json"])
           ++ ["--verbose"] ++ ["--include-partial-messages"]
    else args ++ ["--output-format"; "json"] in
  let args := args ++ ["--allowedTools"; tools opts] in
  let args :=
    match systemPrompt opts with
    | Some text =>
        if Js.truthy text then args ++ ["--system-prompt"; text] else args
    | None => args
    end in
  args ++ ["--max-turns"; Js.ofNumber (maxTurns config)].

(** What [callClaudeSync] hands to [execSync]: the shell line, the text
    piped to standard input and the two limits. *)
Record SyncCall := {
  command : string;
  input : string;
  maxBuffer : Z;
  timeout : Z
}.

Definition callClaudeSync (prompt : string) (opts : ClaudeArgs) : SyncCall :=
  let args := buildArgs (withStream opts false) in
  {| command := Js.join " " ("claude" :: args);
     input := prompt;
     maxBuffer := maxBufferBytes config;
     timeout := timeoutMs config |}.

(** What [callClaudeStream] hands to [spawn], and the text it writes to
    the child's standard input before closing it. *)
Record Spawn := {
  file : string;
  argv : list string;
  stdin : string
}.

Definition callClaudeStream (prompt : string) (opts : ClaudeArgs) : Spawn :=
  let args := buildArgs (withStream opts true) in
  {| file := "claude"; argv := args; stdin := prompt |}.

End WithConfig.

(** One run of the streaming generator over a child that has started, as
    its consumer sees it: the events it yields, each with the reading of
    [Date.now()] while it is handled, then the moment the output closes and
    the rejection, if any, of the final wait for the process. *)
Record StreamRun := {
  yielded : list (Z * StreamEvent);
  closedAt : Z;
  rejected : option Js.Error
}.

(** What becomes of the child that [spawn] returns.  Either it starts, and
    the generator runs as a [StreamRun] tells, or the child emits an
    ['error'] event (the executable is missing or may not be run).
    [callClaudeStream] registers listeners for ['data'] on the error output
    and for ['close'] only, so that event finds no listener: its error is
    thrown from the event loop, outside the generator and outside every
    [try] of its consumers. *)
Inductive Child :=
| Started (run : StreamRun)
| Errored (error : Js.Error).

(** One call of the synchronous entry point as its caller sees it: the
    reading of [Date.now()] once [execSync] and [JSON.parse] are through, and
    the document returned or the value thrown by either. *)
Record SyncRun := {
  finishedAt : Z;
  returned : outcome Translate.ClaudeCLIResponse
}.

(** The child process of the streaming entry point: the lines of its
    standard output, each with the reading of [Date.now()] while it is
    handled, the moment the output closes, the exit code ([None] for null)
    and the text collected from standard error. *)
Record Process := {
  lines : list (Z * string);
  closed : Z;
  exitCode : option Z;
  stderr : string
}.

(** The body of the generator [callClaudeStream] after the spawn: every
    line that [JSON.parse] (here [parse]) accepts is yielded, the others are
    skipped, and the final wait rejects on an exit code that is neither 0
    nor null. *)
Definition callClaudeStreamRun (parse : string → option StreamEvent)
    (p : Process) : StreamRun :=
  {| yielded :=
       omap (λ timed, match parse timed.2 with
                      | Some ev => Some (timed.1, ev)
                      | None => None
                      end) (lines p);
     closedAt := closed p;
     rejected :=
       match exitCode p with
       | Some code =>
           if code =? 0 then None
           else Some (Js.newError
                        (if Js.truthy (stderr p) then stderr p
                         else "Claude CLI exited with code "
                              +:+ Js.ofNumber code))
       | None => None
       end |}.

End Claude.

(** ** src/server.ts *)

Module Server.

Local Open Scope list_scope.

(** The [error] object of an error envelope. *)
Record ErrorBody := {
  err_message : string;
  err_type : string;
  err_code : string
}.

Definition errorJson (e : ErrorBody) : Json :=
  JObj [("message", JStr (err_message e));
        ("type", JStr (err_type e));
        ("code", JStr (err_code e))].

(** The part of [http.ServerResponse] the handlers drive. *)
Record Response := {
  head : option (Z * list (string * string));
  written : list Sse;
  writableEnded : bool
}.

Definition freshResponse : Response :=
  {| head := None; written := []; writableEnded := false |}.

(** The state the handlers share: the module-level [sessions] tracker, the
    response of the request at hand and the lines sent to [console.log]. *)
Record State := {
  sessions : SessionTracker.t;
  res : Response;
  console : list string
}.

Definition setSessions (tr : SessionTracker.t) (st : State) : State :=
  {| sessions := tr; res := res st; console := console st |}.

Definition writeHead (status : Z) (hs : list (string * string)) (st : State)
  : State :=
  {| sessions := sessions st;
     res := {| head := Some (status, hs);
               written := written (res st);
               writableEnded := writableEnded (res st) |};
     console := console st |}.

Definition write (frames : list Sse) (st : State) : State :=
  {| sessions := sessions st;
     res := {| head := head (res st);
               written := written (res st) ++ frames;
               writableEnded := writableEnded (res st) |};
     console := console st |}.

Definition endResponse (st : State) : State :=
  {| sessions := sessions st;
     res := {| head := head (res st);
               written := written (res st);
               writableEnded := true |};
     console := console st |}.

Definition consoleLog (line : string) (st : State) : State :=
  {| sessions := sessions st; res := res st;
     console := console st ++ [line] |}.

Definition rateLimited : ErrorBody :=
  {| err_message := "Claude rate limited";
     err_type := "rate_limit_error";
     err_code := "rate_limit_exceeded" |}.

Definition authExpired : ErrorBody :=
  {| err_message := "Claude auth expired — run: claude login";
     err_type := "authentication_error";
     err_code := "invalid_api_key" |}.

Definition timedOut : ErrorBody :=
  {| err_message := "Claude CLI timeout";
     err_type := "timeout_error";
     err_code := "timeout" |}.

Definition sessionExpired : ErrorBody :=
  {| err_message := "Claude session expired, retry will create new session";
     err_type := "server_error";
     err_code := "session_expired" |}.

Definition internalError (message : string) : ErrorBody :=
  {| err_message := "Claude CLI error: " +:+ Js.substring0 200 message;
     err_type := "server_error";
     err_code := "internal_error" |}.

(** The text the classifier matches on: the message of the thrown value,
    or a fixed text when that is empty. *)
Definition effective (error : Js.Error) : string :=
  if Js.truthy (Js.message error) then Js.message error
  else "Unknown error".

(** [handleError(error, convKey)]: the status, the error body and the
    tracker after the call. *)
Definition handleError (error : Js.Error) (convKey : option string)
    (tr : SessionTracker.t) : Z * ErrorBody * SessionTracker.t :=
  let message := effective error in
  if Js.includes message "rate limit" || Js.includes message "quota" ||
     Js.includes message "cooldown" || Js.includes message "capacity"
  then (429, rateLimited, tr)
  else if Js.includes message "not authorized" ||
          Js.includes message "credential" || Js.includes message "login"
  then (401, authExpired, tr)
  else if Js.killed error || Js.includes message "ETIMEDOUT" ||
          Js.includes message "timeout"
  then (504, timedOut, tr)
  else if Js.includes message "session" ||
          Js.includes message "Session not found"
  then
    let tr' :=
      match convKey with
      | Some key =>
          if Js.truthy key then SessionTracker.delete key tr else tr
      | None => tr
      end in
    (502, sessionExpired, tr')
  else (502, internalError message, tr).

Definition sseHeaders : list (string * string) :=
  [("Content-Type", "text/event-stream");
   ("Cache-Control", "no-cache");
   ("Connection", "keep-alive");
   ("X-Accel-Buffering", "no")].

(** What one turn of the [for await] loop leaves behind: the loop goes on
    with the flag and the state, or the handler has returned. *)
Inductive Step :=
| Continue (insideThinkingBlock : bool) (st : State)
| Return (st : State).

Section Stream.

Variables (completionId model convKey : string).

Definition onResult (now : Z) (ev : Claude.StreamEvent) (st : State) : State :=
  let st := setSessions (SessionTracker.touch now convKey (sessions st)) st in
  let st :=
    match Claude.usage ev with
    | Some u =>
        if (Claude.cache_read_input_tokens u >? 0)
        then consoleLog ("[cache] hit: "
                         +:+ Js.ofNumber (Claude.cache_read_input_tokens u)
                         +:+ " tokens cached") st
        else st
    | None => st
    end in
  endResponse (write (Translate.formatSSEDone completionId model now) st).

Definition onInner (insideThinkingBlock : bool) (now : Z)
    (inner : Claude.InnerEvent) (st : State) : Step :=
  if bool_decide (Claude.ie_type inner = "content_block_start") &&
     bool_decide (Claude.content_block inner = Some "thinking")
  then Continue true st
  else if bool_decide (Claude.ie_type inner = "content_block_stop") &&
          insideThinkingBlock
  then Continue false st
  else if insideThinkingBlock then Continue insideThinkingBlock st
  else if bool_decide (Claude.delta inner ≫= Claude.d_type
                       = Some "thinking_delta")
  then Continue insideThinkingBlock st
  else
    match Claude.delta inner ≫= Claude.d_text with
    | Some text =>
        if Js.truthy text
        then Continue insideThinkingBlock
               (write (Translate.formatSSEChunk completionId text model now) st)
        else Continue insideThinkingBlock st
    | None => Continue insideThinkingBlock st
    end.

(** The body of the loop for one event. *)
Definition onEvent (insideThinkingBlock : bool) (now : Z)
    (ev : Claude.StreamEvent) (st : State) : Step :=
  if bool_decide (Claude.ev_type ev = "result")
  then Return (onResult now ev st)
  else if bool_decide (Claude.ev_type ev = "stream_event") then
    match Claude.event ev with
    | Some inner => onInner insideThinkingBlock now inner st
    | None => Continue insideThinkingBlock st
    end
  else Continue insideThinkingBlock st.

Fixpoint consume (insideThinkingBlock : bool)
    (events : list (Z * Claude.StreamEvent)) (st : State) : Step :=
  match events with
  | [] => Continue insideThinkingBlock st
  | (now, ev) :: rest =>
      match onEvent insideThinkingBlock now ev st with
      | Continue inside' st' => consume inside' rest st'
      | Return st' => Return st'
      end
  end.

End Stream.

(** [handleStream(prompt, claudeOpts, model, convKey, res)] over a child
    that has started.  [claude] is the backend process: it maps what is
    spawned to the run observed; [startedAt] is the reading of [Date.now()]
    that names the completion.  [handleStreamOn] below adds the child that
    does not start. *)
Definition handleStream (config : BridgeConfig)
    (claude : Claude.Spawn → Claude.StreamRun)
    (prompt : string) (claudeOpts : Claude.ClaudeArgs)
    (model convKey : string) (startedAt : Z) (st : State) : State :=
  let st := writeHead 200 sseHeaders st in
  let completionId := "chatcmpl-" +:+ Js.ofNumber startedAt in
  let run := claude (Claude.callClaudeStream config prompt claudeOpts) in
  match consume completionId model convKey false (Claude.yielded run) st with
  | Return st' => st'
  | Continue _ st' =>
      match Claude.rejected run with
      | None =>
          let now := Claude.closedAt run in
          let st' :=
            setSessions (SessionTracker.touch now convKey (sessions st')) st' in
          endResponse (write (Translate.formatSSEDone completionId model now) st')
      | Some error =>
          let '(_, body, tr) :=
            handleError error (Some convKey) (sessions st') in
          let st' := setSessions tr st' in
          if negb (writableEnded (res st')) then
            endResponse
              (write [SseDone]
                 (write [SseData (JObj [("error", errorJson body)])] st'))
          else st'
      end
  end.

(** How a call of a handler ends: its promise settles with the state
    reached, or an exception that nothing catches ends the server process
    (no ['uncaughtException'] handler is installed), with the response left
    as it was at that moment. *)
Inductive Ending :=
| Settled (st : State)
| Uncaught (error : Js.Error) (st : State).

(** [handleStream] with the outcome of the spawn: the status line and the
    headers are set, then the child either runs or emits its error. *)
Definition handleStreamOn (config : BridgeConfig)
    (child : Claude.Spawn → Claude.Child)
    (prompt : string) (claudeOpts : Claude.ClaudeArgs)
    (model convKey : string) (startedAt : Z) (st : State) : Ending :=
  match child (Claude.callClaudeStream config prompt claudeOpts) with
  | Claude.Started run =>
      Settled (handleStream config (λ _, run) prompt claudeOpts model convKey
                 startedAt st)
  | Claude.Errored error => Uncaught error (writeHead 200 sseHeaders st)
  end.

(** The body of a chat request once [JSON.parse] has run: malformed text,
    the document [null], or any other document with its [model], its
    [messages] ([None] when the field is missing, falsy or not an array) and
    the truthiness of [stream].  The fields are taken at the types the
    handler declares for them: a [model] that is a string when present, and
    [messages] whose elements are message objects. *)
Record Request := {
  req_model : option string;
  req_messages : option (list Message);
  req_stream : bool
}.

Inductive Body :=
| Malformed
| JsonNull
| Parsed (r : Request).

(** The [TypeError] of reading [messages] from [null]. *)
Definition nullBody : Js.Error :=
  Js.newError "Cannot read properties of null (reading 'messages')".

(** What is sent back: a status with a JSON body, a status alone, or the
    event stream. *)
Inductive Reply :=
| JsonReply (status : Z) (body : Json)
| NoContent (status : Z)
| EventStream (stream : Response).

Record Handled := {
  reply : Reply;
  tracker : SessionTracker.t;
  logged : list string
}.

Definition errorEnvelope (e : ErrorBody) : Json :=
  JObj [("error", errorJson e)].

Definition invalidJson : ErrorBody :=
  {| err_message := "Invalid JSON in request body";
     err_type := "invalid_request_error";
     err_code := "parse_error" |}.

Definition missingMessages : ErrorBody :=
  {| err_message := "messages array is required and must not be empty";
     err_type := "invalid_request_error";
     err_code := "missing_messages" |}.

Definition unhandled : ErrorBody :=
  {| err_message := "Internal server error";
     err_type := "server_error";
     err_code := "internal_error" |}.

Definition notFound (method url : string) : ErrorBody :=
  {| err_message := "Not found: " +:+ method +:+ " " +:+ url;
     err_type := "invalid_request_error";
     err_code := "not_found" |}.

(** [x || fallback] for an optional string. *)
Definition orElse (x : option string) (fallback : string) : string :=
  match x with
  | Some s => if Js.truthy s then s else fallback
  | None => fallback
  end.

(** [(req.headers['x-conversation-id'] as string) || null] *)
Definition conversationIdOf (header : option string) : option string :=
  match header with
  | Some h => if Js.truthy h then Some h else None
  | None => None
  end.

Section Chat.

Variables (config : BridgeConfig)
          (claudeSync : Claude.SyncCall → Claude.SyncRun)
          (claude : Claude.Spawn → Claude.StreamRun).

(** The session part of [handleChatCompletion]: the session to use, the
    translated input, the tracker and the log after it. *)
Definition resolveSession (messages : list Message) (convKey uuid : string)
    (now : Z) (tr : SessionTracker.t) (log : list string)
  : outcome (Session * Translate.TranslatedInput * SessionTracker.t
             * list string) :=
  let '(found, tr) := SessionTracker.get now convKey tr in
  match found with
  | None =>
      let '(session, tr) := SessionTracker.create uuid now convKey tr in
      Returned (session, Translate.translateFirstTurn messages, tr,
                log ++ ["[session] new: " +:+ convKey +:+ " → claude-session "
                        +:+ claudeSessionId session])
  | Some session =>
      match Translate.translateContinueTurn messages with
      | Thrown e => Thrown e
      | Returned translated =>
          Returned (session, translated, tr,
                    log ++ ["[session] continue: " +:+ convKey +:+ " (turn "
                            +:+ Js.ofNumber (turnCount session + 1) +:+ ")"])
      end
  end.

(** [handleChatCompletion(req, res)] from the parsed body on.  [header] is
    the [x-conversation-id] header, [uuid] the value [randomUUID()] would
    give, [now] the reading of [Date.now()] before the backend is called.
    As in [handleStream], [claude] is the run of a streaming child that has
    started; [handleStreamOn] tells what a child that does not start leaves
    of the call made here. *)
Definition handleChatCompletion (body : Body) (header : option string)
    (uuid : string) (now : Z) (tr : SessionTracker.t) (log : list string)
  : outcome Handled :=
  match body with
  | Malformed =>
      Returned {| reply := JsonReply 400 (errorEnvelope invalidJson);
                  tracker := tr; logged := log |}
  | JsonNull => Thrown nullBody
  | Parsed parsed =>
      match req_messages parsed with
      | None | Some [] =>
          Returned {| reply := JsonReply 400 (errorEnvelope missingMessages);
                      tracker := tr; logged := log |}
      | Some messages =>
          let model :=
            Translate.mapModel (req_model parsed) (defaultModel config) in
          let convKey :=
            SessionTracker.makeKey (conversationIdOf header) messages in
          match resolveSession messages convKey uuid now tr log with
          | Thrown e => Thrown e
          | Returned (session, translated, tr, log) =>
              let claudeOpts :=
                {| Claude.model := model;
                   Claude.systemPrompt := Translate.systemPrompt translated;
                   Claude.sessionId := claudeSessionId session;
                   Claude.continueSession :=
                     negb (Translate.isFirstTurn translated);
                   Claude.stream := req_stream parsed;
                   Claude.tools := tools config |} in
              let shown := orElse (req_model parsed) (defaultModel config) in
              if req_stream parsed then
                let st :=
                  handleStream config claude (Translate.prompt translated)
                    claudeOpts shown convKey now
                    {| sessions := tr; res := freshResponse;
                       console := log |} in
                Returned {| reply := EventStream (res st);
                            tracker := sessions st;
                            logged := console st |}
              else
                let run :=
                  claudeSync (Claude.callClaudeSync config
                                (Translate.prompt translated) claudeOpts) in
                match Claude.returned run with
                | Returned claudeResp =>
                    let tr :=
                      SessionTracker.touch (Claude.finishedAt run) convKey tr in
                    let cached :=
                      Translate.usageOr0 claudeResp
                        Translate.cache_read_input_tokens in
                    let log :=
                      if cached >? 0
                      then log ++ ["[cache] hit: " +:+ Js.ofNumber cached
                                   +:+ " tokens cached"]
                      else log in
                    Returned
                      {| reply :=
                           JsonReply 200
                             (Translate.translateResponse claudeResp shown
                                (Claude.finishedAt run));
                         tracker := tr; logged := log |}
                | Thrown error =>
                    let '(status, body, tr) :=
                      handleError error (Some convKey) tr in
                    Returned {| reply := JsonReply status (errorEnvelope body);
                                tracker := tr; logged := log |}
                end
          end
      end
  end.

Definition healthBody (tr : SessionTracker.t) : Json :=
  JObj [("status", JStr "ok");
        ("activeSessions", JNum (Z.of_nat (SessionTracker.size tr)))].

Definition modelEntry (id : string) : Json :=
  JObj [("id", JStr id); ("object", JStr "model");
        ("owned_by", JStr "anthropic")].

Definition modelsBody : Json :=
  JObj [("object", JStr "list");
        ("data", JArr [modelEntry "claude-sonnet"; modelEntry "claude-haiku";
                       modelEntry "claude-opus"])].

(** The request listener of [http.createServer]: status and body of the
    reply for a method and a URL.  A failure that escapes the chat handler
    does so before any header is sent; the line the listener then sends to
    [console.error] is not kept, [logged] holding the lines of
    [console.log]. *)
Definition serve (method url : string) (body : Body) (header : option string)
    (uuid : string) (now : Z) (tr : SessionTracker.t) (log : list string)
  : Handled :=
  if bool_decide (method = "OPTIONS") then
    {| reply := NoContent 204; tracker := tr; logged := log |}
  else if bool_decide (method = "GET") && bool_decide (url = "/health") then
    {| reply := JsonReply 200 (healthBody tr); tracker := tr; logged := log |}
  else if bool_decide (method = "GET") && bool_decide (url = "/v1/models") then
    {| reply := JsonReply 200 modelsBody; tracker := tr; logged := log |}
  else if bool_decide (method = "POST") &&
          bool_decide (url = "/v1/chat/completions") then
    match handleChatCompletion body header uuid now tr log with
    | Returned handled => handled
    | Thrown _ =>
        {| reply := JsonReply 500 (errorEnvelope unhandled);
           tracker := tr; logged := log |}
    end
  else
    {| reply := JsonReply 404 (errorEnvelope (notFound method url));
       tracker := tr; logged := log |}.

End Chat.

End Server.

(** ** Vocabulary of the specification *)

(** [occurs needle hay]: the text [needle] is a contiguous part of [hay]. *)
Definition occurs (needle hay : string) : Prop :=
  ∃ pre post, hay = pre +:+ needle +:+ post.

(** The model tiers the bridge knows. *)
Definition tiers : list string := ["haiku"; "opus"; "sonnet"].

(** The phrases that mark a backend failure as a rate limit. *)
Definition rateLimitPhrases : list string :=
  ["rate limit"; "quota"; "cooldown"; "capacity"].

Definition authPhrases : list string :=
  ["not authorized"; "credential"; "login"].

Definition timeoutPhrases : list string := ["ETIMEDOUT"; "timeout"].

Definition sessionPhrases : list string := ["session"; "Session not found"].

Definition mentions (phrases : list string) (text : string) : Prop :=
  ∃ phrase, phrase ∈ phrases ∧ occurs phrase text.

(** A failure the bridge takes for a lost or corrupted backend session: its
    text names the session, and none of the earlier classes claims it. *)
Definition sessionFailure (error : Js.Error) : Prop :=
  mentions sessionPhrases (Js.message error) ∧
  ¬ mentions rateLimitPhrases (Js.message error) ∧
  ¬ mentions authPhrases (Js.message error) ∧
  Js.killed error = false ∧
  ¬ mentions timeoutPhrases (Js.message error).

(** [adjacent a b l]: the argument [a] is in [l], directly followed by [b]. *)
Definition adjacent (a b : string) (l : list string) : Prop :=
  ∃ before after, l = (before ++ a :: b :: after)%list.

(** The fixed words of the backend's command line. *)
Definition flagLiterals : list string :=
  ["-p"; "--model"; "--resume"; "--session-id"; "--output-format";
   "stream-json"; "json"; "--verbose"; "--include-partial-messages";
   "--allowedTools"; "--system-prompt"; "--max-turns"].

(** The roles the [Message] interface declares. *)
Definition declaredRoles : list string := ["system"; "user"; "assistant"].

(** [Rendered messages sys conv]: one pass over the messages, in order, that
    puts the text of each system message in [sys] and each user or assistant
    message, behind its label, in [conv]. *)
Inductive Rendered : list Message → list string → list string → Prop :=
| Rendered_nil : Rendered [] [] []
| Rendered_system m ms sys conv :
    role m = "system" → Rendered ms sys conv →
    Rendered (m :: ms) (Translate.extractText (content m) :: sys) conv
| Rendered_user m ms sys conv :
    role m = "user" → Rendered ms sys conv →
    Rendered (m :: ms) sys
      (("User: " +:+ Translate.extractText (content m)) :: conv)
| Rendered_assistant m ms sys conv :
    role m = "assistant" → Rendered ms sys conv →
    Rendered (m :: ms) sys
      (("Assistant: " +:+ Translate.extractText (content m)) :: conv).

(** What the fingerprint of a conversation may depend on: for each of the
    first three messages, its role and the first 200 characters of the text
    [makeKey] reads from it. *)
Definition keyView (messages : list Message) : list (string * string) :=
  map (λ m, (role m, Js.substring0 200 (SessionTracker.keyText (content m))))
      (take 3 messages).

(** Reading a frame back: a field of a JSON object, the first item of an
    array, the text of a string. *)
Definition field (name : string) (j : Json) : option Json :=
  match j with
  | JObj fields => snd <$> List.find (λ kv, String.eqb (fst kv) name) fields
  | _ => None
  end.

Definition firstItem (j : Json) : option Json :=
  match j with
  | JArr (x :: _) => Some x
  | _ => None
  end.

Definition asString (j : Json) : option string :=
  match j with
  | JStr s => Some s
  | _ => None
  end.

(** [choices[0].delta.content] of a data frame: the text it carries. *)
Definition deltaContent (f : Sse) : option string :=
  match f with
  | SseData j =>
      ((((field "choices" j ≫= firstItem) ≫= field "delta")
          ≫= field "content") ≫= asString)
  | SseDone => None
  end.

Definition carries (text : string) (f : Sse) : bool :=
  bool_decide (deltaContent f = Some text).

Definition carriesText (f : Sse) : bool :=
  match deltaContent f with Some _ => true | None => false end.

Definition isDone (f : Sse) : bool :=
  match f with SseDone => true | SseData _ => false end.

Definition isErrorFrame (f : Sse) : bool :=
  match f with
  | SseData j => match field "error" j with Some _ => true | None => false end
  | SseDone => false
  end.

Definition count (p : Sse → bool) (frames : list Sse) : nat :=
  length (List.filter p frames).

(** The frame sequence ends with the terminal marker. *)
Definition endsWithDone (frames : list Sse) : Prop :=
  ∃ before, frames = (before ++ [SseDone])%list.

(** A frame written for a text fragment of the stream at hand. *)
Definition textFrame (completionId model : string) (f : Sse) : Prop :=
  ∃ text now, text ≠ "" ∧ [f] = Translate.formatSSEChunk completionId text model now.

Definition notResult (timed : Z * Claude.StreamEvent) : Prop :=
  Claude.ev_type timed.2 ≠ "result".

(** The marks of a reasoning block in the stream: the event that opens one,
    an event that closes a block, an inner event that is a block stop, and
    an event whose delta is tagged as reasoning. *)
Definition opensThinking (timed : Z * Claude.StreamEvent) : Prop :=
  Claude.ev_type timed.2 = "stream_event" ∧
  ∃ inner, Claude.event timed.2 = Some inner ∧
           Claude.ie_type inner = "content_block_start" ∧
           Claude.content_block inner = Some "thinking".

Definition closesBlock (timed : Z * Claude.StreamEvent) : Prop :=
  Claude.ev_type timed.2 = "stream_event" ∧
  ∃ inner, Claude.event timed.2 = Some inner ∧
           Claude.ie_type inner = "content_block_stop".

Definition isBlockStop (timed : Z * Claude.StreamEvent) : Prop :=
  ∃ inner, Claude.event timed.2 = Some inner ∧
           Claude.ie_type inner = "content_block_stop".

Definition reasoningTagged (timed : Z * Claude.StreamEvent) : Prop :=
  ∃ inner, Claude.event timed.2 = Some inner ∧
           Claude.delta inner ≫= Claude.d_type = Some "thinking_delta".

(** The run of a started child with the given events, close and exit. *)
Definition runOf (events : list (Z * Claude.StreamEvent)) (closedAt : Z)
    (rejected : option Js.Error) : Claude.Spawn → Claude.StreamRun :=
  λ _, {| Claude.yielded := events; Claude.closedAt := closedAt;
          Claude.rejected := rejected |}.

(** The state a streaming request starts from. *)
Definition request (tr : SessionTracker.t) : Server.State :=
  {| Server.sessions := tr; Server.res := Server.freshResponse;
     Server.console := [] |}.

(** The synthetic events of the streaming filter. *)
Definition streamEvent (inner : Claude.InnerEvent) : Claude.StreamEvent :=
  {| Claude.ev_type := "stream_event"; Claude.event := Some inner;
     Claude.result := None; Claude.session_id := None; Claude.usage := None |}.

Definition blockStart (kind : string) : Claude.StreamEvent :=
  streamEvent {| Claude.ie_type := "content_block_start";
                 Claude.content_block := Some kind;
                 Claude.delta := None |}.

Definition reasoningDelta (thought : string) : Claude.StreamEvent :=
  streamEvent {| Claude.ie_type := "content_block_delta";
                 Claude.content_block := None;
                 Claude.delta := Some {| Claude.d_type := Some "thinking_delta";
                                         Claude.d_text := None;
                                         Claude.d_thinking := Some thought |} |}.

Definition blockStop : Claude.StreamEvent :=
  streamEvent {| Claude.ie_type := "content_block_stop";
                 Claude.content_block := None;
                 Claude.delta := None |}.

Definition textDelta (text : string) : Claude.StreamEvent :=
  streamEvent {| Claude.ie_type := "content_block_delta";
                 Claude.content_block := None;
                 Claude.delta := Some {| Claude.d_type := Some "text_delta";
                                         Claude.d_text := Some text;
                                         Claude.d_thinking := None |} |}.

Definition resultEvent : Claude.StreamEvent :=
  {| Claude.ev_type := "result"; Claude.event := None;
     Claude.result := Some "X"; Claude.session_id := Some "b7c1";
     Claude.usage := None |}.

Definition syntheticEvents (thought : string) (t1 t2 t3 t4 t5 : Z)
  : list (Z * Claude.StreamEvent) :=
  [(t1, blockStart "thinking"); (t2, reasoningDelta thought); (t3, blockStop);
   (t4, textDelta "X"); (t5, resultEvent)].

(** ** Sample values *)

Definition sampleSession : Session :=
  {| claudeSessionId := "b7c1"; turnCount := 0;
     lastUsedAt := 1000; messageCount := 0 |}.

(** A tracker with a TTL of 500 ms and one session created at time 1000. *)
Definition sampleTracker : SessionTracker.t :=
  (SessionTracker.create "b7c1" 1000 "conv-a" (SessionTracker.new 500)).2.

Definition sampleArgs (continue streaming : bool) : Claude.ClaudeArgs :=
  {| Claude.model := "sonnet";
     Claude.systemPrompt := Some "be brief";
     Claude.sessionId := "b7c1";
     Claude.continueSession := continue;
     Claude.stream := streaming;
     Claude.tools := "Read,Grep" |}.

Definition sampleConfig : BridgeConfig :=
  {| port := 3457; defaultModel := "sonnet";
     tools := "Bash,Read,Write,Edit,Glob,Grep"; maxTurns := 15;
     timeoutMs := 300000; maxBufferBytes := 52428800;
     sessionTtlMs := 1800000 |}.

Definition textMessage (r text : string) : Message :=
  {| role := r; content := CString text |}.

Definition sampleConversation : list Message :=
  [textMessage "system" "be brief"; textMessage "user" "a";
   textMessage "assistant" "b"; textMessage "system" "in French";
   textMessage "user" "c"].

Fixpoint replicateUnit (n : nat) (c : ascii) : string :=
  match n with
  | O => ""
  | S n' => String c (replicateUnit n' c)
  end.

(** Two conversations that part only after the 200th character of the first
    message and in the fourth message. *)
Definition sampleLongA : list Message :=
  [textMessage "user" (replicateUnit 200 "a" +:+ " and then this");
   textMessage "assistant" "b"; textMessage "user" "c";
   textMessage "assistant" "one ending"].

Definition sampleLongB : list Message :=
  [textMessage "user" (replicateUnit 200 "a" +:+ " but then that");
   textMessage "assistant" "b"; textMessage "user" "c";
   textMessage "assistant" "another ending"; textMessage "user" "d"].

(** Three backends: one that ends on a result event, one whose output
    closes without one, one whose process fails after a fragment. *)
Definition sampleResultRun : Claude.StreamRun :=
  {| Claude.yielded := syntheticEvents "let me think" 1010 1020 1030 1040 1050;
     Claude.closedAt := 1060; Claude.rejected := None |}.

Definition sampleClosedRun : Claude.StreamRun :=
  {| Claude.yielded := [(1010, textDelta "Hel"); (1020, textDelta "lo")];
     Claude.closedAt := 1030; Claude.rejected := None |}.

Definition sampleFailedRun : Claude.StreamRun :=
  {| Claude.yielded := [(1010, textDelta "Hel")];
     Claude.closedAt := 1020;
     Claude.rejected := Some (Js.newError "quota exceeded") |}.

(** ** Vocabulary of the further properties *)

(** A text part and a part of another kind of a multipart content. *)
Definition textPart (text : string) : Part :=
  {| p_type := "text"; p_text := Some text |}.

Definition isSystem (m : Message) : Prop := role m = "system".

(** Options with another tool list, another system prompt. *)
Definition withTools (opts : Claude.ClaudeArgs) (allowed : string)
  : Claude.ClaudeArgs :=
  {| Claude.model := Claude.model opts;
     Claude.systemPrompt := Claude.systemPrompt opts;
     Claude.sessionId := Claude.sessionId opts;
     Claude.continueSession := Claude.continueSession opts;
     Claude.stream := Claude.stream opts;
     Claude.tools := allowed |}.

Definition withSystemPrompt (opts : Claude.ClaudeArgs) (text : option string)
  : Claude.ClaudeArgs :=
  {| Claude.model := Claude.model opts;
     Claude.systemPrompt := text;
     Claude.sessionId := Claude.sessionId opts;
     Claude.continueSession := Claude.continueSession opts;
     Claude.stream := Claude.stream opts;
     Claude.tools := Claude.tools opts |}.

(** The system prompt as [buildArgs] sees it: present and not empty. *)
Definition effectivePrompt (opts : Claude.ClaudeArgs) : option string :=
  match Claude.systemPrompt opts with
  | Some text => if Js.truthy text then Some text else None
  | None => None
  end.

(** The words of the command line in front of the output format and behind
    it. *)
Definition leadingWords (opts : Claude.ClaudeArgs) : list string :=
  ["-p"; "--model"; Claude.model opts;
   if Claude.continueSession opts then "--resume" else "--session-id";
   Claude.sessionId opts].

Definition trailingWords (config : BridgeConfig) (opts : Claude.ClaudeArgs)
  : list string :=
  (["--allowedTools"; Claude.tools opts]
   ++ match effectivePrompt opts with
      | Some text => ["--system-prompt"; text]
      | None => []
      end
   ++ ["--max-turns"; Js.ofNumber (maxTurns config)])%list.

(** The same process with another exit code and error output. *)
Definition withExit (p : Claude.Process) (code : option Z) (err : string)
  : Claude.Process :=
  {| Claude.lines := Claude.lines p; Claude.closed := Claude.closed p;
     Claude.exitCode := code; Claude.stderr := err |}.

(** A run that yields the given text fragments, one text delta each. *)
Definition textEvents (fragments : list (Z * string))
  : list (Z * Claude.StreamEvent) :=
  map (λ timed, (timed.1, textDelta timed.2)) fragments.

(** The frames written for a list of timed fragments: one per non-empty
    fragment, in order. *)
Fixpoint textFrames (completionId model : string)
    (fragments : list (Z * string)) : list Sse :=
  match fragments with
  | [] => []
  | (now, text) :: rest =>
      (if Js.truthy text
       then Translate.formatSSEChunk completionId text model now
       else [])
      ++ textFrames completionId model rest
  end%list.

(** [choices[0].message.content] and [choices[0].finish_reason] of a
    completion envelope, [error.code] of an error envelope. *)
Definition messageContent (j : Json) : option string :=
  ((((field "choices" j ≫= firstItem) ≫= field "message")
      ≫= field "content") ≫= asString).

Definition finishReason (j : Json) : option string :=
  (((field "choices" j ≫= firstItem) ≫= field "finish_reason") ≫= asString).

Definition errorCode (j : Json) : option string :=
  ((field "error" j ≫= field "code") ≫= asString).

(** A chat request with a body that parsed. *)
Definition chatRequest (model : option string) (messages : list Message)
    (streaming : bool) : Server.Body :=
  Server.Parsed {| Server.req_model := model;
                   Server.req_messages := Some messages;
                   Server.req_stream := streaming |}.

(** The options the chat handler builds for a session and a translated
    input. *)
Definition chatOptions (config : BridgeConfig) (model : option string)
    (session : Session) (translated : Translate.TranslatedInput)
    (streaming : bool) : Claude.ClaudeArgs :=
  {| Claude.model := Translate.mapModel model (defaultModel config);
     Claude.systemPrompt := Translate.systemPrompt translated;
     Claude.sessionId := claudeSessionId session;
     Claude.continueSession := negb (Translate.isFirstTurn translated);
     Claude.stream := streaming;
     Claude.tools := tools config |}.

Definition freshSession (uuid : string) (now : Z) : Session :=
  {| claudeSessionId := uuid; turnCount := 0;
     lastUsedAt := now; messageCount := 0 |}.

(** Sample backends and documents. *)
Definition sampleDocument : Translate.ClaudeCLIResponse :=
  {| Translate.is_error := false; Translate.num_turns := 1;
     Translate.result := "Bonjour"; Translate.session_id := "b7c1";
     Translate.usage := Some {| Translate.input_tokens := 12;
                                Translate.output_tokens := 3;
                                Translate.cache_read_input_tokens := 0 |} |}.

Definition sampleSyncOk : Claude.SyncCall → Claude.SyncRun :=
  λ _, {| Claude.finishedAt := 2000; Claude.returned := Returned sampleDocument |}.

Definition sampleSyncFailing : Claude.SyncCall → Claude.SyncRun :=
  λ _, {| Claude.finishedAt := 2000;
          Claude.returned := Thrown (Js.newError "Command failed: exit 1") |}.

Definition sampleProcess : Claude.Process :=
  {| Claude.lines := [(1010, "warming up"); (1020, "{delta Hel}");
                      (1030, "{delta lo}")];
     Claude.closed := 1040; Claude.exitCode := Some 1;
     Claude.stderr := "quota exceeded" |}.

(** A stand-in for [JSON.parse] on the two lines of [sampleProcess] that
    hold an event. *)
Definition sampleParse (line : string) : option Claude.StreamEvent :=
  if bool_decide (line = "{delta Hel}") then Some (textDelta "Hel")
  else if bool_decide (line = "{delta lo}") then Some (textDelta "lo")
  else if bool_decide (line = "{result}") then Some resultEvent
  else None.

(** Runs for the streaming handler: one that goes on after its result event
    and then fails, one that opens a thinking block and never closes it. *)
Definition sampleLateRun : Claude.StreamRun :=
  {| Claude.yielded :=
       (syntheticEvents "let me think" 1010 1020 1030 1040 1050
        ++ [(1055, textDelta "late")])%list;
     Claude.closedAt := 1070;
     Claude.rejected := Some (Js.newError "killed") |}.

Definition sampleOpenRun : Claude.StreamRun :=
  {| Claude.yielded := [(1010, blockStart "thinking");
                        (1020, reasoningDelta "hmm");
                        (1030, textDelta "leak")];
     Claude.closedAt := 1040; Claude.rejected := None |}.

Definition sampleUnknownFailure : Claude.StreamRun :=
  {| Claude.yielded := [(1010, textDelta "Hel")];
     Claude.closedAt := 1020;
     Claude.rejected := Some (Js.newError "Claude CLI exited with code 2") |}.

(** A child that does not start: the executable is not found. *)
Definition sampleNoChild : Claude.Spawn → Claude.Child :=
  λ _, Claude.Errored (Js.newError "spawn claude ENOENT").

(** ** Facts about the string primitives *)

Section StringFacts.

Lemma append_cons (x : ascii) (a b : string) :
  String x a +:+ b = String x (a +:+ b).
Proof. reflexivity. Qed.

Lemma append_nil_l (a : string) : "" +:+ a = a.
Proof. reflexivity. Qed.

Lemma append_assoc (a b c : string) : (a +:+ b) +:+ c = a +:+ (b +:+ c).
Proof.
  induction a as [|x a IH]; [done|]. rewrite !append_cons. by f_equal.
Qed.

Lemma append_nil_r (a : string) : a +:+ "" = a.
Proof.
  induction a as [|x a IH]; [done|]. rewrite append_cons. by f_equal.
Qed.

Lemma startsWith_spec (hay needle : string) :
  Js.startsWith hay needle = true ↔ ∃ post, hay = needle +:+ post.
Proof.
  revert hay. induction needle as [|c needle IH]; intros hay; simpl.
  - split; [intros _; exists hay; reflexivity | done].
  - destruct hay as [|d hay].
    + split; [done | intros [post Hpost]; discriminate].
    + rewrite andb_true_iff, Ascii.eqb_eq, IH. split.
      * intros [-> [post ->]]. exists post. reflexivity.
      * intros [post Hpost]. rewrite append_cons in Hpost.
        injection Hpost as -> ->. eauto.
Qed.

Lemma includes_spec (hay needle : string) :
  Js.includes hay needle = true ↔ occurs needle hay.
Proof.
  unfold occurs. induction hay as [|d hay IH].
  - simpl. rewrite orb_false_r, startsWith_spec. split.
    + intros [post ->]. exists "", post. reflexivity.
    + intros (pre & post & Heq). destruct pre; [by exists post|discriminate].
  - cbn [Js.includes]. rewrite orb_true_iff, IH, startsWith_spec. split.
    + intros [[post ->] | (pre & post & ->)].
      * exists "", post. reflexivity.
      * exists (String d pre), post. reflexivity.
    + intros (pre & post & Heq). destruct pre as [|c pre].
      * left. by exists post.
      * right. rewrite append_cons in Heq.
        injection Heq as -> ->. by exists pre, post.
Qed.

Lemma includes_false (hay needle : string) :
  Js.includes hay needle = false ↔ ¬ occurs needle hay.
Proof.
  rewrite <- includes_spec. by destruct (Js.includes hay needle).
Qed.

Lemma truthy_spec (s : string) : Js.truthy s = true ↔ s ≠ "".
Proof. destruct s; simpl; split; done. Qed.

Lemma occurs_nonempty (needle hay : string) :
  needle ≠ "" → occurs needle hay → hay ≠ "".
Proof.
  intros Hne (pre & post & ->) Heq.
  destruct pre; [destruct needle|]; done.
Qed.

Lemma toLowerCase_empty (s : string) : Js.toLowerCase s = "" → s = "".
Proof. by destruct s. Qed.

Lemma not_occurs_by_includes (needle hay : string) :
  Js.includes hay needle = false → ¬ occurs needle hay.
Proof. apply includes_false. Qed.

Lemma occurs_by_includes (needle hay : string) :
  Js.includes hay needle = true → occurs needle hay.
Proof. apply includes_spec. Qed.

Lemma mentions_spec (phrases : list string) (text : string) :
  mentions phrases text ↔ existsb (Js.includes text) phrases = true.
Proof.
  unfold mentions. rewrite existsb_exists. split.
  - intros (p & Hp & Hocc). exists p.
    by rewrite <- list_elem_of_In, includes_spec.
  - intros (p & Hp & Hocc). exists p.
    by rewrite list_elem_of_In, <- includes_spec.
Qed.

Lemma mentions_false (phrases : list string) (text : string) :
  ¬ mentions phrases text ↔ existsb (Js.includes text) phrases = false.
Proof.
  rewrite mentions_spec. by destruct (existsb _ _).
Qed.

End StringFacts.

(** ** SessionTracker: lookup with lazy expiry *)

Section Lookup.

Import SessionTracker.

Lemma get_fresh (tr : t) (now : Z) (key : string) (s : Session) :
  sessions tr !! key = Some s → now - lastUsedAt s <= ttlMs tr →
  get now key tr = (Some s, tr).
Proof.
  intros Hs Hage. unfold get. rewrite Hs.
  destruct (now - lastUsedAt s >? ttlMs tr) eqn:Hcmp; [|done].
  apply Z.gtb_lt in Hcmp. lia.
Qed.

Lemma get_stale (tr : t) (now : Z) (key : string) (s : Session) :
  sessions tr !! key = Some s → now - lastUsedAt s > ttlMs tr →
  get now key tr = (None, delete key tr).
Proof.
  intros Hs Hage. unfold get. rewrite Hs.
  destruct (now - lastUsedAt s >? ttlMs tr) eqn:Hcmp; [done|].
  rewrite Z.gtb_ltb, Z.ltb_ge in Hcmp. lia.
Qed.

Lemma get_absent (tr : t) (now : Z) (key : string) :
  sessions tr !! key = None → get now key tr = (None, tr).
Proof. intros Hs. unfold get. by rewrite Hs. Qed.

Lemma delete_gone (tr : t) (key : string) :
  sessions (delete key tr) !! key = None.
Proof. apply lookup_delete_eq. Qed.

Lemma delete_others (tr : t) (key other : string) :
  other ≠ key → sessions (delete key tr) !! other = sessions tr !! other.
Proof. intros Hne. by apply lookup_delete_ne. Qed.

Lemma get_returns_live (tr : t) (now : Z) (key : string) (s : Session) :
  (get now key tr).1 = Some s →
  sessions tr !! key = Some s ∧ now - lastUsedAt s <= ttlMs tr.
Proof.
  unfold get. destruct (sessions tr !! key) as [s'|] eqn:Hs; [|done].
  destruct (now - lastUsedAt s' >? ttlMs tr) eqn:Hcmp; [done|].
  rewrite Z.gtb_ltb, Z.ltb_ge in Hcmp. simpl. by intros [= ->].
Qed.

Lemma get_after_delete (tr : t) (now : Z) (key : string) :
  get now key (delete key tr) = (None, delete key tr).
Proof. apply get_absent, delete_gone. Qed.

(** The round trip of the specification: a created session is found with
    zero turns, three touches count three turns, and once the TTL has
    elapsed the lookup finds nothing and the entry is gone. *)
Lemma create_then_get (tr : t) (uuid key : string) (now : Z) :
  0 <= ttlMs tr →
  (get now key (create uuid now key tr).2).1
  = Some {| claudeSessionId := uuid; turnCount := 0;
            lastUsedAt := now; messageCount := 0 |}.
Proof.
  intros Httl. unfold get, create. cbn. rewrite lookup_insert_eq. cbn.
  destruct (now - now >? ttlMs tr) eqn:Hcmp; [|done].
  apply Z.gtb_lt in Hcmp. lia.
Qed.

Lemma touch_lookup (tr : t) (now : Z) (key : string) :
  sessions (touch now key tr) !! key = touched now <$> sessions tr !! key.
Proof. unfold touch. cbn. by rewrite lookup_alter_eq. Qed.

Lemma touch_thrice (tr : t) (key : string) (s : Session) (t1 t2 t3 : Z) :
  sessions tr !! key = Some s →
  ∃ s', sessions (touch t3 key (touch t2 key (touch t1 key tr))) !! key = Some s' ∧
        turnCount s' = turnCount s + 3 ∧ lastUsedAt s' = t3 ∧
        claudeSessionId s' = claudeSessionId s.
Proof.
  intros Hs. rewrite !touch_lookup, Hs. eexists. split; [done|].
  cbn. split; [lia | done].
Qed.

Lemma touch_absent (tr : t) (now : Z) (key : string) :
  sessions tr !! key = None → sessions (touch now key tr) = sessions tr.
Proof.
  intros Hs. unfold touch. cbn. apply map_eq. intros k.
  destruct (decide (k = key)) as [->|Hne].
  - by rewrite lookup_alter_eq, Hs.
  - by rewrite lookup_alter_ne.
Qed.

Lemma get_after_ttl (tr : t) (uuid key : string) (created now : Z) :
  now - created > ttlMs tr →
  get now key (create uuid created key tr).2
  = (None, delete key (create uuid created key tr).2).
Proof.
  intros Hage. eapply get_stale; [apply lookup_insert_eq | done].
Qed.

(** The periodic sweep keeps exactly the entries that are not past the TTL. *)
Lemma cleanup_lookup (tr : t) (now : Z) (key : string) (s : Session) :
  sessions (cleanup now tr) !! key = Some s ↔
  sessions tr !! key = Some s ∧ now - lastUsedAt s <= ttlMs tr.
Proof.
  unfold cleanup. cbn. rewrite map_lookup_filter_Some. cbn.
  split; intros [Hs Hage]; (split; [done | lia]).
Qed.

(** C2.  [get] returns the stored session when there is one and its age
    [now - lastUsedAt] is at most the TTL, leaving the registry as it was;
    when the age strictly exceeds the TTL it removes the entry (only that
    one) and returns null; it returns null for an absent key.  Whatever the
    registry holds, swept or not, a session that [get] returns is stored
    under the key and is not older than the TTL. *)
Theorem get_lazy_expiry (tr : t) (now : Z) (key : string) :
  (∀ s, sessions tr !! key = Some s → now - lastUsedAt s <= ttlMs tr →
        get now key tr = (Some s, tr)) ∧
  (∀ s, sessions tr !! key = Some s → now - lastUsedAt s > ttlMs tr →
        get now key tr = (None, delete key tr) ∧
        sessions (get now key tr).2 !! key = None ∧
        ∀ other, other ≠ key →
                 sessions (get now key tr).2 !! other = sessions tr !! other) ∧
  (sessions tr !! key = None → get now key tr = (None, tr)) ∧
  (∀ s, (get now key tr).1 = Some s →
        sessions tr !! key = Some s ∧ now - lastUsedAt s <= ttlMs tr).
Proof.
  split; [intros s; apply get_fresh|].
  split; [|split; [apply get_absent | intros s; apply get_returns_live]].
  intros s Hs Hage. rewrite (get_stale tr now key s Hs Hage).
  split; [done|]. split; [apply delete_gone|].
  intros other Hne. by apply delete_others.
Qed.

Lemma get_lazy_expiry_witness :
  (get 1500 "conv-a" sampleTracker).1 = Some sampleSession ∧
  get 1501 "conv-a" sampleTracker = (None, delete "conv-a" sampleTracker) ∧
  get 1501 "conv-b" sampleTracker = (None, sampleTracker).
Proof.
  destruct (get_lazy_expiry sampleTracker 1500 "conv-a") as (Hfresh & _).
  destruct (get_lazy_expiry sampleTracker 1501 "conv-a") as (_ & Hstale & _).
  destruct (get_lazy_expiry sampleTracker 1501 "conv-b")
    as (_ & _ & Habsent & _).
  split.
  { rewrite (Hfresh sampleSession);
      [reflexivity | vm_compute; reflexivity | simpl; lia]. }
  split.
  { apply (Hstale sampleSession); [vm_compute; reflexivity | simpl; lia]. }
  apply Habsent. vm_compute. reflexivity.
Defined.

End Lookup.

(** ** Translate: the model-name mapping *)

Section MapModel.

Import Translate.

Lemma mapModel_unfold (s d : string) :
  mapModel (Some s) d =
    if Js.includes (Js.toLowerCase s) "haiku" then "haiku"
    else if Js.includes (Js.toLowerCase s) "opus" then "opus"
    else if Js.includes (Js.toLowerCase s) "sonnet" then "sonnet"
    else d.
Proof. by destruct s. Qed.

Lemma mapModel_haiku (s d : string) :
  occurs "haiku" (Js.toLowerCase s) → mapModel (Some s) d = "haiku".
Proof.
  intros H%includes_spec. by rewrite mapModel_unfold, H.
Qed.

Lemma mapModel_opus (s d : string) :
  ¬ occurs "haiku" (Js.toLowerCase s) → occurs "opus" (Js.toLowerCase s) →
  mapModel (Some s) d = "opus".
Proof.
  intros Hh%includes_false Ho%includes_spec.
  by rewrite mapModel_unfold, Hh, Ho.
Qed.

Lemma mapModel_sonnet (s d : string) :
  ¬ occurs "haiku" (Js.toLowerCase s) → ¬ occurs "opus" (Js.toLowerCase s) →
  occurs "sonnet" (Js.toLowerCase s) → mapModel (Some s) d = "sonnet".
Proof.
  intros Hh%includes_false Ho%includes_false Hs%includes_spec.
  by rewrite mapModel_unfold, Hh, Ho, Hs.
Qed.

Lemma tiers_cases (t : string) :
  t ∈ tiers ↔ t = "haiku" ∨ t = "opus" ∨ t = "sonnet".
Proof.
  unfold tiers. rewrite list_elem_of_In. simpl. intuition congruence.
Qed.

Lemma mapModel_unrecognized (s d : string) :
  (∀ t, t ∈ tiers → ¬ occurs t (Js.toLowerCase s)) → mapModel (Some s) d = d.
Proof.
  intros Hnone. rewrite mapModel_unfold.
  assert (Hh : Js.includes (Js.toLowerCase s) "haiku" = false)
    by (apply includes_false, Hnone, tiers_cases; tauto).
  assert (Ho : Js.includes (Js.toLowerCase s) "opus" = false)
    by (apply includes_false, Hnone, tiers_cases; tauto).
  assert (Hs : Js.includes (Js.toLowerCase s) "sonnet" = false)
    by (apply includes_false, Hnone, tiers_cases; tauto).
  by rewrite Hh, Ho, Hs.
Qed.

Lemma mapModel_contained (s d : string) :
  (∃ t, t ∈ tiers ∧ occurs t (Js.toLowerCase s)) →
  mapModel (Some s) d ∈ tiers ∧ occurs (mapModel (Some s) d) (Js.toLowerCase s).
Proof.
  intros (t & Ht & Hocc). rewrite mapModel_unfold.
  destruct (Js.includes (Js.toLowerCase s) "haiku") eqn:Hh;
    [apply includes_spec in Hh; split; [apply tiers_cases; tauto | done] |].
  destruct (Js.includes (Js.toLowerCase s) "opus") eqn:Ho;
    [apply includes_spec in Ho; split; [apply tiers_cases; tauto | done] |].
  destruct (Js.includes (Js.toLowerCase s) "sonnet") eqn:Hs;
    [apply includes_spec in Hs; split; [apply tiers_cases; tauto | done] |].
  apply includes_false in Hh, Ho, Hs.
  apply tiers_cases in Ht. destruct Ht as [-> | [-> | ->]]; done.
Qed.

Lemma mapModel_only_tier (s d t : string) :
  t ∈ tiers → occurs t (Js.toLowerCase s) →
  (∀ u, u ∈ tiers → occurs u (Js.toLowerCase s) → u = t) →
  mapModel (Some s) d = t.
Proof.
  intros Ht Hocc Honly.
  destruct (mapModel_contained s d) as [Hin Hres]; [by exists t|].
  by apply Honly.
Qed.

Lemma mapModel_lowercase (a b d : string) :
  Js.toLowerCase a = Js.toLowerCase b →
  mapModel (Some a) d = mapModel (Some b) d.
Proof. intros Heq. by rewrite !mapModel_unfold, Heq. Qed.

(** C9.  The model-name mapping looks only at the lower-cased request
    (case-insensitive) and at which of the tokens haiku, opus and sonnet
    occur in it as substrings: a request in which a token occurs resolves
    to a tier whose token it contains (to that tier when it is the only
    one, and by the order haiku, opus, sonnet otherwise); an absent, empty
    or unrecognized request resolves to the fallback.  In particular
    "Claude-Opus-Extended" resolves to opus and an absent request with
    fallback "sonnet" to "sonnet". *)
Theorem mapModel_case_insensitive_substring :
  (∀ a b d, Js.toLowerCase a = Js.toLowerCase b →
            mapModel (Some a) d = mapModel (Some b) d) ∧
  (∀ s d t, t ∈ tiers → occurs t (Js.toLowerCase s) →
            (∀ u, u ∈ tiers → occurs u (Js.toLowerCase s) → u = t) →
            mapModel (Some s) d = t) ∧
  (∀ s d, (∃ t, t ∈ tiers ∧ occurs t (Js.toLowerCase s)) →
          mapModel (Some s) d ∈ tiers ∧
          occurs (mapModel (Some s) d) (Js.toLowerCase s)) ∧
  (∀ s d, occurs "haiku" (Js.toLowerCase s) → mapModel (Some s) d = "haiku") ∧
  (∀ s d, ¬ occurs "haiku" (Js.toLowerCase s) →
          occurs "opus" (Js.toLowerCase s) → mapModel (Some s) d = "opus") ∧
  (∀ s d, ¬ occurs "haiku" (Js.toLowerCase s) →
          ¬ occurs "opus" (Js.toLowerCase s) →
          occurs "sonnet" (Js.toLowerCase s) → mapModel (Some s) d = "sonnet") ∧
  (∀ s d, (∀ t, t ∈ tiers → ¬ occurs t (Js.toLowerCase s)) →
          mapModel (Some s) d = d) ∧
  (∀ d, mapModel None d = d) ∧
  (∀ d, mapModel (Some "") d = d) ∧
  (∀ d, mapModel (Some "Claude-Opus-Extended") d = "opus") ∧
  mapModel None "sonnet" = "sonnet".
Proof.
  split; [exact mapModel_lowercase|].
  split; [exact mapModel_only_tier|].
  split; [exact mapModel_contained|].
  split; [exact mapModel_haiku|].
  split; [exact mapModel_opus|].
  split; [exact mapModel_sonnet|].
  split; [exact mapModel_unrecognized|].
  repeat split; reflexivity.
Qed.

Lemma mapModel_case_insensitive_substring_witness :
  mapModel (Some "CLAUDE-OPUS") "sonnet" = mapModel (Some "claude-opus") "sonnet" ∧
  mapModel (Some "Claude-Opus-Extended") "sonnet" = "opus" ∧
  mapModel (Some "My-Haiku-Or-Opus") "sonnet" = "haiku" ∧
  mapModel (Some "claude-sonnet") "opus" = "sonnet" ∧
  mapModel (Some "gpt-4") "sonnet" = "sonnet".
Proof.
  destruct mapModel_case_insensitive_substring
    as (Hcase & Honly & _ & Hhaiku & _ & Hsonnet & Hnone & _).
  split; [apply Hcase; reflexivity|].
  split.
  { apply Honly.
    - apply tiers_cases. tauto.
    - apply occurs_by_includes. reflexivity.
    - intros u Hu Hocc. apply tiers_cases in Hu.
      destruct Hu as [-> | [-> | ->]]; [exfalso | reflexivity | exfalso];
        revert Hocc; apply not_occurs_by_includes; reflexivity. }
  split; [apply Hhaiku, occurs_by_includes; reflexivity|].
  split.
  { apply Hsonnet;
      [apply not_occurs_by_includes; reflexivity
      |apply not_occurs_by_includes; reflexivity
      |apply occurs_by_includes; reflexivity]. }
  apply Hnone. intros t Ht. apply tiers_cases in Ht.
  destruct Ht as [-> | [-> | ->]];
    apply not_occurs_by_includes; reflexivity.
Defined.

End MapModel.

(** ** Server: the error classifier *)

Section HandleError.

Import Server.

Lemma effective_mentions (phrases : list string) (error : Js.Error) :
  existsb (Js.includes "Unknown error") phrases = false →
  Forall (λ p, p ≠ "") phrases →
  existsb (Js.includes (effective error)) phrases
  = existsb (Js.includes (Js.message error)) phrases.
Proof.
  intros Hunknown Hne. unfold effective.
  destruct (Js.message error) as [|c m] eqn:Hm; [|done].
  cbn [Js.truthy]. rewrite Hunknown. symmetry.
  apply not_true_is_false. rewrite existsb_exists.
  intros (p & Hp & Hocc). apply includes_spec in Hocc.
  rewrite Forall_forall in Hne.
  apply list_elem_of_In, Hne in Hp. by apply (occurs_nonempty p "").
Qed.

Lemma handleError_unfold (error : Js.Error) (convKey : option string)
    (tr : SessionTracker.t) :
  handleError error convKey tr =
    if existsb (Js.includes (Js.message error)) rateLimitPhrases
    then (429, rateLimited, tr)
    else if existsb (Js.includes (Js.message error)) authPhrases
    then (401, authExpired, tr)
    else if Js.killed error ||
            existsb (Js.includes (Js.message error)) timeoutPhrases
    then (504, timedOut, tr)
    else if existsb (Js.includes (Js.message error)) sessionPhrases
    then (502, sessionExpired,
          match convKey with
          | Some key => if Js.truthy key then SessionTracker.delete key tr else tr
          | None => tr
          end)
    else (502, internalError (effective error), tr).
Proof.
  rewrite <- (effective_mentions rateLimitPhrases error);
    [|reflexivity|by repeat constructor].
  rewrite <- (effective_mentions authPhrases error);
    [|reflexivity|by repeat constructor].
  rewrite <- (effective_mentions timeoutPhrases error);
    [|reflexivity|by repeat constructor].
  rewrite <- (effective_mentions sessionPhrases error);
    [|reflexivity|by repeat constructor].
  unfold handleError. fold (effective error).
  unfold rateLimitPhrases, authPhrases, timeoutPhrases, sessionPhrases.
  cbn [existsb]. rewrite !orb_false_r, !orb_assoc. reflexivity.
Qed.

Lemma handleError_rate (error : Js.Error) (convKey : option string)
    (tr : SessionTracker.t) :
  mentions rateLimitPhrases (Js.message error) →
  handleError error convKey tr = (429, rateLimited, tr).
Proof.
  intros H%mentions_spec. by rewrite handleError_unfold, H.
Qed.

Lemma handleError_session (error : Js.Error) (convKey : option string)
    (tr : SessionTracker.t) :
  sessionFailure error →
  handleError error convKey tr =
    (502, sessionExpired,
     match convKey with
     | Some key => if Js.truthy key then SessionTracker.delete key tr else tr
     | None => tr
     end).
Proof.
  intros (Hs & Hr & Ha & Hk & Ht).
  apply mentions_spec in Hs. apply mentions_false in Hr, Ha, Ht.
  by rewrite handleError_unfold, Hr, Ha, Hk, Ht, Hs.
Qed.

Lemma handleError_other (error : Js.Error) (convKey : option string)
    (tr : SessionTracker.t) :
  ¬ sessionFailure error →
  (handleError error convKey tr).2 = tr ∧
  err_code (handleError error convKey tr).1.2 ≠ "session_expired".
Proof.
  intros Hnot. rewrite handleError_unfold.
  destruct (existsb _ rateLimitPhrases) eqn:Hr; [done|].
  destruct (existsb _ authPhrases) eqn:Ha; [done|].
  destruct (Js.killed error) eqn:Hk; [done|].
  destruct (existsb _ timeoutPhrases) eqn:Ht; [done|].
  destruct (existsb _ sessionPhrases) eqn:Hs; [|done].
  exfalso. apply Hnot. unfold sessionFailure.
  by rewrite mentions_spec, !mentions_false.
Qed.

(** C7.  For a failure taken for a lost or corrupted backend session the
    classifier removes the entry of the conversation key from the tracker
    (a later lookup of that key finds nothing, every other entry stays)
    and answers 502 with the error "session_expired"; for every other
    failure the tracker is left as it was and the error code is a
    different one. *)
Theorem handleError_session_expired :
  (∀ error key tr,
      key ≠ "" → sessionFailure error →
      handleError error (Some key) tr
      = (502, sessionExpired, SessionTracker.delete key tr) ∧
      SessionTracker.sessions (handleError error (Some key) tr).2 !! key = None ∧
      (∀ now, (SessionTracker.get now key (handleError error (Some key) tr).2).1
              = None) ∧
      (∀ other, other ≠ key →
          SessionTracker.sessions (handleError error (Some key) tr).2 !! other
          = SessionTracker.sessions tr !! other)) ∧
  err_code sessionExpired = "session_expired" ∧
  (∀ error convKey tr,
      ¬ sessionFailure error →
      (handleError error convKey tr).2 = tr ∧
      err_code (handleError error convKey tr).1.2 ≠ "session_expired").
Proof.
  split; [|split; [reflexivity | exact handleError_other]].
  intros error key tr Hkey Hfail.
  rewrite (handleError_session error (Some key) tr Hfail).
  apply truthy_spec in Hkey. rewrite Hkey. cbn [snd].
  split; [done|]. split; [apply delete_gone|].
  split; [intros now; by rewrite get_after_delete|].
  intros other Hne. by apply delete_others.
Qed.

Lemma handleError_session_expired_witness :
  handleError (Js.newError "Session not found") (Some "conv-a") sampleTracker
  = (502, sessionExpired, SessionTracker.delete "conv-a" sampleTracker) ∧
  (handleError (Js.newError "quota exceeded") (Some "conv-a") sampleTracker).2
  = sampleTracker.
Proof.
  destruct handleError_session_expired as (Hsession & _ & Hother).
  split.
  - apply Hsession; [discriminate|].
    unfold sessionFailure.
    split; [apply mentions_spec; reflexivity|].
    split; [apply mentions_false; reflexivity|].
    split; [apply mentions_false; reflexivity|].
    split; [reflexivity | apply mentions_false; reflexivity].
  - apply Hother. unfold sessionFailure.
    intros (_ & Hrate & _). apply mentions_false in Hrate. discriminate Hrate.
Defined.

(** C6.  A backend failure whose text contains one of the rate-limit
    phrases ("rate limit", "quota", "cooldown", "capacity") is answered
    with status 429 and an error of type "rate_limit_error" and code
    "rate_limit_exceeded", the tracker being left as it was; in particular
    the failure "quota exceeded" is. *)
Theorem handleError_rate_limited :
  (∀ error convKey tr,
      mentions rateLimitPhrases (Js.message error) →
      handleError error convKey tr = (429, rateLimited, tr)) ∧
  err_type rateLimited = "rate_limit_error" ∧
  err_code rateLimited = "rate_limit_exceeded" ∧
  (∀ convKey tr,
      handleError (Js.newError "quota exceeded") convKey tr
      = (429, rateLimited, tr)).
Proof.
  split; [exact handleError_rate|]. repeat split.
Qed.

Lemma handleError_rate_limited_witness :
  handleError (Js.newError "Claude is at capacity, cooldown 60s")
    (Some "conv-1") (SessionTracker.new 1800000)
  = (429, rateLimited, SessionTracker.new 1800000).
Proof.
  destruct handleError_rate_limited as (Hrate & _).
  apply Hrate. exists "cooldown". split.
  - apply list_elem_of_In. simpl. tauto.
  - apply occurs_by_includes. reflexivity.
Defined.

End HandleError.

(** ** Claude: the command line *)

Section BuildArgs.

Import Claude.
Local Open Scope list_scope.

Variable config : BridgeConfig.

Lemma adjacent_here (a b : string) (l : list string) :
  adjacent a b (a :: b :: l).
Proof. by exists [], l. Qed.

Lemma adjacent_cons (a b x : string) (l : list string) :
  adjacent a b l → adjacent a b (x :: l).
Proof. intros (before & after & ->). by exists (x :: before), after. Qed.

Ltac find_adjacent :=
  repeat first [apply adjacent_here | apply adjacent_cons].

Ltac find_member :=
  apply list_elem_of_In; simpl; tauto.

(** The argument list, laid out part by part. *)
Lemma buildArgs_layout (opts : ClaudeArgs) :
  buildArgs config opts =
    ["-p"; "--model"; model opts]
    ++ (if continueSession opts then ["--resume"; sessionId opts]
        else ["--session-id"; sessionId opts])
    ++ (if stream opts
        then ["--output-format"; "stream-json"; "--verbose";
              "--include-partial-messages"]
        else ["--output-format"; "json"])
    ++ ["--allowedTools"; Claude.tools opts]
    ++ match systemPrompt opts with
       | Some text => if Js.truthy text then ["--system-prompt"; text] else []
       | None => []
       end
    ++ ["--max-turns"; Js.ofNumber (maxTurns config)].
Proof.
  unfold buildArgs.
  destruct (continueSession opts), (stream opts),
    (systemPrompt opts) as [text|]; try destruct (Js.truthy text);
    reflexivity.
Qed.

Lemma buildArgs_session (opts : ClaudeArgs) :
  adjacent (if continueSession opts then "--resume" else "--session-id")
    (sessionId opts) (buildArgs config opts).
Proof.
  rewrite buildArgs_layout.
  destruct (continueSession opts); cbn [app]; find_adjacent.
Qed.

Lemma buildArgs_maxTurns (opts : ClaudeArgs) :
  adjacent "--max-turns" (Js.ofNumber (maxTurns config)) (buildArgs config opts).
Proof.
  rewrite buildArgs_layout.
  destruct (continueSession opts), (stream opts),
    (systemPrompt opts) as [text|]; try destruct (Js.truthy text);
    cbn [app]; find_adjacent.
Qed.

Lemma buildArgs_streaming (opts : ClaudeArgs) :
  stream opts = true →
  adjacent "--output-format" "stream-json" (buildArgs config opts) ∧
  "--verbose" ∈ buildArgs config opts ∧
  "--include-partial-messages" ∈ buildArgs config opts.
Proof.
  intros Hstream. rewrite buildArgs_layout, Hstream.
  destruct (continueSession opts); cbn [app];
    (split; [find_adjacent | split; find_member]).
Qed.

Lemma buildArgs_sources (opts : ClaudeArgs) (a : string) :
  a ∈ buildArgs config opts →
  a ∈ flagLiterals ∨ a = model opts ∨ a = sessionId opts ∨
  a = Claude.tools opts ∨ systemPrompt opts = Some a ∨
  a = Js.ofNumber (maxTurns config).
Proof.
  rewrite buildArgs_layout. unfold flagLiterals.
  rewrite !list_elem_of_In.
  destruct (continueSession opts), (stream opts),
    (systemPrompt opts) as [text|]; try destruct (Js.truthy text);
    simpl; intuition (subst; auto).
Qed.

(** C3.  Whatever the options, the argument list holds the session
    identifier behind "--session-id" on a first turn and behind "--resume"
    on a continuation, and the maximum-turns bound behind "--max-turns";
    when streaming is asked for it holds "--output-format stream-json"
    with "--verbose" and "--include-partial-messages".  Every argument is
    a fixed word, a field of the options or the bound: the list is built
    without the prompt, which both entry points hand over as the text of
    standard input. *)
Theorem buildArgs_invariants (opts : ClaudeArgs) :
  (continueSession opts = false →
     adjacent "--session-id" (sessionId opts) (buildArgs config opts)) ∧
  (continueSession opts = true →
     adjacent "--resume" (sessionId opts) (buildArgs config opts)) ∧
  adjacent "--max-turns" (Js.ofNumber (maxTurns config)) (buildArgs config opts) ∧
  (stream opts = true →
     adjacent "--output-format" "stream-json" (buildArgs config opts) ∧
     "--verbose" ∈ buildArgs config opts ∧
     "--include-partial-messages" ∈ buildArgs config opts) ∧
  (∀ a, a ∈ buildArgs config opts →
     a ∈ flagLiterals ∨ a = model opts ∨ a = sessionId opts ∨
     a = Claude.tools opts ∨ systemPrompt opts = Some a ∨
     a = Js.ofNumber (maxTurns config)) ∧
  (∀ prompt,
     stdin (callClaudeStream config prompt opts) = prompt ∧
     input (callClaudeSync config prompt opts) = prompt) ∧
  (∀ prompt prompt',
     argv (callClaudeStream config prompt opts)
     = argv (callClaudeStream config prompt' opts) ∧
     command (callClaudeSync config prompt opts)
     = command (callClaudeSync config prompt' opts)) ∧
  (∀ prompt,
     adjacent "--output-format" "stream-json"
       (argv (callClaudeStream config prompt opts)) ∧
     "--verbose" ∈ argv (callClaudeStream config prompt opts) ∧
     "--include-partial-messages" ∈ argv (callClaudeStream config prompt opts)).
Proof.
  pose proof (buildArgs_session opts) as Hsession.
  split; [intros Hc; by rewrite Hc in Hsession|].
  split; [intros Hc; by rewrite Hc in Hsession|].
  split; [apply buildArgs_maxTurns|].
  split; [apply buildArgs_streaming|].
  split; [intros a; apply buildArgs_sources|].
  split; [done|]. split; [done|].
  intros prompt. by apply buildArgs_streaming.
Qed.

End BuildArgs.

Lemma buildArgs_invariants_witness :
  adjacent "--session-id" "b7c1"
    (Claude.buildArgs sampleConfig (sampleArgs false false)) ∧
  adjacent "--resume" "b7c1"
    (Claude.buildArgs sampleConfig (sampleArgs true true)) ∧
  "--verbose" ∈ Claude.buildArgs sampleConfig (sampleArgs true true) ∧
  Claude.buildArgs sampleConfig (sampleArgs true true)
  = ["-p"; "--model"; "sonnet"; "--resume"; "b7c1";
     "--output-format"; "stream-json"; "--verbose";
     "--include-partial-messages"; "--allowedTools"; "Read,Grep";
     "--system-prompt"; "be brief"; "--max-turns"; "15"].
Proof.
  destruct (buildArgs_invariants sampleConfig (sampleArgs false false))
    as (Hfirst & _).
  destruct (buildArgs_invariants sampleConfig (sampleArgs true true))
    as (_ & Hresume & _ & Hstream & _).
  split; [apply Hfirst; reflexivity|].
  split; [apply Hresume; reflexivity|].
  split; [apply Hstream; reflexivity|].
  vm_compute. reflexivity.
Defined.

(** ** Translate: first and continuation turns *)

Section Turns.

Import Translate.

Lemma declaredRoles_cases (r : string) :
  r ∈ declaredRoles ↔ r = "system" ∨ r = "user" ∨ r = "assistant".
Proof.
  unfold declaredRoles. rewrite list_elem_of_In. simpl. intuition congruence.
Qed.

Lemma renderTurn_user (m : Message) :
  role m = "user" → renderTurn m = "User: " +:+ extractText (content m).
Proof. intros Hr. unfold renderTurn. by rewrite Hr. Qed.

Lemma renderTurn_assistant (m : Message) :
  role m = "assistant" →
  renderTurn m = "Assistant: " +:+ extractText (content m).
Proof. intros Hr. unfold renderTurn. by rewrite Hr. Qed.

(** The two filters of [translateFirstTurn] split the list the way the
    one-pass rendering does. *)
Lemma filters_Rendered (messages : list Message) :
  Forall (λ m, role m ∈ declaredRoles) messages →
  Rendered messages
    (map (λ m, extractText (content m))
         (filter (λ m, role m = "system") messages))
    (map renderTurn (filter (λ m, role m ≠ "system") messages)).
Proof.
  induction 1 as [|m ms Hm _ IH]; [constructor|].
  apply declaredRoles_cases in Hm. destruct Hm as [Hr | [Hr | Hr]].
  - rewrite filter_cons_True by done.
    rewrite (filter_cons_False (λ m, role m ≠ "system")) by (by intros []).
    by apply Rendered_system.
  - rewrite filter_cons_False by (by rewrite Hr).
    rewrite (filter_cons_True (λ m, role m ≠ "system")) by (by rewrite Hr).
    cbn [map]. rewrite renderTurn_user by done. by apply Rendered_user.
  - rewrite filter_cons_False by (by rewrite Hr).
    rewrite (filter_cons_True (λ m, role m ≠ "system")) by (by rewrite Hr).
    cbn [map]. rewrite renderTurn_assistant by done.
    by apply Rendered_assistant.
Qed.

(** The rendering of a list is unique. *)
Lemma Rendered_functional (messages : list Message)
    (sys sys' conv conv' : list string) :
  Rendered messages sys conv → Rendered messages sys' conv' →
  sys = sys' ∧ conv = conv'.
Proof.
  intros H. revert sys' conv'.
  induction H as [|m ms sys conv Hr _ IH|m ms sys conv Hr _ IH
                  |m ms sys conv Hr _ IH];
    intros sys' conv' H'; inversion H'; subst;
    try (rewrite Hr in *; discriminate);
    try done; destruct (IH _ _ ltac:(eassumption)) as [-> ->]; done.
Qed.

(** C4.  For a list of messages with declared roles, empty or not,
    [translateFirstTurn] returns as system prompt the texts of exactly the
    system messages, in order, joined by a line feed (null when there is
    none), and as prompt every other message, in order, behind its label
    "User: " or "Assistant: ", joined by a blank line; [isFirstTurn] is
    true.  The result is a function of the list, which is only read. *)
Theorem translateFirstTurn_renders (messages : list Message) :
  Forall (λ m, role m ∈ declaredRoles) messages →
  (∃ sys conv,
      Rendered messages sys conv ∧
      systemPrompt (translateFirstTurn messages)
      = match sys with [] => None | _ :: _ => Some (Js.join Js.nl sys) end ∧
      prompt (translateFirstTurn messages) = Js.join (Js.nl +:+ Js.nl) conv ∧
      isFirstTurn (translateFirstTurn messages) = true) ∧
  (∀ messages', messages' = messages →
      translateFirstTurn messages' = translateFirstTurn messages).
Proof.
  intros Hroles. split; [|by intros ? ->].
  eexists _, _. split; [by apply filters_Rendered|].
  split; [|done]. unfold translateFirstTurn. cbn [systemPrompt].
  by destruct (filter (λ m, role m = "system") messages).
Qed.

Lemma translateFirstTurn_renders_witness :
  sampleConversation ≠ [] ∧
  ∃ sys conv,
    Rendered sampleConversation sys conv ∧
    systemPrompt (translateFirstTurn sampleConversation)
    = match sys with [] => None | _ :: _ => Some (Js.join Js.nl sys) end ∧
    prompt (translateFirstTurn sampleConversation)
    = Js.join (Js.nl +:+ Js.nl) conv ∧
    isFirstTurn (translateFirstTurn sampleConversation) = true.
Proof.
  split; [discriminate|].
  apply (translateFirstTurn_renders sampleConversation).
  repeat constructor; apply declaredRoles_cases; simpl; tauto.
Defined.

Lemma find_app_skip {A} (p : A → bool) (l1 l2 : list A) :
  Forall (λ x, p x = false) l1 → find p (l1 ++ l2) = find p l2.
Proof.
  induction 1 as [|x l1 Hx _ IH]; [done|]. simpl. by rewrite Hx.
Qed.

Lemma find_none {A} (p : A → bool) (l : list A) :
  Forall (λ x, p x = false) l → find p l = None.
Proof.
  intros H. rewrite <- (app_nil_r l). by rewrite find_app_skip.
Qed.

Lemma not_user_rev (messages : list Message) :
  Forall (λ x, role x ≠ "user") messages →
  Forall (λ x, bool_decide (role x = "user") = false) (rev messages).
Proof.
  intros H. apply Forall_rev. eapply Forall_impl; [exact H|].
  intros x Hx. by apply bool_decide_eq_false.
Qed.

Lemma translateContinueTurn_last_user (before after : list Message)
    (m : Message) :
  role m = "user" → Forall (λ x, role x ≠ "user") after →
  translateContinueTurn (before ++ m :: after)
  = Returned {| prompt := extractText (content m);
                systemPrompt := None; isFirstTurn := false |}.
Proof.
  intros Hm Hafter. unfold translateContinueTurn.
  rewrite rev_app_distr. cbn [rev]. rewrite <- app_assoc.
  rewrite find_app_skip by (by apply not_user_rev).
  cbn [app find]. by rewrite bool_decide_eq_true_2.
Qed.

Lemma translateContinueTurn_no_user (messages : list Message) :
  Forall (λ x, role x ≠ "user") messages →
  translateContinueTurn messages = Thrown (Js.newError noUserMessage).
Proof.
  intros H. unfold translateContinueTurn.
  by rewrite find_none by (by apply not_user_rev).
Qed.

(** C5.  On a list with a user message [translateContinueTurn] returns the
    extracted text of the last one as prompt, with no system prompt and
    [isFirstTurn] false; no returned value ever carries a system prompt; on
    a list without a user message it throws the error that says so. *)
Theorem translateContinueTurn_last_user_or_error :
  (∀ before m after,
      role m = "user" → Forall (λ x, role x ≠ "user") after →
      translateContinueTurn (before ++ m :: after)
      = Returned {| prompt := extractText (content m);
                    systemPrompt := None; isFirstTurn := false |}) ∧
  (∀ messages t,
      translateContinueTurn messages = Returned t →
      systemPrompt t = None ∧ isFirstTurn t = false) ∧
  (∀ messages,
      Forall (λ x, role x ≠ "user") messages →
      translateContinueTurn messages = Thrown (Js.newError noUserMessage)) ∧
  (∀ messages,
      (∃ m, m ∈ messages ∧ role m = "user") ∨
      Forall (λ x, role x ≠ "user") messages).
Proof.
  split; [intros before m after; apply translateContinueTurn_last_user|].
  split.
  { intros messages t. unfold translateContinueTurn.
    destruct (find _ _); [|done]. by intros [= <-]. }
  split; [exact translateContinueTurn_no_user|].
  intros messages. induction messages as [|m ms IH]; [by right|].
  destruct (decide (role m = "user")) as [Hm|Hm].
  - left. exists m. split; [apply list_elem_of_here | done].
  - destruct IH as [(m' & Hin & Hr) | Hall].
    + left. exists m'. split; [by apply list_elem_of_further | done].
    + right. by constructor.
Qed.

Lemma translateContinueTurn_last_user_or_error_witness :
  translateContinueTurn
    [textMessage "user" "a"; textMessage "assistant" "b"; textMessage "user" "c"]
  = Returned {| prompt := "c"; systemPrompt := None; isFirstTurn := false |} ∧
  translateContinueTurn [textMessage "system" "s"; textMessage "assistant" "b"]
  = Thrown (Js.newError noUserMessage).
Proof.
  destruct translateContinueTurn_last_user_or_error as (Hlast & _ & Hnone & _).
  split.
  - apply (Hlast [textMessage "user" "a"; textMessage "assistant" "b"]
                 (textMessage "user" "c") []); [reflexivity | constructor].
  - apply Hnone. repeat constructor; discriminate.
Defined.

End Turns.

(** ** SessionTracker: the conversation key *)

Section MakeKey.

Import SessionTracker.

Lemma fingerprint_keyView (messages : list Message) :
  fingerprint messages
  = Js.join "|" (map (λ rt, rt.1 +:+ ":" +:+ rt.2) (keyView messages)).
Proof.
  unfold fingerprint, keyView. by rewrite map_map.
Qed.

Lemma substring0_prefix (n : nat) (head tail : string) :
  String.length head = n → Js.substring0 n (head +:+ tail) = head.
Proof.
  revert n. induction head as [|c head IH]; intros n Hlen.
  - simpl in Hlen. subst n. by destruct tail.
  - simpl in Hlen. subst n. rewrite append_cons. cbn [Js.substring0].
    by rewrite IH.
Qed.

Lemma keyView_later (messages later : list Message) :
  length messages = 3%nat → keyView (messages ++ later) = keyView messages.
Proof.
  intros Hlen. unfold keyView.
  rewrite take_app_le by lia. by rewrite take_ge by lia.
Qed.

Lemma makeKey_keyView (messages messages' : list Message) :
  keyView messages = keyView messages' →
  makeKey None messages = makeKey None messages'.
Proof.
  intros Hview. unfold makeKey. by rewrite !fingerprint_keyView, Hview.
Qed.

(** C10.  Without an explicit identifier the key is a function of the roles
    and the first 200 characters of the text read from the first three
    messages: two conversations that agree on these get the same key,
    whatever follows the third message or the 200th character.  With a
    (non-empty) identifier the key is the identifier, whatever the
    messages. *)
Theorem makeKey_depends_on_prefix :
  (∀ messages messages',
      keyView messages = keyView messages' →
      makeKey None messages = makeKey None messages') ∧
  (∀ messages later later',
      length messages = 3%nat →
      makeKey None (messages ++ later) = makeKey None (messages ++ later')) ∧
  (∀ r head tail tail' rest,
      String.length head = 200%nat →
      makeKey None (textMessage r (head +:+ tail) :: rest)
      = makeKey None (textMessage r (head +:+ tail') :: rest)) ∧
  (∀ id messages, id ≠ "" → makeKey (Some id) messages = id) ∧
  makeKey None [textMessage "user" "hello"] = "conv-eayijn".
Proof.
  split; [exact makeKey_keyView|].
  split.
  { intros messages later later' Hlen. apply makeKey_keyView.
    by rewrite !keyView_later. }
  split.
  { intros r head tail tail' rest Hlen. apply makeKey_keyView.
    unfold keyView. cbn [take map textMessage role content keyText].
    by rewrite !substring0_prefix. }
  split; [|by vm_compute].
  intros id messages Hid%truthy_spec. unfold makeKey. by rewrite Hid.
Qed.

Lemma makeKey_depends_on_prefix_witness :
  makeKey None sampleLongA = makeKey None sampleLongB ∧
  makeKey (Some "thread-42") sampleLongA = "thread-42".
Proof.
  destruct makeKey_depends_on_prefix as (Hview & _ & _ & Hid & _).
  split.
  - apply Hview. vm_compute. reflexivity.
  - apply Hid. discriminate.
Defined.

End MakeKey.

(** ** Server: the streaming handler *)

Section StreamLoop.

Import Server.
Local Open Scope list_scope.

Variables (completionId model convKey : string).

Lemma write_nil (st : State) : write [] st = st.
Proof.
  destruct st as [tr [h w e] c]. unfold write. cbn. by rewrite app_nil_r.
Qed.

Lemma write_write (a b : list Sse) (st : State) :
  write b (write a st) = write (a ++ b) st.
Proof. unfold write. cbn. by rewrite app_assoc. Qed.

(** One sub-event writes at most one text frame, and none while the
    thinking block is open or when its delta is a thinking delta. *)
Lemma onInner_frames (inside : bool) (now : Z) (inner : Claude.InnerEvent)
    (st : State) :
  ∃ inside' frames,
    onInner completionId model inside now inner st
    = Continue inside' (write frames st) ∧
    Forall (textFrame completionId model) frames ∧
    (inside = true → frames = []) ∧
    (Claude.delta inner ≫= Claude.d_type = Some "thinking_delta" →
     frames = []).
Proof.
  unfold onInner.
  destruct (bool_decide (Claude.ie_type inner = "content_block_start") &&
            bool_decide (Claude.content_block inner = Some "thinking"));
    [exists true, []; by rewrite write_nil|].
  destruct (bool_decide (Claude.ie_type inner = "content_block_stop") && inside);
    [exists false, []; by rewrite write_nil|].
  destruct inside; [exists true, []; by rewrite write_nil|].
  destruct (bool_decide (Claude.delta inner ≫= Claude.d_type
                         = Some "thinking_delta")) eqn:Hthinking;
    [exists false, []; by rewrite write_nil|].
  apply bool_decide_eq_false in Hthinking.
  destruct (Claude.delta inner ≫= Claude.d_text) as [text|];
    [|exists false, []; by rewrite write_nil].
  destruct (Js.truthy text) eqn:Htext;
    [|exists false, []; by rewrite write_nil].
  exists false, (Translate.formatSSEChunk completionId text model now).
  split; [done|]. split; [|done].
  repeat constructor. exists text, now. by rewrite <- truthy_spec.
Qed.

Lemma onEvent_frames (inside : bool) (now : Z) (ev : Claude.StreamEvent)
    (st : State) :
  Claude.ev_type ev ≠ "result" →
  ∃ inside' frames,
    onEvent completionId model convKey inside now ev st
    = Continue inside' (write frames st) ∧
    Forall (textFrame completionId model) frames ∧
    (inside = true → frames = []) ∧
    (∀ inner, Claude.event ev = Some inner →
              Claude.delta inner ≫= Claude.d_type = Some "thinking_delta" →
              frames = []).
Proof.
  intros Hev. unfold onEvent. rewrite bool_decide_eq_false_2 by done.
  destruct (bool_decide (Claude.ev_type ev = "stream_event"));
    [|exists inside, []; by rewrite write_nil].
  destruct (Claude.event ev) as [inner|];
    [|exists inside, []; by rewrite write_nil].
  destruct (onInner_frames inside now inner st)
    as (inside' & frames & Hstep & Htext & Hopen & Hthinking).
  exists inside', frames. repeat split; try done.
  intros inner' [= <-]. done.
Qed.

Lemma onEvent_result (inside : bool) (now : Z) (ev : Claude.StreamEvent)
    (st : State) :
  Claude.ev_type ev = "result" →
  onEvent completionId model convKey inside now ev st
  = Return (onResult completionId model convKey now ev st).
Proof. intros Hev. unfold onEvent. by rewrite bool_decide_eq_true_2. Qed.

Lemma onResult_effect (now : Z) (ev : Claude.StreamEvent) (st : State) :
  written (res (onResult completionId model convKey now ev st))
  = written (res st) ++ Translate.formatSSEDone completionId model now ∧
  writableEnded (res (onResult completionId model convKey now ev st)) = true ∧
  head (res (onResult completionId model convKey now ev st)) = head (res st) ∧
  sessions (onResult completionId model convKey now ev st)
  = SessionTracker.touch now convKey (sessions st).
Proof.
  unfold onResult. destruct (Claude.usage ev) as [u|]; [|done].
  by destruct (Claude.cache_read_input_tokens u >? 0).
Qed.

(** A stretch of events without a result event keeps the loop going and
    writes text frames only. *)
Lemma consume_no_result (events : list (Z * Claude.StreamEvent))
    (inside : bool) (st : State) :
  Forall notResult events →
  ∃ inside' frames,
    consume completionId model convKey inside events st
    = Continue inside' (write frames st) ∧
    Forall (textFrame completionId model) frames.
Proof.
  intros Hev. revert inside st.
  induction Hev as [|[now ev] events Hhead _ IH]; intros inside st.
  - exists inside, []. by rewrite write_nil.
  - destruct (onEvent_frames inside now ev st Hhead)
      as (inside1 & frames1 & Hstep & Htext1 & _).
    destruct (IH inside1 (write frames1 st))
      as (inside2 & frames2 & Hrest & Htext2).
    exists inside2, (frames1 ++ frames2). cbn [consume].
    rewrite Hstep, Hrest, write_write. split; [done|].
    by apply Forall_app.
Qed.

(** The first result event ends the loop. *)
Lemma consume_result (before after : list (Z * Claude.StreamEvent))
    (now : Z) (ev : Claude.StreamEvent) (inside : bool) (st : State) :
  Forall notResult before → Claude.ev_type ev = "result" →
  ∃ frames,
    consume completionId model convKey inside (before ++ (now, ev) :: after) st
    = Return (onResult completionId model convKey now ev (write frames st)) ∧
    Forall (textFrame completionId model) frames.
Proof.
  intros Hbefore Hev. revert inside st.
  induction Hbefore as [|[now0 ev0] before Hhead _ IH]; intros inside st.
  - exists []. cbn [app consume]. by rewrite onEvent_result, write_nil.
  - destruct (onEvent_frames inside now0 ev0 st Hhead)
      as (inside1 & frames1 & Hstep & Htext1 & _).
    destruct (IH inside1 (write frames1 st)) as (frames2 & Hrest & Htext2).
    exists (frames1 ++ frames2). cbn [app consume].
    rewrite Hstep, Hrest, write_write. split; [done|].
    by apply Forall_app.
Qed.

(** With the thinking block open, events that are neither a block stop nor
    the result change nothing and leave the block open. *)
Lemma consume_open_block (events : list (Z * Claude.StreamEvent)) (st : State) :
  Forall (λ timed, notResult timed ∧ ¬ isBlockStop timed) events →
  consume completionId model convKey true events st = Continue true st.
Proof.
  intros Hall. revert st.
  induction Hall as [|[now ev] events [Hres Hstop] _ IH]; intros st; [done|].
  cbn [consume].
  assert (Hstep : onEvent completionId model convKey true now ev st
                  = Continue true st).
  { unfold onEvent. rewrite bool_decide_eq_false_2 by done.
    destruct (bool_decide (Claude.ev_type ev = "stream_event")); [|done].
    destruct (Claude.event ev) as [inner|] eqn:Hinner; [|done].
    unfold onInner.
    destruct (bool_decide (Claude.ie_type inner = "content_block_start") &&
              bool_decide (Claude.content_block inner = Some "thinking"));
      [done|].
    rewrite (bool_decide_eq_false_2 (Claude.ie_type inner = "content_block_stop"));
      [done|].
    intros Hkind. apply Hstop. by exists inner. }
  rewrite Hstep. apply IH.
Qed.

Lemma consume_app (a b : list (Z * Claude.StreamEvent)) (inside : bool)
    (st : State) :
  consume completionId model convKey inside (a ++ b) st
  = match consume completionId model convKey inside a st with
    | Continue inside' st' => consume completionId model convKey inside' b st'
    | Return st' => Return st'
    end.
Proof.
  revert inside st. induction a as [|[now ev] a IH]; intros inside st; [done|].
  cbn [app consume].
  destruct (onEvent completionId model convKey inside now ev st); [apply IH|done].
Qed.

(** The event that opens a reasoning block raises the flag and writes
    nothing; an event that closes a block lowers a raised flag and writes
    nothing. *)
Lemma onEvent_opens (inside : bool) (now : Z) (ev : Claude.StreamEvent)
    (st : State) :
  opensThinking (now, ev) →
  onEvent completionId model convKey inside now ev st = Continue true st.
Proof.
  intros (Hkind & inner & Hinner & Hstart & Hblock). cbn [snd] in *.
  unfold onEvent. rewrite Hkind, Hinner. cbn [bool_decide].
  rewrite bool_decide_eq_false_2 by discriminate.
  rewrite bool_decide_eq_true_2 by done.
  unfold onInner. by rewrite Hstart, Hblock.
Qed.

Lemma onEvent_closes (now : Z) (ev : Claude.StreamEvent) (st : State) :
  closesBlock (now, ev) →
  onEvent completionId model convKey true now ev st = Continue false st.
Proof.
  intros (Hkind & inner & Hinner & Hstop). cbn [snd] in *.
  unfold onEvent. rewrite Hkind, Hinner.
  rewrite bool_decide_eq_false_2 by discriminate.
  rewrite bool_decide_eq_true_2 by done.
  unfold onInner. by rewrite Hstop.
Qed.

(** A whole reasoning block, from the event that opens it to the first
    event that closes it, is passed over: the loop goes on behind it with
    the flag down and the state it had in front of it. *)
Lemma consume_block (inside0 : bool) (opening closing : Z * Claude.StreamEvent)
    (inside after : list (Z * Claude.StreamEvent)) (st : State) :
  opensThinking opening →
  Forall (λ timed, notResult timed ∧ ¬ isBlockStop timed) inside →
  closesBlock closing →
  consume completionId model convKey inside0
    (opening :: inside ++ closing :: after) st
  = consume completionId model convKey false after st.
Proof.
  destruct opening as [t1 start], closing as [t3 stop].
  intros Hopen Hinside Hclose. cbn [consume].
  rewrite (onEvent_opens inside0 t1 start st Hopen), consume_app.
  rewrite (consume_open_block inside st Hinside). cbn [consume].
  by rewrite (onEvent_closes t3 stop st Hclose).
Qed.

(** Outside a block, an event that opens none leaves the flag down. *)
Lemma onEvent_outside (now : Z) (ev : Claude.StreamEvent) (st : State) :
  ¬ opensThinking (now, ev) →
  match onEvent completionId model convKey false now ev st with
  | Continue inside' _ => inside' = false
  | Return _ => True
  end.
Proof.
  intros Hnot. unfold onEvent.
  destruct (bool_decide (Claude.ev_type ev = "result")); [done|].
  destruct (bool_decide (Claude.ev_type ev = "stream_event")) eqn:Hkind;
    [|done].
  apply bool_decide_eq_true in Hkind.
  destruct (Claude.event ev) as [inner|] eqn:Hinner; [|done].
  unfold onInner.
  destruct (bool_decide (Claude.ie_type inner = "content_block_start") &&
            bool_decide (Claude.content_block inner = Some "thinking"))
    eqn:Hstart.
  - exfalso. apply Hnot. apply andb_true_iff in Hstart as [Ha Hb].
    apply bool_decide_eq_true in Ha. apply bool_decide_eq_true in Hb.
    split; [done|]. by exists inner.
  - rewrite andb_false_r. cbv iota.
    destruct (bool_decide (Claude.delta inner ≫= Claude.d_type
                           = Some "thinking_delta")); [done|].
    destruct (Claude.delta inner ≫= Claude.d_text) as [text|]; [|done].
    by destruct (Js.truthy text).
Qed.

Lemma consume_outside (before x y : list (Z * Claude.StreamEvent))
    (st : State) :
  Forall (λ timed, ¬ opensThinking timed) before →
  (∀ st', consume completionId model convKey false x st'
          = consume completionId model convKey false y st') →
  consume completionId model convKey false (before ++ x) st
  = consume completionId model convKey false (before ++ y) st.
Proof.
  intros Hbefore Hsame. revert st.
  induction Hbefore as [|[now ev] before Hhead _ IH]; intros st; [apply Hsame|].
  cbn [app consume].
  pose proof (onEvent_outside now ev st Hhead) as Hflag.
  destruct (onEvent completionId model convKey false now ev st)
    as [inside' st'|st']; [|done].
  subst inside'. apply IH.
Qed.

(** An event tagged as reasoning that marks no block boundary changes
    neither the flag nor the state. *)
Lemma onEvent_tagged (inside : bool) (now : Z) (ev : Claude.StreamEvent)
    (st : State) :
  notResult (now, ev) → ¬ opensThinking (now, ev) → ¬ isBlockStop (now, ev) →
  reasoningTagged (now, ev) →
  onEvent completionId model convKey inside now ev st = Continue inside st.
Proof.
  intros Hres Hopen Hstop (inner & Hinner & Htag). cbn [snd] in *.
  unfold onEvent. rewrite bool_decide_eq_false_2 by done.
  destruct (bool_decide (Claude.ev_type ev = "stream_event")) eqn:Hkind;
    [|done].
  apply bool_decide_eq_true in Hkind. rewrite Hinner. unfold onInner.
  destruct (bool_decide (Claude.ie_type inner = "content_block_start") &&
            bool_decide (Claude.content_block inner = Some "thinking"))
    eqn:Hstart.
  - exfalso. apply Hopen. apply andb_true_iff in Hstart as [Ha Hb].
    apply bool_decide_eq_true in Ha. apply bool_decide_eq_true in Hb.
    split; [done|]. by exists inner.
  - rewrite (bool_decide_eq_false_2
               (Claude.ie_type inner = "content_block_stop")).
    + destruct inside; [done|]. cbn [andb].
      by rewrite bool_decide_eq_true_2.
    + intros Hkind'. apply Hstop. by exists inner.
Qed.

Lemma consume_tagged (before after : list (Z * Claude.StreamEvent))
    (tagged : Z * Claude.StreamEvent) (inside : bool) (st : State) :
  notResult tagged → ¬ opensThinking tagged → ¬ isBlockStop tagged →
  reasoningTagged tagged →
  consume completionId model convKey inside (before ++ tagged :: after) st
  = consume completionId model convKey inside (before ++ after) st.
Proof.
  destruct tagged as [now ev]. intros Hres Hopen Hstop Htag.
  rewrite !consume_app.
  destruct (consume completionId model convKey inside before st)
    as [inside' st'|st']; [|done].
  cbn [consume]. by rewrite (onEvent_tagged inside' now ev st').
Qed.

Lemma events_split (events : list (Z * Claude.StreamEvent)) :
  Forall notResult events ∨
  ∃ before now ev after,
    events = before ++ (now, ev) :: after ∧
    Forall notResult before ∧ Claude.ev_type ev = "result".
Proof.
  induction events as [|[now ev] events IH]; [by left|].
  destruct (decide (Claude.ev_type ev = "result")) as [Hev|Hev].
  - right. by exists [], now, ev, events.
  - destruct IH as [Hall | (before & now' & ev' & after & -> & Hb & Hr)].
    + left. by constructor.
    + right. exists ((now, ev) :: before), now', ev', after.
      split; [done|]. split; [by constructor | done].
Qed.

Lemma textFrame_not_error (f : Sse) :
  textFrame completionId model f → isErrorFrame f = false ∧ isDone f = false.
Proof. intros (text & now & _ & [= ->]). done. Qed.

Lemma count_text_frames (p : Sse → bool) (frames : list Sse) :
  (∀ f, textFrame completionId model f → p f = false) →
  Forall (textFrame completionId model) frames → count p frames = 0%nat.
Proof.
  intros Hp. unfold count. induction 1 as [|f frames Hf _ IH]; [done|].
  cbn [List.filter]. by rewrite (Hp f Hf).
Qed.

Lemma count_app (p : Sse → bool) (a b : list Sse) :
  count p (a ++ b) = (count p a + count p b)%nat.
Proof. unfold count. by rewrite List.filter_app, length_app. Qed.

End StreamLoop.

Section HandlerShape.

Import Server.
Local Open Scope list_scope.

Variables (config : BridgeConfig) (claude : Claude.Spawn → Claude.StreamRun).

Lemma handleStream_unfold (prompt : string) (opts : Claude.ClaudeArgs)
    (model convKey : string) (startedAt : Z) (st : State) :
  handleStream config claude prompt opts model convKey startedAt st =
    let completionId := "chatcmpl-" +:+ Js.ofNumber startedAt in
    let run := claude (Claude.callClaudeStream config prompt opts) in
    match consume completionId model convKey false (Claude.yielded run)
            (writeHead 200 sseHeaders st) with
    | Return st' => st'
    | Continue _ st' =>
        match Claude.rejected run with
        | None =>
            endResponse
              (write (Translate.formatSSEDone completionId model
                        (Claude.closedAt run))
                 (setSessions
                    (SessionTracker.touch (Claude.closedAt run) convKey
                       (sessions st')) st'))
        | Some error =>
            let outcome := handleError error (Some convKey) (sessions st') in
            if negb (writableEnded (res st')) then
              endResponse
                (write [SseDone]
                   (write [SseData (JObj [("error", errorJson outcome.1.2)])]
                      (setSessions outcome.2 st')))
            else setSessions outcome.2 st'
        end
    end.
Proof.
  unfold handleStream. cbv zeta.
  destruct (consume _ _ _ _ _ _) as [inside st'|st']; [|done].
  destruct (Claude.rejected _) as [error|]; [|done].
  by destruct (handleError error (Some convKey) (sessions st')) as [[status body] tr].
Qed.

End HandlerShape.

Section ReasoningBlocks.

Import Server.
Local Open Scope list_scope.

Variable config : BridgeConfig.

(** A reasoning block that follows events opening none can be cut out of
    the run, with all it holds, without any change to what the handler
    does. *)
Lemma handleStream_skips_block
    (before inside after : list (Z * Claude.StreamEvent))
    (opening closing : Z * Claude.StreamEvent) (closedAt : Z)
    (rejected : option Js.Error) (prompt : string) (opts : Claude.ClaudeArgs)
    (model convKey : string) (startedAt : Z) (st : State) :
  Forall (λ timed, ¬ opensThinking timed) before →
  opensThinking opening →
  Forall (λ timed, notResult timed ∧ ¬ isBlockStop timed) inside →
  closesBlock closing →
  handleStream config
    (runOf (before ++ opening :: inside ++ closing :: after) closedAt rejected)
    prompt opts model convKey startedAt st
  = handleStream config (runOf (before ++ after) closedAt rejected)
      prompt opts model convKey startedAt st.
Proof.
  intros Hbefore Hopen Hinside Hclose.
  rewrite !handleStream_unfold. cbv zeta.
  cbn [runOf Claude.yielded Claude.closedAt Claude.rejected].
  rewrite (consume_outside ("chatcmpl-" +:+ Js.ofNumber startedAt) model convKey
             before (opening :: inside ++ closing :: after) after
             (writeHead 200 sseHeaders st) Hbefore); [reflexivity|].
  intros st'. by apply consume_block.
Qed.

(** So can an event tagged as reasoning that marks no block boundary,
    wherever it stands. *)
Lemma handleStream_skips_tagged
    (before after : list (Z * Claude.StreamEvent))
    (tagged : Z * Claude.StreamEvent) (closedAt : Z)
    (rejected : option Js.Error) (prompt : string) (opts : Claude.ClaudeArgs)
    (model convKey : string) (startedAt : Z) (st : State) :
  notResult tagged → ¬ opensThinking tagged → ¬ isBlockStop tagged →
  reasoningTagged tagged →
  handleStream config (runOf (before ++ tagged :: after) closedAt rejected)
    prompt opts model convKey startedAt st
  = handleStream config (runOf (before ++ after) closedAt rejected)
      prompt opts model convKey startedAt st.
Proof.
  intros Hres Hopen Hstop Htag.
  rewrite !handleStream_unfold. cbv zeta.
  cbn [runOf Claude.yielded Claude.closedAt Claude.rejected].
  by rewrite (consume_tagged ("chatcmpl-" +:+ Js.ofNumber startedAt) model
                convKey before after tagged false
                (writeHead 200 sseHeaders st) Hres Hopen Hstop Htag).
Qed.

End ReasoningBlocks.

Section HandleStream.

Import Server.
Local Open Scope list_scope.

Variables (config : BridgeConfig) (claude : Claude.Spawn → Claude.StreamRun).

(** C1.  On the synthetic sequence block-start(thinking), thinking delta,
    block-stop, text delta "X", result, the handler writes one text frame
    carrying "X" and then the terminal frame, and nothing else.  In general,
    while the thinking block is open no event other than the result event
    changes the response or the state, and a stream event whose delta is
    tagged as a thinking delta never does, open block or not.  For whole
    runs: a reasoning block, from the event of the stream that opens it to
    the first one that closes it, leaves no trace whatever stands between
    the two, text deltas included, as long as no result event does: the
    handler ends in the very state it reaches on the run without the
    block.  The same holds for an event tagged as reasoning that marks no
    block boundary, wherever it stands in the run. *)
Theorem handleStream_filters_reasoning :
  (∀ prompt opts model convKey startedAt tr thought t1 t2 t3 t4 t5,
      Claude.yielded (claude (Claude.callClaudeStream config prompt opts))
      = syntheticEvents thought t1 t2 t3 t4 t5 →
      let id := "chatcmpl-" +:+ Js.ofNumber startedAt in
      let out :=
        written (res (handleStream config claude prompt opts model convKey
                        startedAt (request tr))) in
      out = Translate.formatSSEChunk id "X" model t4
            ++ Translate.formatSSEDone id model t5 ∧
      count (carries "X") out = 1%nat ∧
      count carriesText out = 1%nat ∧
      count isDone out = 1%nat ∧
      count isErrorFrame out = 0%nat) ∧
  (∀ id model convKey now ev st,
      Claude.ev_type ev ≠ "result" →
      ∃ inside', onEvent id model convKey true now ev st = Continue inside' st) ∧
  (∀ id model convKey inside now ev inner st,
      Claude.ev_type ev ≠ "result" →
      Claude.event ev = Some inner →
      Claude.delta inner ≫= Claude.d_type = Some "thinking_delta" →
      ∃ inside', onEvent id model convKey inside now ev st = Continue inside' st) ∧
  (∀ before opening inside closing after closedAt rejected prompt opts model
     convKey startedAt st,
      Forall (λ timed, ¬ opensThinking timed) before →
      opensThinking opening →
      Forall (λ timed, notResult timed ∧ ¬ isBlockStop timed) inside →
      closesBlock closing →
      handleStream config
        (runOf (before ++ opening :: inside ++ closing :: after)
           closedAt rejected)
        prompt opts model convKey startedAt st
      = handleStream config (runOf (before ++ after) closedAt rejected)
          prompt opts model convKey startedAt st) ∧
  (∀ before tagged after closedAt rejected prompt opts model convKey
     startedAt st,
      notResult tagged → ¬ opensThinking tagged → ¬ isBlockStop tagged →
      reasoningTagged tagged →
      handleStream config (runOf (before ++ tagged :: after) closedAt rejected)
        prompt opts model convKey startedAt st
      = handleStream config (runOf (before ++ after) closedAt rejected)
          prompt opts model convKey startedAt st).
Proof.
  split; [|split; [|split; [|split]]].
  - intros prompt opts model convKey startedAt tr thought t1 t2 t3 t4 t5 Hrun.
    cbv zeta.
    assert (Hout :
      written (res (handleStream config claude prompt opts model convKey
                      startedAt (request tr)))
      = Translate.formatSSEChunk ("chatcmpl-" +:+ Js.ofNumber startedAt)
          "X" model t4
        ++ Translate.formatSSEDone ("chatcmpl-" +:+ Js.ofNumber startedAt)
             model t5).
    { rewrite handleStream_unfold. cbv zeta. rewrite Hrun. reflexivity. }
    rewrite Hout. repeat split; reflexivity.
  - intros id model convKey now ev st Hev.
    destruct (onEvent_frames id model convKey true now ev st Hev)
      as (inside' & frames & Hstep & _ & Hopen & _).
    exists inside'. by rewrite Hstep, Hopen, write_nil.
  - intros id model convKey inside now ev inner st Hev Hinner Hthinking.
    destruct (onEvent_frames id model convKey inside now ev st Hev)
      as (inside' & frames & Hstep & _ & _ & Htag).
    exists inside'. by rewrite Hstep, (Htag inner Hinner Hthinking), write_nil.
  - intros before opening inside closing after closedAt rejected prompt opts
      model convKey startedAt st. apply handleStream_skips_block.
  - intros before tagged after closedAt rejected prompt opts model convKey
      startedAt st. apply handleStream_skips_tagged.
Qed.

Lemma handleStream_on_result (prompt : string) (opts : Claude.ClaudeArgs)
    (model convKey : string) (startedAt : Z) (tr : SessionTracker.t)
    (before after : list (Z * Claude.StreamEvent)) (now : Z)
    (ev : Claude.StreamEvent) :
  Claude.yielded (claude (Claude.callClaudeStream config prompt opts))
  = before ++ (now, ev) :: after →
  Forall notResult before → Claude.ev_type ev = "result" →
  ∃ frames,
    Forall (textFrame ("chatcmpl-" +:+ Js.ofNumber startedAt) model) frames ∧
    written (res (handleStream config claude prompt opts model convKey
                    startedAt (request tr)))
    = frames ++ Translate.formatSSEDone ("chatcmpl-" +:+ Js.ofNumber startedAt)
                  model now ∧
    sessions (handleStream config claude prompt opts model convKey
                startedAt (request tr))
    = SessionTracker.touch now convKey tr ∧
    writableEnded (res (handleStream config claude prompt opts model convKey
                          startedAt (request tr))) = true.
Proof.
  intros Hrun Hbefore Hev.
  destruct (consume_result ("chatcmpl-" +:+ Js.ofNumber startedAt) model convKey
              before after now ev false
              (writeHead 200 sseHeaders (request tr)) Hbefore Hev)
    as (frames & Hloop & Htext).
  exists frames. split; [done|].
  rewrite handleStream_unfold. cbv zeta. rewrite Hrun, Hloop.
  destruct (onResult_effect ("chatcmpl-" +:+ Js.ofNumber startedAt) model
              convKey now ev
              (write frames (writeHead 200 sseHeaders (request tr))))
    as (-> & -> & _ & ->). done.
Qed.

Lemma handleStream_on_close (prompt : string) (opts : Claude.ClaudeArgs)
    (model convKey : string) (startedAt : Z) (tr : SessionTracker.t) :
  Forall notResult
    (Claude.yielded (claude (Claude.callClaudeStream config prompt opts))) →
  Claude.rejected (claude (Claude.callClaudeStream config prompt opts)) = None →
  ∃ frames,
    Forall (textFrame ("chatcmpl-" +:+ Js.ofNumber startedAt) model) frames ∧
    written (res (handleStream config claude prompt opts model convKey
                    startedAt (request tr)))
    = frames ++ Translate.formatSSEDone ("chatcmpl-" +:+ Js.ofNumber startedAt)
                  model
                  (Claude.closedAt
                     (claude (Claude.callClaudeStream config prompt opts))) ∧
    sessions (handleStream config claude prompt opts model convKey
                startedAt (request tr))
    = SessionTracker.touch
        (Claude.closedAt (claude (Claude.callClaudeStream config prompt opts)))
        convKey tr ∧
    writableEnded (res (handleStream config claude prompt opts model convKey
                          startedAt (request tr))) = true.
Proof.
  intros Hall Hok.
  destruct (consume_no_result ("chatcmpl-" +:+ Js.ofNumber startedAt) model
              convKey _ false (writeHead 200 sseHeaders (request tr)) Hall)
    as (inside' & frames & Hloop & Htext).
  exists frames. split; [done|].
  rewrite handleStream_unfold. cbv zeta. by rewrite Hloop, Hok.
Qed.

Lemma handleStream_on_failure (prompt : string) (opts : Claude.ClaudeArgs)
    (model convKey : string) (startedAt : Z) (tr : SessionTracker.t)
    (error : Js.Error) :
  Forall notResult
    (Claude.yielded (claude (Claude.callClaudeStream config prompt opts))) →
  Claude.rejected (claude (Claude.callClaudeStream config prompt opts))
  = Some error →
  ∃ frames,
    Forall (textFrame ("chatcmpl-" +:+ Js.ofNumber startedAt) model) frames ∧
    written (res (handleStream config claude prompt opts model convKey
                    startedAt (request tr)))
    = frames
      ++ [SseData (JObj [("error",
            errorJson (handleError error (Some convKey) tr).1.2)]);
          SseDone] ∧
    count isErrorFrame
      (written (res (handleStream config claude prompt opts model convKey
                       startedAt (request tr)))) = 1%nat ∧
    sessions (handleStream config claude prompt opts model convKey
                startedAt (request tr))
    = (handleError error (Some convKey) tr).2 ∧
    writableEnded (res (handleStream config claude prompt opts model convKey
                          startedAt (request tr))) = true.
Proof.
  intros Hall Hfail.
  destruct (consume_no_result ("chatcmpl-" +:+ Js.ofNumber startedAt) model
              convKey _ false (writeHead 200 sseHeaders (request tr)) Hall)
    as (inside' & frames & Hloop & Htext).
  exists frames. split; [done|].
  rewrite handleStream_unfold. cbv zeta. rewrite Hloop, Hfail.
  change (sessions (write frames (writeHead 200 sseHeaders (request tr))))
    with tr.
  change (negb (writableEnded
                  (res (write frames (writeHead 200 sseHeaders (request tr))))))
    with true.
  cbv iota.
  set (body := errorJson (handleError error (Some convKey) tr).1.2).
  change (written (res (endResponse (write [SseDone]
            (write [SseData (JObj [("error", body)])]
               (setSessions (handleError error (Some convKey) tr).2
                  (write frames (writeHead 200 sseHeaders (request tr)))))))))
    with ((([] ++ frames) ++ [SseData (JObj [("error", body)])]) ++ [SseDone]).
  cbn [app]. rewrite <- app_assoc. cbn [app].
  split; [done|]. split; [|done].
  rewrite count_app.
  rewrite (count_text_frames ("chatcmpl-" +:+ Js.ofNumber startedAt) model
             isErrorFrame frames); [done| |done].
  intros f Hf. eapply textFrame_not_error. exact Hf.
Qed.

(** Once the child has started, whatever it does, the handler leaves the
    response ended and its frames end with the terminal marker.  When the
    events reach a
    result event, the session is touched and the terminal frame follows the
    text frames; when the events end without one and the process succeeds,
    the same happens at the close; when the process fails, one error frame
    and the terminal marker follow the text frames. *)
Lemma handleStream_always_terminates (prompt : string)
    (opts : Claude.ClaudeArgs) (model convKey : string) (startedAt : Z)
    (tr : SessionTracker.t) :
  let id := "chatcmpl-" +:+ Js.ofNumber startedAt in
  let run := claude (Claude.callClaudeStream config prompt opts) in
  let final :=
    handleStream config claude prompt opts model convKey startedAt (request tr) in
  (writableEnded (res final) = true ∧ endsWithDone (written (res final))) ∧
  (∀ before now ev after,
      Claude.yielded run = before ++ (now, ev) :: after →
      Forall notResult before → Claude.ev_type ev = "result" →
      ∃ frames,
        Forall (textFrame id model) frames ∧
        written (res final) = frames ++ Translate.formatSSEDone id model now ∧
        sessions final = SessionTracker.touch now convKey tr ∧
        writableEnded (res final) = true) ∧
  (Forall notResult (Claude.yielded run) → Claude.rejected run = None →
      ∃ frames,
        Forall (textFrame id model) frames ∧
        written (res final)
        = frames ++ Translate.formatSSEDone id model (Claude.closedAt run) ∧
        sessions final = SessionTracker.touch (Claude.closedAt run) convKey tr ∧
        writableEnded (res final) = true) ∧
  (∀ error,
      Forall notResult (Claude.yielded run) →
      Claude.rejected run = Some error →
      ∃ frames,
        Forall (textFrame id model) frames ∧
        written (res final)
        = frames
          ++ [SseData (JObj [("error",
                errorJson (handleError error (Some convKey) tr).1.2)]);
              SseDone] ∧
        count isErrorFrame (written (res final)) = 1%nat ∧
        sessions final = (handleError error (Some convKey) tr).2 ∧
        writableEnded (res final) = true).
Proof.
  cbv zeta.
  split; [|split; [|split]].
  - destruct (events_split
                (Claude.yielded
                   (claude (Claude.callClaudeStream config prompt opts))))
      as [Hall | (before & now & ev & after & Hrun & Hbefore & Hev)].
    + destruct (Claude.rejected
                  (claude (Claude.callClaudeStream config prompt opts)))
        as [error|] eqn:Hrej.
      * destruct (handleStream_on_failure prompt opts model convKey startedAt
                    tr error Hall Hrej) as (frames & _ & Hw & _ & _ & He).
        split; [done|]. rewrite Hw.
        exists (frames ++ [SseData (JObj [("error",
                  errorJson (handleError error (Some convKey) tr).1.2)])]).
        by rewrite <- app_assoc.
      * destruct (handleStream_on_close prompt opts model convKey startedAt
                    tr Hall Hrej) as (frames & _ & Hw & _ & He).
        split; [done|]. rewrite Hw. unfold Translate.formatSSEDone.
        eexists (frames ++ [_]). by rewrite <- app_assoc.
    + destruct (handleStream_on_result prompt opts model convKey startedAt tr
                  before after now ev Hrun Hbefore Hev)
        as (frames & _ & Hw & _ & He).
      split; [done|]. rewrite Hw. unfold Translate.formatSSEDone.
      eexists (frames ++ [_]). by rewrite <- app_assoc.
  - intros before now ev after. apply handleStream_on_result.
  - apply handleStream_on_close.
  - intros error. apply handleStream_on_failure.
Qed.

End HandleStream.

Lemma handleStream_filters_reasoning_witness :
  Server.written
    (Server.res
       (Server.handleStream sampleConfig (λ _, sampleResultRun) "hi"
          (sampleArgs false true) "claude-opus" "conv-a" 1000
          (request sampleTracker)))
  = (Translate.formatSSEChunk "chatcmpl-1000" "X" "claude-opus" 1040
     ++ Translate.formatSSEDone "chatcmpl-1000" "claude-opus" 1050)%list ∧
  (∃ inside',
      Server.onEvent "chatcmpl-1000" "claude-opus" "conv-a" true 1020
        (textDelta "leak") (request sampleTracker)
      = Server.Continue inside' (request sampleTracker)) ∧
  (∃ inside',
      Server.onEvent "chatcmpl-1000" "claude-opus" "conv-a" false 1020
        (reasoningDelta "stray") (request sampleTracker)
      = Server.Continue inside' (request sampleTracker)) ∧
  Server.handleStream sampleConfig
    (runOf ([(1005, textDelta "A")]
            ++ (1010, blockStart "thinking")
               :: [(1020, textDelta "secret")]
               ++ (1030, blockStop)
                  :: [(1040, textDelta "X"); (1050, resultEvent)])%list
       1060 None)
    "hi" (sampleArgs false true) "claude-opus" "conv-a" 1000
    (request sampleTracker)
  = Server.handleStream sampleConfig
      (runOf ([(1005, textDelta "A")]
              ++ [(1040, textDelta "X"); (1050, resultEvent)])%list 1060 None)
      "hi" (sampleArgs false true) "claude-opus" "conv-a" 1000
      (request sampleTracker) ∧
  Server.handleStream sampleConfig
    (runOf ([(1005, textDelta "A")]
            ++ (1020, reasoningDelta "stray") :: [(1040, textDelta "X")])%list
       1060 None)
    "hi" (sampleArgs false true) "claude-opus" "conv-a" 1000
    (request sampleTracker)
  = Server.handleStream sampleConfig
      (runOf ([(1005, textDelta "A")] ++ [(1040, textDelta "X")])%list
         1060 None)
      "hi" (sampleArgs false true) "claude-opus" "conv-a" 1000
      (request sampleTracker).
Proof.
  destruct (handleStream_filters_reasoning sampleConfig (λ _, sampleResultRun))
    as (Hsynthetic & Hopen & Htagged & Hblock & Hstray).
  split; [|split; [|split; [|split]]].
  - destruct (Hsynthetic "hi" (sampleArgs false true) "claude-opus" "conv-a"
                1000 sampleTracker "let me think" 1010 1020 1030 1040 1050
                eq_refl) as (Hout & _).
    exact Hout.
  - apply Hopen. discriminate.
  - eapply Htagged; [discriminate | reflexivity | reflexivity].
  - apply Hblock.
    + repeat constructor.
      intros (_ & inner & [= <-] & Hkind & _). discriminate Hkind.
    + split; [reflexivity|]. eexists. repeat split; reflexivity.
    + repeat constructor; [discriminate|].
      intros (inner & [= <-] & Hkind). discriminate Hkind.
    + split; [reflexivity|]. eexists. split; reflexivity.
  - apply Hstray.
    + discriminate.
    + intros (_ & inner & [= <-] & Hkind & _). discriminate Hkind.
    + intros (inner & [= <-] & Hkind). discriminate Hkind.
    + eexists. split; reflexivity.
Defined.

Lemma handleStream_always_terminates_witness :
  (∃ frames,
      Server.written
        (Server.res
           (Server.handleStream sampleConfig (λ _, sampleResultRun) "hi"
              (sampleArgs false true) "claude-opus" "conv-a" 1000
              (request sampleTracker)))
      = (frames
         ++ Translate.formatSSEDone "chatcmpl-1000" "claude-opus" 1050)%list) ∧
  (∃ frames,
      Server.written
        (Server.res
           (Server.handleStream sampleConfig (λ _, sampleClosedRun) "hi"
              (sampleArgs false true) "claude-opus" "conv-a" 1000
              (request sampleTracker)))
      = (frames
         ++ Translate.formatSSEDone "chatcmpl-1000" "claude-opus" 1030)%list) ∧
  (∃ frames,
      Server.written
        (Server.res
           (Server.handleStream sampleConfig (λ _, sampleFailedRun) "hi"
              (sampleArgs false true) "claude-opus" "conv-a" 1000
              (request sampleTracker)))
      = (frames
         ++ [SseData (JObj [("error", Server.errorJson Server.rateLimited)]);
             SseDone])%list).
Proof.
  split; [|split].
  - destruct (handleStream_always_terminates sampleConfig (λ _, sampleResultRun)
                "hi" (sampleArgs false true) "claude-opus" "conv-a" 1000
                sampleTracker) as (_ & Hresult & _).
    destruct (Hresult
                [(1010, blockStart "thinking");
                 (1020, reasoningDelta "let me think");
                 (1030, blockStop); (1040, textDelta "X")]
                1050 resultEvent [] eq_refl) as (frames & _ & Hout & _).
    + repeat constructor; discriminate.
    + reflexivity.
    + exists frames. exact Hout.
  - destruct (handleStream_always_terminates sampleConfig (λ _, sampleClosedRun)
                "hi" (sampleArgs false true) "claude-opus" "conv-a" 1000
                sampleTracker) as (_ & _ & Hclosed & _).
    destruct Hclosed as (frames & _ & Hout & _).
    + repeat constructor; discriminate.
    + reflexivity.
    + exists frames. exact Hout.
  - destruct (handleStream_always_terminates sampleConfig (λ _, sampleFailedRun)
                "hi" (sampleArgs false true) "claude-opus" "conv-a" 1000
                sampleTracker) as (_ & _ & _ & Hfailed).
    destruct (Hfailed (Js.newError "quota exceeded"))
      as (frames & _ & Hout & _).
    + repeat constructor; discriminate.
    + reflexivity.
    + exists frames. exact Hout.
Defined.

(** ** Server: the child that does not start *)

Section SpawnOutcome.

Import Server.
Local Open Scope list_scope.

Variable config : BridgeConfig.

Lemma endsWithDone_nil : ¬ endsWithDone [].
Proof. intros (before & Heq). by destruct before. Qed.

(** C8.  The stream is closed with the terminal marker whenever the child
    process starts, whatever it does then.  A child that does not start
    leaves the request unanswered: its error is thrown where nothing
    catches it, so the handler writes no frame at all, neither an error
    frame nor the terminal marker, never ends the response and leaves the
    tracker as it was, and the exception ends the server. *)
Theorem handleStream_spawn_error_unanswered
    (child : Claude.Spawn → Claude.Child) (prompt : string)
    (opts : Claude.ClaudeArgs) (model convKey : string) (startedAt : Z)
    (tr : SessionTracker.t) :
  match child (Claude.callClaudeStream config prompt opts) with
  | Claude.Started run =>
      ∃ final,
        handleStreamOn config child prompt opts model convKey startedAt
          (request tr) = Settled final ∧
        final = handleStream config (λ _, run) prompt opts model convKey
                  startedAt (request tr) ∧
        writableEnded (res final) = true ∧
        endsWithDone (written (res final))
  | Claude.Errored error =>
      ∃ left,
        handleStreamOn config child prompt opts model convKey startedAt
          (request tr) = Uncaught error left ∧
        written (res left) = [] ∧
        count isErrorFrame (written (res left)) = 0%nat ∧
        count isDone (written (res left)) = 0%nat ∧
        ¬ endsWithDone (written (res left)) ∧
        writableEnded (res left) = false ∧
        sessions left = tr
  end.
Proof.
  unfold handleStreamOn.
  destruct (child (Claude.callClaudeStream config prompt opts)) as [run|error].
  - eexists. split; [reflexivity|]. split; [reflexivity|].
    apply (handleStream_always_terminates config (λ _, run) prompt opts model
             convKey startedAt tr).
  - eexists. split; [reflexivity|].
    repeat split; try reflexivity. apply endsWithDone_nil.
Qed.

End SpawnOutcome.

Lemma handleStream_spawn_error_unanswered_witness :
  ∃ left,
    Server.handleStreamOn sampleConfig sampleNoChild "hi"
      (sampleArgs false true) "claude-opus" "conv-a" 1000
      (request sampleTracker)
    = Server.Uncaught (Js.newError "spawn claude ENOENT") left ∧
    Server.written (Server.res left) = [] ∧
    count isErrorFrame (Server.written (Server.res left)) = 0%nat ∧
    count isDone (Server.written (Server.res left)) = 0%nat ∧
    ¬ endsWithDone (Server.written (Server.res left)) ∧
    Server.writableEnded (Server.res left) = false ∧
    Server.sessions left = sampleTracker.
Proof.
  exact (handleStream_spawn_error_unanswered sampleConfig sampleNoChild "hi"
           (sampleArgs false true) "claude-opus" "conv-a" 1000 sampleTracker).
Defined.

(** * Further properties of the code *)

(** ** SessionTracker: creation, touch and sweep *)

Section Registry.

Import SessionTracker.

Lemma tracker_eq (a b : t) :
  sessions a = sessions b → ttlMs a = ttlMs b → a = b.
Proof. destruct a, b. cbn. by intros -> ->. Qed.

Lemma get_keeps_ttl (tr : t) (now : Z) (key : string) :
  ttlMs (get now key tr).2 = ttlMs tr.
Proof.
  unfold get. destruct (sessions tr !! key) as [s|]; [|done].
  by destruct (now - lastUsedAt s >? ttlMs tr).
Qed.

Lemma get_result (tr : t) (now : Z) (key : string) :
  get now key tr
  = match sessions tr !! key with
    | Some s => if decide (now - lastUsedAt s <= ttlMs tr)
                then (Some s, tr) else (None, delete key tr)
    | None => (None, tr)
    end.
Proof.
  destruct (sessions tr !! key) as [s|] eqn:Hs; [|by apply get_absent].
  destruct (decide (now - lastUsedAt s <= ttlMs tr)); cbn.
  - by apply get_fresh.
  - eapply get_stale; [done | lia].
Qed.

(** X1.  A session created under a key is what a lookup of that key
    returns until the TTL has elapsed: zero turns, zero messages, the
    generated identifier.  Creation replaces whatever was stored under the
    key and leaves every other key alone. *)
Theorem create_get_round_trip (tr : t) (uuid key : string) (created now : Z) :
  now - created <= ttlMs tr →
  get now key (create uuid created key tr).2
  = (Some {| claudeSessionId := uuid; turnCount := 0;
             lastUsedAt := created; messageCount := 0 |},
     (create uuid created key tr).2) ∧
  (create uuid created key tr).1
  = {| claudeSessionId := uuid; turnCount := 0;
       lastUsedAt := created; messageCount := 0 |} ∧
  (∀ other, other ≠ key →
      sessions (create uuid created key tr).2 !! other = sessions tr !! other).
Proof.
  intros Hage. split; [|split; [done|]].
  - eapply get_fresh; [apply lookup_insert_eq | done].
  - intros other Hne. cbn. by rewrite lookup_insert_ne.
Qed.

Lemma create_get_round_trip_witness :
  get 1400 "conv-a" (create "f00d" 1200 "conv-a" sampleTracker).2
  = (Some {| claudeSessionId := "f00d"; turnCount := 0;
             lastUsedAt := 1200; messageCount := 0 |},
     (create "f00d" 1200 "conv-a" sampleTracker).2).
Proof.
  apply (create_get_round_trip sampleTracker "f00d" "conv-a" 1200 1400).
  vm_compute. discriminate.
Defined.

(** X2.  [touch] adds one to both counters of the stored session, keeps its
    identifier and stamps it with the current time, without looking at its
    age: a session past the TTL that has not been removed yet is live again
    afterwards.  Other keys are untouched, the number of entries stays, and
    on an absent key nothing changes. *)
Theorem touch_counts_and_revives (tr : t) (now : Z) (key : string) :
  (∀ s, sessions tr !! key = Some s →
        sessions (touch now key tr) !! key
        = Some {| claudeSessionId := claudeSessionId s;
                  turnCount := turnCount s + 1;
                  lastUsedAt := now;
                  messageCount := messageCount s + 1 |} ∧
        ∀ later, later - now <= ttlMs tr →
                 (get later key (touch now key tr)).1
                 = Some {| claudeSessionId := claudeSessionId s;
                           turnCount := turnCount s + 1;
                           lastUsedAt := now;
                           messageCount := messageCount s + 1 |}) ∧
  (sessions tr !! key = None → touch now key tr = tr) ∧
  (∀ other, other ≠ key →
      sessions (touch now key tr) !! other = sessions tr !! other) ∧
  size (touch now key tr) = size tr.
Proof.
  split; [|split; [|split]].
  - intros s Hs.
    assert (Hlook : sessions (touch now key tr) !! key = Some (touched now s))
      by (by rewrite touch_lookup, Hs).
    split; [done|]. intros later Hage.
    by rewrite (get_fresh _ later key (touched now s)).
  - intros Hs. apply tracker_eq; [by apply touch_absent | done].
  - intros other Hne. cbn. by rewrite lookup_alter_ne.
  - unfold size, touch. cbn.
    rewrite <- !size_dom. by rewrite dom_alter_L.
Qed.

Lemma touch_counts_and_revives_witness :
  (get 9000 "conv-a" sampleTracker).1 = None ∧
  (get 9400 "conv-a" (touch 9000 "conv-a" sampleTracker)).1
  = Some {| claudeSessionId := "b7c1"; turnCount := 1;
            lastUsedAt := 9000; messageCount := 1 |} ∧
  touch 9000 "conv-b" sampleTracker = sampleTracker.
Proof.
  destruct (touch_counts_and_revives sampleTracker 9000 "conv-a")
    as (Hstored & _).
  destruct (touch_counts_and_revives sampleTracker 9000 "conv-b")
    as (_ & Habsent & _).
  split; [vm_compute; reflexivity|]. split.
  - destruct (Hstored sampleSession) as [_ Hlive];
      [vm_compute; reflexivity|].
    apply Hlive. vm_compute. discriminate.
  - apply Habsent. vm_compute. reflexivity.
Defined.

Lemma cleanup_get (tr : t) (now : Z) (key : string) :
  (get now key tr).1 = sessions (cleanup now tr) !! key.
Proof.
  apply option_eq. intros s. rewrite cleanup_lookup. split.
  - apply get_returns_live.
  - intros [Hs Hage]. by rewrite (get_fresh tr now key s).
Qed.

Lemma cleanup_idempotent (tr : t) (now : Z) :
  cleanup now (cleanup now tr) = cleanup now tr.
Proof.
  apply tracker_eq; [|done]. apply map_eq. intros key.
  apply option_eq. intros s.
  rewrite (cleanup_lookup (cleanup now tr)), !cleanup_lookup. cbn. tauto.
Qed.

(** X3.  The lazy expiry of [get] and the periodic sweep agree: at any
    time, what [get] answers for a key is what the swept registry holds
    under it.  The sweep keeps exactly the entries not older than the TTL,
    sweeping twice is sweeping once, and after a sweep a lookup at the same
    time removes nothing. *)
Theorem cleanup_agrees_with_get (tr : t) (now : Z) :
  (∀ key, (get now key tr).1 = sessions (cleanup now tr) !! key) ∧
  (∀ key s, sessions (cleanup now tr) !! key = Some s ↔
            sessions tr !! key = Some s ∧ now - lastUsedAt s <= ttlMs tr) ∧
  cleanup now (cleanup now tr) = cleanup now tr ∧
  (∀ key, get now key (cleanup now tr)
          = (sessions (cleanup now tr) !! key, cleanup now tr)).
Proof.
  split; [intros key; apply cleanup_get|].
  split; [intros key s; apply cleanup_lookup|].
  split; [apply cleanup_idempotent|].
  intros key. rewrite get_result.
  destruct (sessions (cleanup now tr) !! key) as [s|] eqn:Hs; [|done].
  apply cleanup_lookup in Hs as [_ Hage].
  change (ttlMs (cleanup now tr)) with (ttlMs tr).
  by rewrite decide_True.
Qed.

(** X4.  The size of the tracker counts every stored entry, stale ones
    included: it is never below the size after a sweep, and it is strictly
    above it as soon as one stored session is past the TTL. *)
Theorem size_counts_stale (tr : t) (now : Z) :
  (size (cleanup now tr) <= size tr)%nat ∧
  ((∃ key s, sessions tr !! key = Some s ∧ now - lastUsedAt s > ttlMs tr) →
   (size (cleanup now tr) < size tr)%nat).
Proof.
  unfold size, cleanup. cbn. split.
  - apply map_subseteq_size, map_filter_subseteq.
  - intros (key & s & Hs & Hage). apply map_subset_size. split.
    + apply map_filter_subseteq.
    + intros Hsub. rewrite map_subseteq_spec in Hsub.
      specialize (Hsub key s Hs).
      apply map_lookup_filter_Some in Hsub as [_ Hkeep]. cbn in Hkeep. lia.
Qed.

Lemma size_counts_stale_witness :
  (size (cleanup 9000 sampleTracker) < size sampleTracker)%nat.
Proof.
  destruct (size_counts_stale sampleTracker 9000) as [_ Hstrict].
  apply Hstrict. exists "conv-a", sampleSession.
  split; [vm_compute; reflexivity | vm_compute; reflexivity].
Defined.

(** X5.  A lookup only ever affects the key it is asked for, and only by
    removing it; asking again at the same time changes nothing more and
    gives the same answer.  Liveness does not come back with time: a
    session that a lookup returns at some time is returned, with the
    registry unchanged, by a lookup at any earlier time. *)
Theorem get_is_local_and_stable (tr : t) (now : Z) (key : string) :
  (∀ other, other ≠ key →
      sessions (get now key tr).2 !! other = sessions tr !! other) ∧
  sessions (get now key tr).2 ⊆ sessions tr ∧
  get now key (get now key tr).2 = get now key tr ∧
  (∀ s earlier, (get now key tr).1 = Some s → earlier <= now →
      get earlier key tr = (Some s, tr)).
Proof.
  rewrite get_result.
  destruct (sessions tr !! key) as [s|] eqn:Hs.
  - destruct (decide (now - lastUsedAt s <= ttlMs tr)) as [Hage|Hage]; cbn.
    + split; [done|]. split; [done|]. split.
      * by apply get_fresh.
      * intros s' earlier [= <-] Hle. apply get_fresh; [done | lia].
    + split; [intros other Hne; by apply lookup_delete_ne|].
      split; [apply delete_subseteq|].
      split; [apply get_after_delete | done].
  - cbn. split; [done|]. split; [done|]. split; [by apply get_absent | done].
Qed.

Lemma get_is_local_and_stable_witness :
  sessions (get 9000 "conv-b" sampleTracker).2 !! "conv-a"
  = sessions sampleTracker !! "conv-a" ∧
  get 1100 "conv-a" sampleTracker = (Some sampleSession, sampleTracker).
Proof.
  destruct (get_is_local_and_stable sampleTracker 9000 "conv-b")
    as (Hlocal & _).
  destruct (get_is_local_and_stable sampleTracker 1400 "conv-a")
    as (_ & _ & _ & Hearlier).
  split; [apply Hlocal; discriminate|].
  apply Hearlier; [vm_compute; reflexivity | vm_compute; discriminate].
Defined.

End Registry.

(** ** SessionTracker: the shape and the collisions of the key *)

Section KeyShape.

Import SessionTracker.

Lemma toInt32_range (x : Z) : -2147483648 <= Js.toInt32 x < 2147483648.
Proof.
  unfold Js.toInt32.
  pose proof (Z.mod_pos_bound (x + 2147483648) 4294967296 eq_refl). lia.
Qed.

Lemma hashFrom_range (hash : Z) (s : string) :
  -2147483648 <= hash < 2147483648 →
  -2147483648 <= hashFrom hash s < 2147483648.
Proof.
  revert hash. induction s as [|c s IH]; intros hash Hrange; [done|].
  cbn [hashFrom]. apply IH, toInt32_range.
Qed.

Lemma toString36_go_length (fuel : nat) (n : N) (acc : string) (k : nat) :
  (n < 36 ^ N.of_nat (S k))%N →
  (String.length acc + 1 <= String.length (Js.toString36_go (S fuel) n acc)
   <= String.length acc + S k)%nat.
Proof.
  revert n acc k. induction fuel as [|fuel IH]; intros n acc k Hn.
  - cbn [Js.toString36_go]. destruct (n <? 36)%N; cbn; lia.
  - change (Js.toString36_go (S (S fuel)) n acc)
      with (if (n <? 36)%N then String (Js.digit36 (n mod 36)) acc
            else Js.toString36_go (S fuel) (n / 36)
                   (String (Js.digit36 (n mod 36)) acc)).
    destruct (n <? 36)%N eqn:Hsmall; [cbn; lia|].
    apply N.ltb_ge in Hsmall.
    destruct k as [|k].
    { change (36 ^ N.of_nat 1)%N with 36%N in Hn. lia. }
    assert (Hdiv : (n / 36 < 36 ^ N.of_nat (S k))%N).
    { apply N.Div0.div_lt_upper_bound.
      rewrite <- N.pow_succ_r'. by rewrite <- Nat2N.inj_succ. }
    specialize (IH (n / 36)%N (String (Js.digit36 (n mod 36)) acc) k Hdiv).
    cbn [String.length] in IH. lia.
Qed.

Lemma toString36_length (n : N) :
  (n < 36 ^ 6)%N → (1 <= String.length (Js.toString36 n) <= 6)%nat.
Proof.
  intros Hn. unfold Js.toString36.
  pose proof (toString36_go_length (N.size_nat n) n "" 5 Hn) as H.
  cbn [String.length] in H. lia.
Qed.

Lemma string_length_app (a b : string) :
  String.length (a +:+ b) = (String.length a + String.length b)%nat.
Proof.
  induction a as [|c a IH]; [done|]. rewrite append_cons. cbn. by rewrite IH.
Qed.

Lemma substring0_short (n : nat) (s : string) :
  (String.length s <= n)%nat → Js.substring0 n s = s.
Proof.
  revert n. induction s as [|c s IH]; intros n Hlen; [by destruct n|].
  destruct n as [|n]; [cbn in Hlen; lia|].
  cbn [Js.substring0]. rewrite IH; [done | cbn in Hlen; lia].
Qed.

(** X6.  A conversation key is never empty.  Without an identifier, or with
    an empty one, it is "conv-" followed by one to six characters: the
    hash stays a signed 32-bit number at every step, so its absolute value
    has at most six digits in base 36. *)
Theorem makeKey_shape :
  (∀ conversationId messages, makeKey conversationId messages ≠ "") ∧
  (∀ messages, makeKey (Some "") messages = makeKey None messages) ∧
  (∀ messages, ∃ digits,
      makeKey None messages = "conv-" +:+ digits ∧
      (1 <= String.length digits <= 6)%nat) ∧
  (∀ s, -2147483648 <= hashFrom 0 s < 2147483648).
Proof.
  split; [|split; [done|split]].
  - intros [id|] messages; unfold makeKey; [|done].
    destruct (Js.truthy id) eqn:Hid; [|done]. by apply truthy_spec.
  - intros messages. eexists. split; [reflexivity|].
    apply toString36_length.
    pose proof (hashFrom_range 0 (fingerprint messages)) as Hrange.
    change (36 ^ 6)%N with 2176782336%N. lia.
  - intros s. by apply hashFrom_range.
Qed.

(** X7.  The fingerprint does not keep the boundaries of what it joins.  A
    single message whose text goes on with "|", a role, ":" and a second
    text gets the key of the two-message conversation it spells out (all
    within the first 200 characters), and a multipart content gets the key
    of the string made of its text parts joined by spaces. *)
Theorem makeKey_collisions :
  (∀ r1 t1 r2 t2,
      (String.length (t1 +:+ "|" +:+ r2 +:+ ":" +:+ t2) <= 200)%nat →
      makeKey None [textMessage r1 (t1 +:+ "|" +:+ r2 +:+ ":" +:+ t2)]
      = makeKey None [textMessage r1 t1; textMessage r2 t2]) ∧
  (∀ r parts rest,
      makeKey None ({| role := r; content := CParts parts |} :: rest)
      = makeKey None (textMessage r (keyText (CParts parts)) :: rest)).
Proof.
  split; [|done].
  intros r1 t1 r2 t2 Hlen. unfold makeKey. do 4 f_equal.
  unfold fingerprint, keyEntry.
  cbn [take map textMessage role content keyText Js.join].
  rewrite !string_length_app in Hlen. cbn [String.length] in Hlen.
  rewrite !substring0_short
    by (rewrite ?string_length_app; cbn [String.length]; lia).
  by rewrite !append_assoc.
Qed.

Lemma makeKey_collisions_witness :
  makeKey None [textMessage "user" "hello|assistant:hi there"]
  = makeKey None [textMessage "user" "hello";
                  textMessage "assistant" "hi there"].
Proof.
  destruct makeKey_collisions as [Hsplit _].
  apply (Hsplit "user" "hello" "assistant" "hi there").
  apply Nat.leb_le. vm_compute. reflexivity.
Defined.

End KeyShape.

(** ** Translate: content extraction and the first turn on any roles *)

Section Extraction.

Import Translate.

Lemma textOfPart_skipped (p : Part) :
  p_type p ≠ "text" ∨ p_text p = None → textOfPart p = None.
Proof.
  intros [Hkind | Htext]; unfold textOfPart.
  - by rewrite decide_False.
  - by destruct (decide (p_type p = "text")).
Qed.

(** X8.  In a multipart content only the text parts count: a part of
    another kind, or one without a text, can be added or removed anywhere
    without changing the extracted text.  A lone text part gives its text,
    as the same text given as a string does; two text parts are joined by a
    line feed; an empty array gives the empty text. *)
Theorem extractText_keeps_text_parts :
  (∀ before p after,
      p_type p ≠ "text" ∨ p_text p = None →
      extractText (CParts (before ++ p :: after))
      = extractText (CParts (before ++ after))) ∧
  (∀ text, extractText (CParts [textPart text]) = extractText (CString text)) ∧
  (∀ a b, extractText (CParts [textPart a; textPart b]) = a +:+ Js.nl +:+ b) ∧
  extractText (CParts []) = "".
Proof.
  split; [|by repeat split].
  intros before p after Hskip. cbn [extractText].
  rewrite !omap_app.
  change (omap textOfPart (p :: after))
    with (match textOfPart p with
          | Some text => text :: omap textOfPart after
          | None => omap textOfPart after
          end).
  by rewrite textOfPart_skipped.
Qed.

Lemma extractText_keeps_text_parts_witness :
  extractText
    (CParts [textPart "look at this";
             {| p_type := "image_url"; p_text := None |};
             textPart "and tell me"])
  = "look at this" +:+ Js.nl +:+ "and tell me".
Proof.
  destruct extractText_keeps_text_parts as (Hskip & _ & Htwo & _).
  transitivity
    (extractText (CParts [textPart "look at this"; textPart "and tell me"])).
  - apply (Hskip [textPart "look at this"]
                 {| p_type := "image_url"; p_text := None |}
                 [textPart "and tell me"]).
    left. discriminate.
  - apply Htwo.
Defined.

Lemma filter_system_nil (messages : list Message) :
  filter (λ m, role m = "system") messages = [] ↔
  Forall (λ m, role m ≠ "system") messages.
Proof.
  induction messages as [|m ms IH].
  - split; [constructor | done].
  - destruct (decide (role m = "system")) as [Hm|Hm].
    + rewrite filter_cons_True by done. split; [done|].
      intros H. inversion H; subst. done.
    + rewrite filter_cons_False by done. rewrite IH. split.
      * intros H. by constructor.
      * intros H. by inversion H.
Qed.

Lemma renderTurn_other (m : Message) :
  role m ∉ declaredRoles → renderTurn m = extractText (content m).
Proof.
  intros Hr. unfold renderTurn.
  rewrite decide_False
    by (intros Heq; apply Hr, declaredRoles_cases; tauto).
  by rewrite decide_False
    by (intros Heq; apply Hr, declaredRoles_cases; tauto).
Qed.

(** X9.  On messages of any roles the first-turn translation keeps the two
    channels apart: the prompt is decided by the messages that are not
    system messages and the system prompt by those that are.  The system
    prompt is null exactly when no message has the system role (a system
    message with an empty text still gives a non-null, empty prompt), and a
    message whose role is none of the declared ones enters the prompt as
    its bare text, without a label. *)
Theorem translateFirstTurn_channels :
  (∀ messages messages',
      filter (λ m, role m ≠ "system") messages
      = filter (λ m, role m ≠ "system") messages' →
      prompt (translateFirstTurn messages)
      = prompt (translateFirstTurn messages')) ∧
  (∀ messages messages',
      filter (λ m, role m = "system") messages
      = filter (λ m, role m = "system") messages' →
      systemPrompt (translateFirstTurn messages)
      = systemPrompt (translateFirstTurn messages')) ∧
  (∀ messages,
      systemPrompt (translateFirstTurn messages) = None ↔
      Forall (λ m, role m ≠ "system") messages) ∧
  (∀ messages,
      Forall (λ m, role m = "system") messages →
      prompt (translateFirstTurn messages) = "") ∧
  (∀ m, role m ∉ declaredRoles →
      prompt (translateFirstTurn [m]) = extractText (content m)).
Proof.
  split; [|split; [|split; [|split]]].
  - intros messages messages' Heq. unfold translateFirstTurn. cbn [prompt].
    by rewrite Heq.
  - intros messages messages' Heq. unfold translateFirstTurn.
    cbn [systemPrompt]. by rewrite Heq.
  - intros messages. rewrite <- filter_system_nil.
    unfold translateFirstTurn. cbn [systemPrompt].
    by destruct (filter (λ m, role m = "system") messages).
  - intros messages Hall. unfold translateFirstTurn. cbn [prompt].
    replace (filter (λ m, role m ≠ "system") messages) with (@nil Message);
      [done|].
    symmetry. induction Hall as [|m ms Hm _ IH]; [done|].
    by rewrite filter_cons_False by (by intros []).
  - intros m Hm. unfold translateFirstTurn. cbn [prompt].
    rewrite filter_cons_True
      by (intros Heq; apply Hm, declaredRoles_cases; tauto).
    cbn. by apply renderTurn_other.
Qed.

Lemma translateFirstTurn_channels_witness :
  prompt (translateFirstTurn
            [textMessage "system" "be brief"; textMessage "user" "a"])
  = prompt (translateFirstTurn
              [textMessage "user" "a"; textMessage "system" "be rude"]) ∧
  systemPrompt (translateFirstTurn [textMessage "system" ""]) = Some "" ∧
  prompt (translateFirstTurn [textMessage "tool" "42"]) = "42".
Proof.
  destruct translateFirstTurn_channels as (Hprompt & _ & _ & _ & Hother).
  split; [apply Hprompt; reflexivity|].
  split; [reflexivity|].
  apply (Hother (textMessage "tool" "42")).
  intros Hin. apply declaredRoles_cases in Hin.
  destruct Hin as [H | [H | H]]; discriminate H.
Defined.

End Extraction.

(** ** Claude: the two entry points and the system prompt *)

Section EntryPoints.

Import Claude.
Local Open Scope list_scope.

Variable config : BridgeConfig.

Ltac split_options opts :=
  destruct (continueSession opts), (stream opts),
    (systemPrompt opts) as [?text|]; try destruct (Js.truthy text).

Lemma buildArgs_length (opts : ClaudeArgs) :
  length (buildArgs config opts)
  = (11 + (if stream opts then 2 else 0)
     + (match effectivePrompt opts with Some _ => 2 | None => 0 end))%nat.
Proof.
  rewrite buildArgs_layout. unfold effectivePrompt.
  split_options opts; reflexivity.
Qed.

Lemma buildArgs_words (opts : ClaudeArgs) :
  buildArgs config opts
  = leadingWords opts
    ++ (if stream opts
        then ["--output-format"; "stream-json"; "--verbose";
              "--include-partial-messages"]
        else ["--output-format"; "json"])
    ++ trailingWords config opts.
Proof.
  rewrite buildArgs_layout. unfold leadingWords, trailingWords, effectivePrompt.
  split_options opts; reflexivity.
Qed.

(** X10.  The stream flag of the options is overridden by the entry point
    that is called.  The streaming one spawns "claude" with the words
    "--output-format", "stream-json", "--verbose" and
    "--include-partial-messages", in this order, between the leading words
    (print mode, model, session) and the trailing ones (tools, system
    prompt, turn limit); the synchronous one runs the line that joins
    "claude" and the same words with "--output-format", "json" in their
    place and no streaming flag.  Both do so whatever the options say about
    streaming, and both pass the prompt on standard input. *)
Theorem entry_points_fix_output_format (prompt : string) (opts : ClaudeArgs)
    (flag : bool) :
  callClaudeSync config prompt (withStream opts flag)
  = callClaudeSync config prompt opts ∧
  callClaudeStream config prompt (withStream opts flag)
  = callClaudeStream config prompt opts ∧
  (file (callClaudeStream config prompt opts) = "claude" ∧
   stdin (callClaudeStream config prompt opts) = prompt ∧
   argv (callClaudeStream config prompt opts)
   = leadingWords opts
     ++ ["--output-format"; "stream-json"; "--verbose";
         "--include-partial-messages"]
     ++ trailingWords config opts ∧
   adjacent "--output-format" "stream-json"
     (argv (callClaudeStream config prompt opts)) ∧
   "--verbose" ∈ argv (callClaudeStream config prompt opts) ∧
   "--include-partial-messages" ∈ argv (callClaudeStream config prompt opts) ∧
   length (argv (callClaudeStream config prompt opts))
   = (13 + match effectivePrompt opts with Some _ => 2 | None => 0 end)%nat) ∧
  (input (callClaudeSync config prompt opts) = prompt ∧
   command (callClaudeSync config prompt opts)
   = Js.join " "
       ("claude" :: leadingWords opts ++ ["--output-format"; "json"]
                    ++ trailingWords config opts) ∧
   ∃ args,
     command (callClaudeSync config prompt opts)
     = Js.join " " ("claude" :: args) ∧
     adjacent "--output-format" "json" args ∧
     length args
     = (11 + match effectivePrompt opts with Some _ => 2 | None => 0 end)%nat).
Proof.
  split; [done|]. split; [done|]. split.
  - split; [done|]. split; [done|]. split.
    { cbn [argv callClaudeStream]. by rewrite buildArgs_words. }
    destruct (buildArgs_streaming config (withStream opts true) eq_refl)
      as (Hformat & Hverbose & Hpartial).
    split; [exact Hformat|]. split; [exact Hverbose|].
    split; [exact Hpartial|].
    cbn [argv callClaudeStream]. by rewrite buildArgs_length.
  - split; [done|]. split.
    { cbn [command callClaudeSync]. by rewrite buildArgs_words. }
    exists (buildArgs config (withStream opts false)). split; [done|]. split.
    + rewrite buildArgs_layout. cbn [stream withStream continueSession].
      destruct (continueSession opts); cbn [app];
        repeat first [apply adjacent_here | apply adjacent_cons].
    + by rewrite buildArgs_length.
Qed.

(** X11.  The argument list has 11 words, two more when streaming and two
    more when there is a system prompt.  The system prompt is passed behind
    "--system-prompt" exactly when it is present and not empty: an empty
    one gives the same list as none at all.  The list always opens with
    "-p", "--model" and the model. *)
Theorem buildArgs_system_prompt (opts : ClaudeArgs) :
  length (buildArgs config opts)
  = (11 + (if stream opts then 2 else 0)
     + (match effectivePrompt opts with Some _ => 2 | None => 0 end))%nat ∧
  (∀ text, effectivePrompt opts = Some text →
      adjacent "--system-prompt" text (buildArgs config opts)) ∧
  (effectivePrompt opts = None →
      buildArgs config opts = buildArgs config (withSystemPrompt opts None)) ∧
  (∃ rest, buildArgs config opts = "-p" :: "--model" :: model opts :: rest).
Proof.
  split; [apply buildArgs_length|]. split; [|split].
  - intros text. rewrite buildArgs_layout. unfold effectivePrompt.
    destruct (systemPrompt opts) as [given|]; [|done].
    destruct (Js.truthy given); [|done]. intros [= ->].
    destruct (continueSession opts), (stream opts); cbn [app];
      repeat first [apply adjacent_here | apply adjacent_cons].
  - rewrite !buildArgs_layout. unfold effectivePrompt.
    cbn [systemPrompt withSystemPrompt continueSession stream model
         sessionId Claude.tools].
    destruct (systemPrompt opts) as [given|]; [|done].
    by destruct (Js.truthy given).
  - rewrite buildArgs_layout. eexists. reflexivity.
Qed.

(** X12.  The synchronous entry point joins the words of the command with
    single spaces and quotes nothing, so the line does not tell where a
    value ends: a tool list that goes on with " --system-prompt " and a
    text gives the very line that a system prompt with that text gives. *)
Theorem sync_command_loses_boundaries (prompt : string) (opts : ClaudeArgs)
    (allowed text : string) :
  text ≠ "" → systemPrompt opts = None →
  command (callClaudeSync config prompt
             (withTools opts (allowed +:+ " --system-prompt " +:+ text)))
  = command (callClaudeSync config prompt
               (withSystemPrompt (withTools opts allowed) (Some text))).
Proof.
  intros Htext%truthy_spec Hnone.
  cbn [command callClaudeSync]. rewrite !buildArgs_layout.
  cbn [systemPrompt withSystemPrompt withTools withStream continueSession
       stream model sessionId Claude.tools].
  rewrite Hnone, Htext.
  destruct (continueSession opts); cbn [app Js.join];
    rewrite !append_assoc; reflexivity.
Qed.

End EntryPoints.

Lemma buildArgs_system_prompt_witness :
  adjacent "--system-prompt" "be brief"
    (Claude.buildArgs sampleConfig (sampleArgs false false)) ∧
  Claude.buildArgs sampleConfig
    (withSystemPrompt (sampleArgs false false) (Some ""))
  = Claude.buildArgs sampleConfig
      (withSystemPrompt (sampleArgs false false) None).
Proof.
  split.
  - destruct (buildArgs_system_prompt sampleConfig (sampleArgs false false))
      as (_ & Hflag & _).
    apply Hflag. reflexivity.
  - destruct (buildArgs_system_prompt sampleConfig
                (withSystemPrompt (sampleArgs false false) (Some "")))
      as (_ & _ & Hnone & _).
    apply Hnone. reflexivity.
Defined.

Lemma sync_command_loses_boundaries_witness :
  Claude.command
    (Claude.callClaudeSync sampleConfig "hi"
       (withTools (withSystemPrompt (sampleArgs false false) None)
          ("Read" +:+ " --system-prompt " +:+ "obey")))
  = Claude.command
      (Claude.callClaudeSync sampleConfig "hi"
         (withSystemPrompt
            (withTools (withSystemPrompt (sampleArgs false false) None) "Read")
            (Some "obey"))).
Proof.
  apply (sync_command_loses_boundaries sampleConfig "hi"
           (withSystemPrompt (sampleArgs false false) None) "Read" "obey").
  - discriminate.
  - reflexivity.
Defined.

(** ** Server: the other classes of the error classifier *)

Section Classifier.

Import Server.

Lemma substring0_length (n : nat) (s : string) :
  (String.length (Js.substring0 n s) <= n)%nat.
Proof.
  revert s. induction n as [|n IH]; intros s; [by destruct s|].
  destruct s as [|c s]; cbn; [lia|]. specialize (IH s). lia.
Qed.

(** X13.  A failure that no rate-limit phrase claims and whose text has
    "not authorized", "credential" or "login" is answered 401 with the
    authentication error; one that neither class claims and that was
    killed, or whose text has "ETIMEDOUT" or "timeout", is answered 504
    with the timeout error, also when its text names a session.  Neither
    changes the tracker. *)
Theorem handleError_auth_and_timeout :
  (∀ error convKey tr,
      ¬ mentions rateLimitPhrases (Js.message error) →
      mentions authPhrases (Js.message error) →
      handleError error convKey tr = (401, authExpired, tr)) ∧
  (∀ error convKey tr,
      ¬ mentions rateLimitPhrases (Js.message error) →
      ¬ mentions authPhrases (Js.message error) →
      Js.killed error = true ∨ mentions timeoutPhrases (Js.message error) →
      handleError error convKey tr = (504, timedOut, tr)).
Proof.
  split.
  - intros error convKey tr Hr%mentions_false Ha%mentions_spec.
    by rewrite handleError_unfold, Hr, Ha.
  - intros error convKey tr Hr%mentions_false Ha%mentions_false Ht.
    rewrite handleError_unfold, Hr, Ha.
    destruct Ht as [-> | Ht%mentions_spec]; [done|].
    rewrite Ht. by destruct (Js.killed error).
Qed.

Lemma handleError_auth_and_timeout_witness :
  handleError (Js.newError "Please run claude login first") (Some "conv-a")
    sampleTracker = (401, authExpired, sampleTracker) ∧
  handleError (Js.newError "session timeout after 300000 ms") (Some "conv-a")
    sampleTracker = (504, timedOut, sampleTracker) ∧
  handleError {| Js.message := "Command failed"; Js.killed := true |}
    (Some "conv-a") sampleTracker = (504, timedOut, sampleTracker).
Proof.
  destruct handleError_auth_and_timeout as [Hauth Htimeout].
  split; [|split].
  - apply Hauth; [apply mentions_false | apply mentions_spec]; reflexivity.
  - apply Htimeout;
      [apply mentions_false; reflexivity | apply mentions_false; reflexivity|].
    right. apply mentions_spec. reflexivity.
  - apply Htimeout;
      [apply mentions_false; reflexivity | apply mentions_false; reflexivity|].
    left. reflexivity.
Defined.

(** X14.  A failure that no class claims is answered 502 with the code
    "internal_error" and a message that quotes at most the first 200
    characters of its text ("Unknown error" when the text is empty); the
    tracker is left alone.  Whatever the failure, the message of the answer
    is never longer than 218 characters. *)
Theorem handleError_generic_is_bounded :
  (∀ error convKey tr,
      ¬ mentions rateLimitPhrases (Js.message error) →
      ¬ mentions authPhrases (Js.message error) →
      Js.killed error = false →
      ¬ mentions timeoutPhrases (Js.message error) →
      ¬ mentions sessionPhrases (Js.message error) →
      handleError error convKey tr
      = (502,
         {| err_message := "Claude CLI error: "
                           +:+ Js.substring0 200 (effective error);
            err_type := "server_error"; err_code := "internal_error" |},
         tr)) ∧
  (∀ killed, effective {| Js.message := ""; Js.killed := killed |}
             = "Unknown error") ∧
  (∀ error, Js.message error ≠ "" → effective error = Js.message error) ∧
  (∀ error convKey tr,
      (String.length (err_message (handleError error convKey tr).1.2)
       <= 218)%nat).
Proof.
  split; [|split; [done|split]].
  - intros error convKey tr Hr%mentions_false Ha%mentions_false Hk
      Ht%mentions_false Hs%mentions_false.
    by rewrite handleError_unfold, Hr, Ha, Hk, Ht, Hs.
  - intros error Hm%truthy_spec. unfold effective. by rewrite Hm.
  - intros error convKey tr. rewrite handleError_unfold.
    destruct (existsb _ rateLimitPhrases); [cbn; lia|].
    destruct (existsb _ authPhrases); [cbn; lia|].
    destruct (Js.killed error || existsb _ timeoutPhrases); [cbn; lia|].
    destruct (existsb _ sessionPhrases); [cbn; lia|].
    cbn [fst snd err_message internalError].
    rewrite string_length_app.
    pose proof (substring0_length 200 (effective error)).
    change (String.length "Claude CLI error: ") with 18%nat. lia.
Qed.

Lemma handleError_generic_is_bounded_witness :
  handleError (Js.newError "spawn claude ENOENT") None sampleTracker
  = (502,
     {| err_message := "Claude CLI error: spawn claude ENOENT";
        err_type := "server_error"; err_code := "internal_error" |},
     sampleTracker).
Proof.
  destruct handleError_generic_is_bounded as (Hgeneric & _).
  apply (Hgeneric (Js.newError "spawn claude ENOENT") None sampleTracker);
    try (apply mentions_false; reflexivity).
  reflexivity.
Defined.

(** X15.  Whatever the failure, the classifier answers with one of the
    statuses 401, 429, 502 and 504, adds nothing to the tracker and leaves
    every key other than the conversation key as it was; without a
    conversation key, or with an empty one, the tracker does not change at
    all, session failure or not. *)
Theorem handleError_effects (error : Js.Error) (convKey : option string)
    (tr : SessionTracker.t) :
  (handleError error convKey tr).1.1 ∈ [401; 429; 502; 504] ∧
  SessionTracker.sessions (handleError error convKey tr).2
  ⊆ SessionTracker.sessions tr ∧
  SessionTracker.ttlMs (handleError error convKey tr).2
  = SessionTracker.ttlMs tr ∧
  (∀ other, convKey ≠ Some other →
      SessionTracker.sessions (handleError error convKey tr).2 !! other
      = SessionTracker.sessions tr !! other) ∧
  (convKey = None ∨ convKey = Some "" →
      (handleError error convKey tr).2 = tr).
Proof.
  rewrite handleError_unfold.
  destruct (existsb _ rateLimitPhrases);
    [cbn; repeat split; try done; apply list_elem_of_In; cbn; tauto|].
  destruct (existsb _ authPhrases);
    [cbn; repeat split; try done; apply list_elem_of_In; cbn; tauto|].
  destruct (Js.killed error || existsb _ timeoutPhrases);
    [cbn; repeat split; try done; apply list_elem_of_In; cbn; tauto|].
  destruct (existsb _ sessionPhrases);
    [|cbn; repeat split; try done; apply list_elem_of_In; cbn; tauto].
  cbn [fst snd]. split; [apply list_elem_of_In; cbn; tauto|].
  destruct convKey as [key|]; [|by repeat split].
  destruct (Js.truthy key) eqn:Hkey.
  - split; [apply delete_subseteq|]. split; [done|]. split.
    + intros other Hne. apply lookup_delete_ne. congruence.
    + intros [H | [= ->]]; done.
  - by repeat split.
Qed.

Lemma handleError_effects_witness :
  SessionTracker.sessions
    (handleError (Js.newError "Session not found") (Some "conv-b")
       sampleTracker).2 !! "conv-a"
  = SessionTracker.sessions sampleTracker !! "conv-a" ∧
  (handleError (Js.newError "Session not found") None sampleTracker).2
  = sampleTracker.
Proof.
  split.
  - destruct (handleError_effects (Js.newError "Session not found")
                (Some "conv-b") sampleTracker) as (_ & _ & _ & Hother & _).
    apply Hother. discriminate.
  - destruct (handleError_effects (Js.newError "Session not found")
                None sampleTracker) as (_ & _ & _ & _ & Hnone).
    apply Hnone. by left.
Defined.

End Classifier.

(** ** Server: what the streaming handler forwards and what it ignores *)

Section Forwarding.

Import Server.
Local Open Scope list_scope.

Variables (completionId model convKey : string).

Lemma consume_after_result (before after after' : list (Z * Claude.StreamEvent))
    (now : Z) (ev : Claude.StreamEvent) (inside : bool) (st : State) :
  Forall notResult before → Claude.ev_type ev = "result" →
  consume completionId model convKey inside (before ++ (now, ev) :: after) st
  = consume completionId model convKey inside (before ++ (now, ev) :: after') st.
Proof.
  intros Hbefore Hev. revert inside st.
  induction Hbefore as [|[now0 ev0] before Hhead _ IH]; intros inside st.
  - cbn [app consume]. by rewrite onEvent_result.
  - destruct (onEvent_frames completionId model convKey inside now0 ev0 st Hhead)
      as (inside1 & frames1 & Hstep & _).
    cbn [app consume]. rewrite Hstep. apply IH.
Qed.

Lemma onEvent_textDelta (now : Z) (text : string) (st : State) :
  onEvent completionId model convKey false now (textDelta text) st
  = Continue false
      (write (if Js.truthy text
              then Translate.formatSSEChunk completionId text model now
              else []) st).
Proof.
  destruct (Js.truthy text) eqn:Htext.
  - unfold onEvent, onInner. cbn. by rewrite Htext.
  - rewrite write_nil. unfold onEvent, onInner. cbn. by rewrite Htext.
Qed.

Lemma consume_textEvents (fragments : list (Z * string)) (st : State) :
  consume completionId model convKey false (textEvents fragments) st
  = Continue false (write (textFrames completionId model fragments) st).
Proof.
  revert st. induction fragments as [|[now text] rest IH]; intros st.
  - cbn. by rewrite write_nil.
  - cbn [textEvents map consume fst snd].
    rewrite onEvent_textDelta.
    change (map (λ timed, (timed.1, textDelta timed.2)) rest)
      with (textEvents rest).
    rewrite IH, write_write. reflexivity.
Qed.

Lemma textFrames_texts (fragments : list (Z * string)) :
  omap deltaContent (textFrames completionId model fragments)
  = List.filter Js.truthy (map snd fragments).
Proof.
  induction fragments as [|[now text] rest IH]; [done|].
  cbn [textFrames map snd List.filter]. rewrite omap_app, IH.
  by destruct (Js.truthy text).
Qed.

End Forwarding.

Section StreamOutcomes.

Import Server.
Local Open Scope list_scope.

Variable config : BridgeConfig.

Lemma handleError_other_keys (error : Js.Error) (key other : string)
    (tr : SessionTracker.t) :
  other ≠ key →
  SessionTracker.sessions (handleError error (Some key) tr).2 !! other
  = SessionTracker.sessions tr !! other.
Proof.
  intros Hne. rewrite handleError_unfold.
  destruct (existsb _ rateLimitPhrases); [done|].
  destruct (existsb _ authPhrases); [done|].
  destruct (Js.killed error || existsb _ timeoutPhrases); [done|].
  destruct (existsb _ sessionPhrases); [|done].
  cbn [snd]. destruct (Js.truthy key); [|done].
  by apply lookup_delete_ne.
Qed.

Lemma touch_other_keys (tr : SessionTracker.t) (now : Z) (key other : string) :
  other ≠ key →
  SessionTracker.sessions (SessionTracker.touch now key tr) !! other
  = SessionTracker.sessions tr !! other.
Proof. intros Hne. cbn. by rewrite lookup_alter_ne. Qed.

Lemma handleStream_prefix (claude claude' : Claude.Spawn → Claude.StreamRun)
    (prompt prompt' : string) (opts opts' : Claude.ClaudeArgs)
    (model convKey : string) (startedAt : Z) (st : State)
    (before after after' : list (Z * Claude.StreamEvent)) (now : Z)
    (ev : Claude.StreamEvent) :
  Claude.yielded (claude (Claude.callClaudeStream config prompt opts))
  = before ++ (now, ev) :: after →
  Claude.yielded (claude' (Claude.callClaudeStream config prompt' opts'))
  = before ++ (now, ev) :: after' →
  Forall notResult before → Claude.ev_type ev = "result" →
  handleStream config claude prompt opts model convKey startedAt st
  = handleStream config claude' prompt' opts' model convKey startedAt st.
Proof.
  intros Hrun Hrun' Hbefore Hev.
  rewrite !handleStream_unfold. cbv zeta. rewrite Hrun, Hrun'.
  rewrite (consume_after_result _ model convKey before after after' now ev
             false _ Hbefore Hev).
  destruct (consume_result ("chatcmpl-" +:+ Js.ofNumber startedAt) model
              convKey before after' now ev false
              (writeHead 200 sseHeaders st) Hbefore Hev)
    as (frames & -> & _).
  reflexivity.
Qed.

(** X16.  Once a result event has been handled nothing that follows
    matters: two backends whose events agree up to the first result event
    give the same response, the same tracker and the same log, whatever
    they yield afterwards, whenever their output closes and however their
    process exits. *)
Theorem handleStream_stops_at_result
    (claude claude' : Claude.Spawn → Claude.StreamRun)
    (prompt : string) (opts : Claude.ClaudeArgs) (model convKey : string)
    (startedAt : Z) (st : State)
    (before after after' : list (Z * Claude.StreamEvent)) (now : Z)
    (ev : Claude.StreamEvent) :
  Claude.yielded (claude (Claude.callClaudeStream config prompt opts))
  = before ++ (now, ev) :: after →
  Claude.yielded (claude' (Claude.callClaudeStream config prompt opts))
  = before ++ (now, ev) :: after' →
  Forall notResult before → Claude.ev_type ev = "result" →
  handleStream config claude prompt opts model convKey startedAt st
  = handleStream config claude' prompt opts model convKey startedAt st.
Proof. apply handleStream_prefix. Qed.

(** X17.  Text fragments are forwarded one frame each, in the order in
    which they arrive, and an empty fragment gives no frame: when the
    backend yields text deltas only and exits well, the frames written are
    the frames of the non-empty fragments followed by the terminal frame,
    and the texts they carry are the non-empty fragments, in order. *)
Theorem handleStream_forwards_in_order
    (claude : Claude.Spawn → Claude.StreamRun)
    (prompt : string) (opts : Claude.ClaudeArgs) (model convKey : string)
    (startedAt : Z) (tr : SessionTracker.t) (fragments : list (Z * string)) :
  Claude.yielded (claude (Claude.callClaudeStream config prompt opts))
  = textEvents fragments →
  Claude.rejected (claude (Claude.callClaudeStream config prompt opts)) = None →
  written (res (handleStream config claude prompt opts model convKey
                  startedAt (request tr)))
  = textFrames ("chatcmpl-" +:+ Js.ofNumber startedAt) model fragments
    ++ Translate.formatSSEDone ("chatcmpl-" +:+ Js.ofNumber startedAt) model
         (Claude.closedAt (claude (Claude.callClaudeStream config prompt opts))) ∧
  omap deltaContent
    (written (res (handleStream config claude prompt opts model convKey
                     startedAt (request tr))))
  = List.filter Js.truthy (map snd fragments).
Proof.
  intros Hrun Hok.
  assert (Hout :
    written (res (handleStream config claude prompt opts model convKey
                    startedAt (request tr)))
    = textFrames ("chatcmpl-" +:+ Js.ofNumber startedAt) model fragments
      ++ Translate.formatSSEDone ("chatcmpl-" +:+ Js.ofNumber startedAt) model
           (Claude.closedAt
              (claude (Claude.callClaudeStream config prompt opts)))).
  { rewrite handleStream_unfold. cbv zeta.
    rewrite Hrun, consume_textEvents, Hok. reflexivity. }
  split; [done|].
  rewrite Hout, omap_app, textFrames_texts. cbn. by rewrite app_nil_r.
Qed.

(** X18.  A thinking block that is never closed swallows the rest of the
    stream: after a block start of kind "thinking", as long as no block
    stop and no result event arrives, nothing is forwarded, text deltas
    included, and a backend that then exits well gets the terminal frame
    alone. *)
Theorem handleStream_unclosed_thinking
    (claude : Claude.Spawn → Claude.StreamRun)
    (prompt : string) (opts : Claude.ClaudeArgs) (model convKey : string)
    (startedAt : Z) (tr : SessionTracker.t) (opened : Z)
    (rest : list (Z * Claude.StreamEvent)) :
  Claude.yielded (claude (Claude.callClaudeStream config prompt opts))
  = (opened, blockStart "thinking") :: rest →
  Forall (λ timed, notResult timed ∧ ¬ isBlockStop timed) rest →
  Claude.rejected (claude (Claude.callClaudeStream config prompt opts)) = None →
  written (res (handleStream config claude prompt opts model convKey
                  startedAt (request tr)))
  = Translate.formatSSEDone ("chatcmpl-" +:+ Js.ofNumber startedAt) model
      (Claude.closedAt (claude (Claude.callClaudeStream config prompt opts))).
Proof.
  intros Hrun Hrest Hok.
  rewrite handleStream_unfold. cbv zeta. rewrite Hrun.
  change (consume ("chatcmpl-" +:+ Js.ofNumber startedAt) model convKey false
            ((opened, blockStart "thinking") :: rest)
            (writeHead 200 sseHeaders (request tr)))
    with (consume ("chatcmpl-" +:+ Js.ofNumber startedAt) model convKey true
            rest (writeHead 200 sseHeaders (request tr))).
  rewrite consume_open_block by done. rewrite Hok. reflexivity.
Qed.

Lemma handleStream_started_status
    (claude : Claude.Spawn → Claude.StreamRun)
    (prompt : string) (opts : Claude.ClaudeArgs) (model convKey : string)
    (startedAt : Z) (tr : SessionTracker.t) :
  head (res (handleStream config claude prompt opts model convKey startedAt
               (request tr)))
  = Some (200, sseHeaders) ∧
  (∀ other, other ≠ convKey →
      SessionTracker.sessions
        (sessions (handleStream config claude prompt opts model convKey
                     startedAt (request tr))) !! other
      = SessionTracker.sessions tr !! other) ∧
  (∀ error,
      Forall notResult
        (Claude.yielded (claude (Claude.callClaudeStream config prompt opts))) →
      Claude.rejected (claude (Claude.callClaudeStream config prompt opts))
      = Some error →
      ¬ sessionFailure error →
      sessions (handleStream config claude prompt opts model convKey startedAt
                  (request tr)) = tr).
Proof.
  split; [|split].
  - rewrite handleStream_unfold. cbv zeta.
    destruct (events_split
                (Claude.yielded
                   (claude (Claude.callClaudeStream config prompt opts))))
      as [Hall | (before & now & ev & after & Hrun & Hbefore & Hev)].
    + destruct (consume_no_result ("chatcmpl-" +:+ Js.ofNumber startedAt)
                  model convKey _ false
                  (writeHead 200 sseHeaders (request tr)) Hall)
        as (inside' & frames & -> & _).
      by destruct (Claude.rejected _).
    + rewrite Hrun.
      destruct (consume_result ("chatcmpl-" +:+ Js.ofNumber startedAt) model
                  convKey before after now ev false
                  (writeHead 200 sseHeaders (request tr)) Hbefore Hev)
        as (frames & -> & _).
      by destruct (onResult_effect ("chatcmpl-" +:+ Js.ofNumber startedAt)
                     model convKey now ev
                     (write frames (writeHead 200 sseHeaders (request tr))))
        as (_ & _ & -> & _).
  - intros other Hne.
    destruct (events_split
                (Claude.yielded
                   (claude (Claude.callClaudeStream config prompt opts))))
      as [Hall | (before & now & ev & after & Hrun & Hbefore & Hev)].
    + destruct (Claude.rejected
                  (claude (Claude.callClaudeStream config prompt opts)))
        as [error|] eqn:Hrej.
      * destruct (handleStream_on_failure config claude prompt opts model
                    convKey startedAt tr error Hall Hrej)
          as (frames & _ & _ & _ & -> & _).
        by apply handleError_other_keys.
      * destruct (handleStream_on_close config claude prompt opts model
                    convKey startedAt tr Hall Hrej)
          as (frames & _ & _ & -> & _).
        by apply touch_other_keys.
    + destruct (handleStream_on_result config claude prompt opts model convKey
                  startedAt tr before after now ev Hrun Hbefore Hev)
        as (frames & _ & _ & -> & _).
      by apply touch_other_keys.
  - intros error Hall Hrej Hnot.
    destruct (handleStream_on_failure config claude prompt opts model convKey
                startedAt tr error Hall Hrej)
      as (frames & _ & _ & _ & -> & _).
    by apply (handleError_other error (Some convKey) tr).
Qed.

(** X19.  When the child process starts, the streaming handler answers with
    status 200 and the event-stream headers, also when the process then
    fails: the failure travels in a frame.  It never changes the session of
    another conversation, and a failure that is not taken for a session
    failure leaves the tracker exactly as it was: the turn is not counted.
    When the child does not start, the handler ends in an uncaught
    exception: nothing has been written, the response is not ended, and the
    tracker is as it was. *)
Theorem handleStream_status_and_sessions
    (child : Claude.Spawn → Claude.Child)
    (prompt : string) (opts : Claude.ClaudeArgs) (model convKey : string)
    (startedAt : Z) (tr : SessionTracker.t) :
  (∀ run,
      child (Claude.callClaudeStream config prompt opts) = Claude.Started run →
      ∃ final,
        handleStreamOn config child prompt opts model convKey startedAt
          (request tr) = Settled final ∧
        head (res final) = Some (200, sseHeaders) ∧
        (∀ other, other ≠ convKey →
            SessionTracker.sessions (sessions final) !! other
            = SessionTracker.sessions tr !! other) ∧
        (∀ error,
            Forall notResult (Claude.yielded run) →
            Claude.rejected run = Some error →
            ¬ sessionFailure error →
            sessions final = tr)) ∧
  (∀ error,
      child (Claude.callClaudeStream config prompt opts) = Claude.Errored error →
      ∃ left,
        handleStreamOn config child prompt opts model convKey startedAt
          (request tr) = Uncaught error left ∧
        written (res left) = [] ∧
        writableEnded (res left) = false ∧
        sessions left = tr).
Proof.
  split.
  - intros run Hrun. unfold handleStreamOn. rewrite Hrun.
    eexists. split; [reflexivity|].
    apply (handleStream_started_status (λ _, run) prompt opts model convKey
             startedAt tr).
  - intros error Hrun. unfold handleStreamOn. rewrite Hrun.
    eexists. split; [reflexivity|]. by repeat split.
Qed.

End StreamOutcomes.

Lemma handleStream_stops_at_result_witness :
  Server.handleStream sampleConfig (λ _, sampleResultRun) "hi"
    (sampleArgs false true) "claude-opus" "conv-a" 1000 (request sampleTracker)
  = Server.handleStream sampleConfig (λ _, sampleLateRun) "hi"
      (sampleArgs false true) "claude-opus" "conv-a" 1000
      (request sampleTracker).
Proof.
  apply (handleStream_stops_at_result sampleConfig
           (λ _, sampleResultRun) (λ _, sampleLateRun) "hi"
           (sampleArgs false true) "claude-opus" "conv-a" 1000
           (request sampleTracker)
           [(1010, blockStart "thinking");
            (1020, reasoningDelta "let me think");
            (1030, blockStop); (1040, textDelta "X")]
           [] [(1055, textDelta "late")] 1050 resultEvent).
  - reflexivity.
  - reflexivity.
  - repeat constructor; discriminate.
  - reflexivity.
Defined.

Lemma handleStream_forwards_in_order_witness :
  omap deltaContent
    (Server.written
       (Server.res
          (Server.handleStream sampleConfig (λ _, sampleClosedRun) "hi"
             (sampleArgs false true) "claude-opus" "conv-a" 1000
             (request sampleTracker))))
  = ["Hel"; "lo"].
Proof.
  destruct (handleStream_forwards_in_order sampleConfig (λ _, sampleClosedRun)
              "hi" (sampleArgs false true) "claude-opus" "conv-a" 1000
              sampleTracker [(1010, "Hel"); (1020, "lo")] eq_refl eq_refl)
    as [_ Htexts].
  exact Htexts.
Defined.

Lemma handleStream_unclosed_thinking_witness :
  Server.written
    (Server.res
       (Server.handleStream sampleConfig (λ _, sampleOpenRun) "hi"
          (sampleArgs false true) "claude-opus" "conv-a" 1000
          (request sampleTracker)))
  = Translate.formatSSEDone ("chatcmpl-" +:+ Js.ofNumber 1000) "claude-opus"
      1040.
Proof.
  apply (handleStream_unclosed_thinking sampleConfig (λ _, sampleOpenRun) "hi"
           (sampleArgs false true) "claude-opus" "conv-a" 1000 sampleTracker
           1010 [(1020, reasoningDelta "hmm"); (1030, textDelta "leak")]).
  - reflexivity.
  - repeat constructor; try discriminate;
      intros (inner & [= <-] & Hkind); discriminate Hkind.
  - reflexivity.
Defined.

Lemma handleStream_status_and_sessions_witness :
  (∃ final,
      Server.handleStreamOn sampleConfig
        (λ _, Claude.Started sampleUnknownFailure) "hi"
        (sampleArgs false true) "claude-opus" "conv-a" 1000
        (request sampleTracker) = Server.Settled final ∧
      Server.head (Server.res final) = Some (200, Server.sseHeaders) ∧
      Server.sessions final = sampleTracker) ∧
  (∃ left,
      Server.handleStreamOn sampleConfig sampleNoChild "hi"
        (sampleArgs false true) "claude-opus" "conv-a" 1000
        (request sampleTracker)
      = Server.Uncaught (Js.newError "spawn claude ENOENT") left ∧
      Server.written (Server.res left) = []).
Proof.
  split.
  - destruct (handleStream_status_and_sessions sampleConfig
                (λ _, Claude.Started sampleUnknownFailure) "hi"
                (sampleArgs false true) "claude-opus" "conv-a" 1000
                sampleTracker) as [Hstarted _].
    destruct (Hstarted sampleUnknownFailure eq_refl)
      as (final & Hsettled & Hhead & _ & Hfail).
    exists final. split; [exact Hsettled|]. split; [exact Hhead|].
    apply (Hfail (Js.newError "Claude CLI exited with code 2")).
    + repeat constructor; discriminate.
    + reflexivity.
    + intros (Hsession & _). apply mentions_spec in Hsession.
      discriminate Hsession.
  - destruct (handleStream_status_and_sessions sampleConfig sampleNoChild "hi"
                (sampleArgs false true) "claude-opus" "conv-a" 1000
                sampleTracker) as [_ Herrored].
    destruct (Herrored (Js.newError "spawn claude ENOENT") eq_refl)
      as (left & Hleft & Hnothing & _).
    exists left. split; [exact Hleft | exact Hnothing].
Defined.

(** ** Claude: the child process behind the stream *)

Section ProcessRun.

Import Claude.
Local Open Scope list_scope.

Variable parse : string → option StreamEvent.

Lemma omap_skip {A B} (f : A → option B) (x : A) (l : list A) :
  f x = None → omap f (x :: l) = omap f l.
Proof. intros Hx. cbn. by rewrite Hx. Qed.

Lemma yielded_app (a b : list (Z * string)) (c : Z) (code : option Z)
    (err : string) :
  yielded (callClaudeStreamRun parse
             {| lines := a ++ b; closed := c; exitCode := code; stderr := err |})
  = yielded (callClaudeStreamRun parse
               {| lines := a; closed := c; exitCode := code; stderr := err |})
    ++ yielded (callClaudeStreamRun parse
                  {| lines := b; closed := c; exitCode := code; stderr := err |}).
Proof. cbn. apply omap_app. Qed.

(** X20.  The generator yields the events of the lines that parse, in the
    order of the lines, each with the time at which its line is handled,
    and skips a line that does not parse wherever it stands: no output gives
    no event, a first line that parses gives the first event, one that does
    not is passed over, and the events of two stretches of output are those
    of the first followed by those of the second.  Its final wait succeeds
    on exit code 0 and on a null exit code alike; on any other code it
    rejects with the text of standard error, or with "Claude CLI exited with
    code N" when that text is empty. *)
Theorem callClaudeStream_lines_and_exit :
  (∀ c code err,
      yielded (callClaudeStreamRun parse
                 {| lines := []; closed := c; exitCode := code;
                    stderr := err |}) = []) ∧
  (∀ now line ev rest c code err,
      parse line = Some ev →
      yielded (callClaudeStreamRun parse
                 {| lines := (now, line) :: rest; closed := c;
                    exitCode := code; stderr := err |})
      = (now, ev)
        :: yielded (callClaudeStreamRun parse
                      {| lines := rest; closed := c; exitCode := code;
                         stderr := err |})) ∧
  (∀ now line rest c code err,
      parse line = None →
      yielded (callClaudeStreamRun parse
                 {| lines := (now, line) :: rest; closed := c;
                    exitCode := code; stderr := err |})
      = yielded (callClaudeStreamRun parse
                   {| lines := rest; closed := c; exitCode := code;
                      stderr := err |})) ∧
  (∀ a b c code err,
      yielded (callClaudeStreamRun parse
                 {| lines := a ++ b; closed := c; exitCode := code;
                    stderr := err |})
      = yielded (callClaudeStreamRun parse
                   {| lines := a; closed := c; exitCode := code;
                      stderr := err |})
        ++ yielded (callClaudeStreamRun parse
                      {| lines := b; closed := c; exitCode := code;
                         stderr := err |})) ∧
  (∀ a now line b c code err,
      parse line = None →
      yielded (callClaudeStreamRun parse
                 {| lines := a ++ (now, line) :: b; closed := c;
                    exitCode := code; stderr := err |})
      = yielded (callClaudeStreamRun parse
                   {| lines := a ++ b; closed := c; exitCode := code;
                      stderr := err |})) ∧
  (∀ p, closedAt (callClaudeStreamRun parse p) = closed p) ∧
  (∀ p, exitCode p = None ∨ exitCode p = Some 0 →
        rejected (callClaudeStreamRun parse p) = None) ∧
  (∀ p code, exitCode p = Some code → code ≠ 0 →
        rejected (callClaudeStreamRun parse p)
        = Some (Js.newError
                  (if Js.truthy (stderr p) then stderr p
                   else "Claude CLI exited with code " +:+ Js.ofNumber code))).
Proof.
  split; [done|]. split; [|split; [|split; [exact yielded_app|]]].
  - intros now line ev rest c code err Hline.
    cbn [yielded callClaudeStreamRun lines].
    change (omap ?f ((now, line) :: rest))
      with (match f (now, line) with
            | Some y => y :: omap f rest
            | None => omap f rest
            end).
    cbn [fst snd]. by rewrite Hline.
  - intros now line rest c code err Hline.
    cbn [yielded callClaudeStreamRun lines].
    apply omap_skip. cbn [fst snd]. by rewrite Hline.
  - split; [|split; [done|split]].
    + intros a now line b c code err Hline. cbn. rewrite !omap_app.
      f_equal. apply omap_skip. cbn. by rewrite Hline.
    + intros p [Hcode | Hcode]; unfold callClaudeStreamRun; cbn;
        by rewrite Hcode.
    + intros p code Hcode Hne. unfold callClaudeStreamRun. cbn. rewrite Hcode.
      by rewrite (proj2 (Z.eqb_neq code 0) Hne).
Qed.

End ProcessRun.

Lemma callClaudeStream_lines_and_exit_witness :
  Claude.yielded (Claude.callClaudeStreamRun sampleParse sampleProcess)
  = [(1020, textDelta "Hel"); (1030, textDelta "lo")] ∧
  Claude.rejected (Claude.callClaudeStreamRun sampleParse sampleProcess)
  = Some (Js.newError "quota exceeded") ∧
  Claude.rejected
    (Claude.callClaudeStreamRun sampleParse (withExit sampleProcess None ""))
  = None.
Proof.
  destruct (callClaudeStream_lines_and_exit sampleParse)
    as (Hnone & Hkeep & Hskip & _ & _ & _ & Hgood & Hbad).
  split; [|split].
  - unfold sampleProcess.
    rewrite (Hskip 1010 "warming up" _ 1040 (Some 1) "quota exceeded" eq_refl).
    rewrite (Hkeep 1020 "{delta Hel}" (textDelta "Hel") _ 1040 (Some 1)
               "quota exceeded" eq_refl).
    rewrite (Hkeep 1030 "{delta lo}" (textDelta "lo") _ 1040 (Some 1)
               "quota exceeded" eq_refl).
    by rewrite Hnone.
  - rewrite (Hbad sampleProcess 1); [reflexivity | reflexivity | discriminate].
  - apply Hgood. by left.
Defined.

Section ExitStatus.

Import Server.
Local Open Scope list_scope.

Variables (config : BridgeConfig) (parse : string → option Claude.StreamEvent).

(** X21.  How the exit of the child process reaches the client of a stream.
    When an event of the output was a result event, the exit code and the
    error output are never looked at.  When none was and the process ends
    with a null exit code, say because it was killed, the stream ends like
    a successful one: terminal frame, session touched.  When none was and
    the exit code is not 0, the client gets one error frame, classified
    from the error output, and the terminal marker. *)
Theorem exit_status_reaches_client (p : Claude.Process) (prompt : string)
    (opts : Claude.ClaudeArgs) (model convKey : string) (startedAt : Z)
    (tr : SessionTracker.t) :
  (∀ code err,
      ¬ Forall notResult (Claude.yielded (Claude.callClaudeStreamRun parse p)) →
      handleStream config (λ _, Claude.callClaudeStreamRun parse p) prompt opts
        model convKey startedAt (request tr)
      = handleStream config
          (λ _, Claude.callClaudeStreamRun parse (withExit p code err))
          prompt opts model convKey startedAt (request tr)) ∧
  (Forall notResult (Claude.yielded (Claude.callClaudeStreamRun parse p)) →
   Claude.exitCode p = None →
   endsWithDone
     (written (res (handleStream config (λ _, Claude.callClaudeStreamRun parse p)
                      prompt opts model convKey startedAt (request tr)))) ∧
   count isErrorFrame
     (written (res (handleStream config (λ _, Claude.callClaudeStreamRun parse p)
                      prompt opts model convKey startedAt (request tr))))
   = 0%nat ∧
   sessions (handleStream config (λ _, Claude.callClaudeStreamRun parse p)
               prompt opts model convKey startedAt (request tr))
   = SessionTracker.touch (Claude.closed p) convKey tr) ∧
  (∀ code,
      Forall notResult (Claude.yielded (Claude.callClaudeStreamRun parse p)) →
      Claude.exitCode p = Some code → code ≠ 0 →
      ∃ frames,
        Forall (textFrame ("chatcmpl-" +:+ Js.ofNumber startedAt) model) frames ∧
        written (res (handleStream config
                        (λ _, Claude.callClaudeStreamRun parse p)
                        prompt opts model convKey startedAt (request tr)))
        = frames
          ++ [SseData (JObj [("error",
                errorJson
                  (handleError
                     (Js.newError
                        (if Js.truthy (Claude.stderr p) then Claude.stderr p
                         else "Claude CLI exited with code "
                              +:+ Js.ofNumber code))
                     (Some convKey) tr).1.2)]);
              SseDone]).
Proof.
  split; [|split].
  - intros code err Hsome.
    destruct (events_split
                (Claude.yielded (Claude.callClaudeStreamRun parse p)))
      as [Hall | (before & now & ev & after & Hrun & Hbefore & Hev)];
      [done|].
    by apply (handleStream_prefix config _ _ prompt prompt opts opts model
                convKey startedAt (request tr) before after after now ev).
  - intros Hall Hcode.
    destruct (handleStream_on_close config
                (λ _, Claude.callClaudeStreamRun parse p) prompt opts model
                convKey startedAt tr Hall)
      as (frames & Htext & Hout & Htouch & _).
    { cbn. by rewrite Hcode. }
    rewrite Hout, Htouch. split; [|split; [|done]].
    + unfold Translate.formatSSEDone. eexists (frames ++ [_]).
      by rewrite <- app_assoc.
    + rewrite count_app.
      rewrite (count_text_frames ("chatcmpl-" +:+ Js.ofNumber startedAt) model
                 isErrorFrame frames); [done| |done].
      intros f Hf. eapply textFrame_not_error. exact Hf.
  - intros code Hall Hcode Hne.
    destruct (handleStream_on_failure config
                (λ _, Claude.callClaudeStreamRun parse p) prompt opts model
                convKey startedAt tr
                (Js.newError
                   (if Js.truthy (Claude.stderr p) then Claude.stderr p
                    else "Claude CLI exited with code " +:+ Js.ofNumber code))
                Hall)
      as (frames & Htext & Hout & _).
    { cbn. rewrite Hcode. by rewrite (proj2 (Z.eqb_neq code 0) Hne). }
    by exists frames.
Qed.

End ExitStatus.

Lemma exit_status_reaches_client_witness :
  ∃ frames,
    Server.written
      (Server.res
         (Server.handleStream sampleConfig
            (λ _, Claude.callClaudeStreamRun sampleParse sampleProcess) "hi"
            (sampleArgs false true) "claude-opus" "conv-a" 1000
            (request sampleTracker)))
    = (frames
       ++ [SseData (JObj [("error", Server.errorJson Server.rateLimited)]);
           SseDone])%list.
Proof.
  destruct (exit_status_reaches_client sampleConfig sampleParse sampleProcess
              "hi" (sampleArgs false true) "claude-opus" "conv-a" 1000
              sampleTracker) as (_ & _ & Hfailed).
  destruct (Hfailed 1) as (frames & _ & Hout).
  - repeat constructor; discriminate.
  - reflexivity.
  - discriminate.
  - exists frames. exact Hout.
Defined.

(** ** Server: the chat handler *)

Section ChatHandler.

Import Server.
Local Open Scope list_scope.

Variable config : BridgeConfig.

Lemma resolveSession_new (messages : list Message) (convKey uuid : string)
    (now : Z) (tr : SessionTracker.t) (log : list string) :
  (SessionTracker.get now convKey tr).1 = None →
  resolveSession messages convKey uuid now tr log
  = Returned
      (freshSession uuid now, Translate.translateFirstTurn messages,
       (SessionTracker.create uuid now convKey
          (SessionTracker.get now convKey tr).2).2,
       log ++ ["[session] new: " +:+ convKey +:+ " → claude-session "
               +:+ uuid]).
Proof.
  intros Hnone. unfold resolveSession.
  destruct (SessionTracker.get now convKey tr) as [found tr1].
  cbn in Hnone. by subst found.
Qed.

Lemma resolveSession_known (messages : list Message) (convKey uuid : string)
    (now : Z) (tr : SessionTracker.t) (log : list string) (s : Session) :
  (SessionTracker.get now convKey tr).1 = Some s →
  resolveSession messages convKey uuid now tr log
  = match Translate.translateContinueTurn messages with
    | Thrown e => Thrown e
    | Returned translated =>
        Returned (s, translated, tr,
                  log ++ ["[session] continue: " +:+ convKey +:+ " (turn "
                          +:+ Js.ofNumber (turnCount s + 1) +:+ ")"])
    end.
Proof.
  intros Hsome. unfold resolveSession.
  pose proof (get_returns_live tr now convKey s Hsome) as [Hs Hage].
  by rewrite (get_fresh tr now convKey s Hs Hage).
Qed.

(** What the handler does with the answer of the synchronous backend. *)
Lemma handleChatCompletion_sync
    (claudeSync : Claude.SyncCall → Claude.SyncRun)
    (claude : Claude.Spawn → Claude.StreamRun)
    (model : option string) (messages : list Message)
    (header : option string) (uuid : string) (now : Z)
    (tr tr1 : SessionTracker.t) (log log1 : list string)
    (session : Session) (translated : Translate.TranslatedInput) :
  messages ≠ [] →
  resolveSession messages
    (SessionTracker.makeKey (conversationIdOf header) messages)
    uuid now tr log
  = Returned (session, translated, tr1, log1) →
  handleChatCompletion config claudeSync claude
    (chatRequest model messages false) header uuid now tr log
  = let convKey :=
      SessionTracker.makeKey (conversationIdOf header) messages in
    let run :=
      claudeSync (Claude.callClaudeSync config (Translate.prompt translated)
                    (chatOptions config model session translated false)) in
    match Claude.returned run with
    | Returned doc =>
        Returned
          {| reply :=
               JsonReply 200
                 (Translate.translateResponse doc
                    (orElse model (defaultModel config))
                    (Claude.finishedAt run));
             tracker :=
               SessionTracker.touch (Claude.finishedAt run) convKey tr1;
             logged :=
               if Translate.usageOr0 doc Translate.cache_read_input_tokens >? 0
               then log1 ++ ["[cache] hit: "
                             +:+ Js.ofNumber
                                   (Translate.usageOr0 doc
                                      Translate.cache_read_input_tokens)
                             +:+ " tokens cached"]
               else log1 |}
    | Thrown error =>
        Returned
          {| reply :=
               JsonReply (handleError error (Some convKey) tr1).1.1
                 (errorEnvelope (handleError error (Some convKey) tr1).1.2);
             tracker := (handleError error (Some convKey) tr1).2;
             logged := log1 |}
    end.
Proof.
  intros Hne Hresolve. destruct messages as [|m messages]; [done|].
  unfold handleChatCompletion, chatRequest.
  cbn [req_messages req_model req_stream]. rewrite Hresolve. cbv zeta.
  fold (chatOptions config model session translated false).
  destruct (Claude.returned _) as [doc|error]; [done|].
  by destruct (handleError error _ tr1) as [[status body] tr2].
Qed.

Lemma makeKey_truthy (conversationId : option string)
    (messages : list Message) :
  Js.truthy (SessionTracker.makeKey conversationId messages) = true.
Proof.
  unfold SessionTracker.makeKey. destruct conversationId as [id|]; [|done].
  by destruct (Js.truthy id) eqn:Hid.
Qed.

Lemma create_lookup (tr : SessionTracker.t) (uuid key : string) (now : Z) :
  SessionTracker.sessions (SessionTracker.create uuid now key tr).2 !! key
  = Some (freshSession uuid now).
Proof. cbn. apply lookup_insert_eq. Qed.

(** X22.  A request without a live session is a first turn.  The backend
    is called once, with the full rendering of the messages on standard
    input and the fresh identifier behind "--session-id"; nothing else of
    the backend matters.  When it returns a document, the reply is 200 with
    the document's result as the content of the message, and the session
    is registered under the conversation key with one turn counted. *)
Theorem chat_first_turn
    (model : option string) (messages : list Message)
    (header : option string) (uuid : string) (now : Z)
    (tr : SessionTracker.t) (log : list string) :
  messages ≠ [] →
  (SessionTracker.get now
     (SessionTracker.makeKey (conversationIdOf header) messages) tr).1 = None →
  let convKey := SessionTracker.makeKey (conversationIdOf header) messages in
  let first := Translate.translateFirstTurn messages in
  let opts := chatOptions config model (freshSession uuid now) first false in
  let call := Claude.callClaudeSync config (Translate.prompt first) opts in
  (Claude.input call = Translate.prompt first ∧
   adjacent "--session-id" uuid (Claude.buildArgs config opts)) ∧
  (∀ claudeSync claudeSync' claude claude',
      claudeSync call = claudeSync' call →
      handleChatCompletion config claudeSync claude
        (chatRequest model messages false) header uuid now tr log
      = handleChatCompletion config claudeSync' claude'
          (chatRequest model messages false) header uuid now tr log) ∧
  (∀ claudeSync claude doc,
      Claude.returned (claudeSync call) = Returned doc →
      ∃ handled,
        handleChatCompletion config claudeSync claude
          (chatRequest model messages false) header uuid now tr log
        = Returned handled ∧
        reply handled
        = JsonReply 200
            (Translate.translateResponse doc
               (orElse model (defaultModel config))
               (Claude.finishedAt (claudeSync call))) ∧
        (∀ status body, reply handled = JsonReply status body →
            messageContent body = Some (Translate.result doc) ∧
            finishReason body
            = Some (if Translate.is_error doc then "error" else "stop")) ∧
        SessionTracker.sessions (tracker handled) !! convKey
        = Some {| claudeSessionId := uuid; turnCount := 1;
                  lastUsedAt := Claude.finishedAt (claudeSync call);
                  messageCount := 1 |}).
Proof.
  intros Hne Hnone. cbv zeta.
  pose proof (resolveSession_new messages _ uuid now tr log Hnone) as Hresolve.
  split; [|split].
  - split; [done|]. apply (buildArgs_session config).
  - intros claudeSync claudeSync' claude claude' Hsame.
    rewrite (handleChatCompletion_sync claudeSync claude _ _ _ _ _ _ _ _ _ _ _
               Hne Hresolve).
    rewrite (handleChatCompletion_sync claudeSync' claude' _ _ _ _ _ _ _ _ _ _ _
               Hne Hresolve).
    cbv zeta. by rewrite Hsame.
  - intros claudeSync claude doc Hdoc.
    rewrite (handleChatCompletion_sync claudeSync claude _ _ _ _ _ _ _ _ _ _ _
               Hne Hresolve).
    cbv zeta. rewrite Hdoc. eexists. split; [reflexivity|].
    cbn [reply tracker]. split; [done|]. split.
    + intros status body [= <- <-]. done.
    + rewrite touch_lookup, create_lookup. reflexivity.
Qed.

(** X23.  A first turn that fails leaves its session behind.  When the
    backend throws a failure that is not taken for a session failure, the
    reply carries the status and the error of the classifier, and the
    session created for the turn stays registered with no turn counted, so
    that the next request of the conversation within the TTL is handled as
    a continuation.  Only a failure taken for a session failure removes
    the session again. *)
Theorem chat_failed_first_turn
    (model : option string) (messages : list Message)
    (header : option string) (uuid : string) (now : Z)
    (tr : SessionTracker.t) (log : list string)
    (claudeSync : Claude.SyncCall → Claude.SyncRun)
    (claude : Claude.Spawn → Claude.StreamRun) (error : Js.Error) :
  messages ≠ [] →
  (SessionTracker.get now
     (SessionTracker.makeKey (conversationIdOf header) messages) tr).1 = None →
  Claude.returned
    (claudeSync
       (Claude.callClaudeSync config
          (Translate.prompt (Translate.translateFirstTurn messages))
          (chatOptions config model (freshSession uuid now)
             (Translate.translateFirstTurn messages) false)))
  = Thrown error →
  let convKey := SessionTracker.makeKey (conversationIdOf header) messages in
  ∃ handled,
    handleChatCompletion config claudeSync claude
      (chatRequest model messages false) header uuid now tr log
    = Returned handled ∧
    (∃ status body,
        reply handled = JsonReply status (errorEnvelope body) ∧
        status ≠ 200 ∧
        ∀ anyKey anyTracker,
          (handleError error anyKey anyTracker).1 = (status, body)) ∧
    (¬ sessionFailure error →
       SessionTracker.sessions (tracker handled) !! convKey
       = Some (freshSession uuid now) ∧
       ∀ later, later - now <= SessionTracker.ttlMs tr →
         (SessionTracker.get later convKey (tracker handled)).1
         = Some (freshSession uuid now)) ∧
    (sessionFailure error →
       SessionTracker.sessions (tracker handled) !! convKey = None).
Proof.
  intros Hne Hnone Hthrown. cbv zeta.
  pose proof (resolveSession_new messages _ uuid now tr log Hnone) as Hresolve.
  rewrite (handleChatCompletion_sync claudeSync claude _ _ _ _ _ _ _ _ _ _ _
             Hne Hresolve).
  cbv zeta. rewrite Hthrown. eexists. split; [reflexivity|].
  cbn [reply tracker]. split; [|split].
  - eexists _, _. split; [reflexivity|]. split.
    + rewrite handleError_unfold.
      destruct (existsb _ rateLimitPhrases); [done|].
      destruct (existsb _ authPhrases); [done|].
      destruct (Js.killed error || existsb _ timeoutPhrases); [done|].
      by destruct (existsb _ sessionPhrases).
    + intros anyKey anyTracker. rewrite !handleError_unfold.
      destruct (existsb _ rateLimitPhrases); [done|].
      destruct (existsb _ authPhrases); [done|].
      destruct (Js.killed error || existsb _ timeoutPhrases); [done|].
      by destruct (existsb _ sessionPhrases).
  - intros Hnot.
    destruct (handleError_other error
                (Some (SessionTracker.makeKey (conversationIdOf header) messages))
                (SessionTracker.create uuid now
                   (SessionTracker.makeKey (conversationIdOf header) messages)
                   (SessionTracker.get now
                      (SessionTracker.makeKey (conversationIdOf header) messages)
                      tr).2).2 Hnot) as [-> _].
    split; [apply create_lookup|].
    intros later Hage.
    erewrite get_fresh; [reflexivity | apply create_lookup|].
    cbn. rewrite get_keeps_ttl. cbn. lia.
  - intros Hfail. rewrite (handleError_session _ _ _ Hfail).
    rewrite makeKey_truthy. cbn [snd]. apply delete_gone.
Qed.

(** X24.  A request that finds a live session is a continuation.  The
    backend is called once, with only the text of the last user message on
    standard input, the stored identifier behind "--resume" and no system
    prompt, whatever system messages the request carries; nothing else of
    the backend matters.  When it returns a document the stored session
    has one more turn and the time of the answer. *)
Theorem chat_continuation
    (model : option string) (before after : list Message) (last : Message)
    (header : option string) (uuid : string) (now : Z)
    (tr : SessionTracker.t) (log : list string) (s : Session) :
  role last = "user" → Forall (λ m, role m ≠ "user") after →
  (SessionTracker.get now
     (SessionTracker.makeKey (conversationIdOf header)
        (before ++ last :: after)) tr).1 = Some s →
  let messages := before ++ last :: after in
  let convKey := SessionTracker.makeKey (conversationIdOf header) messages in
  let continued :=
    {| Translate.prompt := Translate.extractText (content last);
       Translate.systemPrompt := None;
       Translate.isFirstTurn := false |} in
  let opts := chatOptions config model s continued false in
  let call :=
    Claude.callClaudeSync config (Translate.extractText (content last)) opts in
  (Claude.input call = Translate.extractText (content last) ∧
   adjacent "--resume" (claudeSessionId s) (Claude.buildArgs config opts) ∧
   length (Claude.buildArgs config opts) = 11%nat) ∧
  (∀ claudeSync claudeSync' claude claude' uuid',
      claudeSync call = claudeSync' call →
      handleChatCompletion config claudeSync claude
        (chatRequest model messages false) header uuid now tr log
      = handleChatCompletion config claudeSync' claude'
          (chatRequest model messages false) header uuid' now tr log) ∧
  (∀ claudeSync claude doc,
      Claude.returned (claudeSync call) = Returned doc →
      ∃ handled,
        handleChatCompletion config claudeSync claude
          (chatRequest model messages false) header uuid now tr log
        = Returned handled ∧
        SessionTracker.sessions (tracker handled) !! convKey
        = Some {| claudeSessionId := claudeSessionId s;
                  turnCount := turnCount s + 1;
                  lastUsedAt := Claude.finishedAt (claudeSync call);
                  messageCount := messageCount s + 1 |}).
Proof.
  intros Hlast Hafter Hsome. cbv zeta.
  assert (Hne : before ++ last :: after ≠ []) by (by destruct before).
  assert (Hresolve : ∀ uuid0,
    resolveSession (before ++ last :: after)
      (SessionTracker.makeKey (conversationIdOf header)
         (before ++ last :: after)) uuid0 now tr log
    = Returned
        (s,
         {| Translate.prompt := Translate.extractText (content last);
            Translate.systemPrompt := None;
            Translate.isFirstTurn := false |},
         tr,
         log ++ ["[session] continue: "
                 +:+ SessionTracker.makeKey (conversationIdOf header)
                       (before ++ last :: after)
                 +:+ " (turn " +:+ Js.ofNumber (turnCount s + 1) +:+ ")"])).
  { intros uuid0.
    rewrite (resolveSession_known _ _ uuid0 now tr log s Hsome).
    by rewrite translateContinueTurn_last_user. }
  split; [|split].
  - split; [done|]. split.
    + apply (buildArgs_session config
               (chatOptions config model s
                  {| Translate.prompt := Translate.extractText (content last);
                     Translate.systemPrompt := None;
                     Translate.isFirstTurn := false |} false)).
    + by rewrite buildArgs_length.
  - intros claudeSync claudeSync' claude claude' uuid' Hsame.
    rewrite (handleChatCompletion_sync claudeSync claude _ _ _ _ _ _ _ _ _ _ _
               Hne (Hresolve uuid)).
    rewrite (handleChatCompletion_sync claudeSync' claude' _ _ _ _ _ _ _ _ _ _ _
               Hne (Hresolve uuid')).
    cbv zeta. cbn [Translate.prompt]. by rewrite Hsame.
  - intros claudeSync claude doc Hdoc.
    rewrite (handleChatCompletion_sync claudeSync claude _ _ _ _ _ _ _ _ _ _ _
               Hne (Hresolve uuid)).
    cbv zeta. cbn [Translate.prompt]. rewrite Hdoc.
    eexists. split; [reflexivity|]. cbn [tracker].
    pose proof (get_returns_live tr now _ s Hsome) as [Hs _].
    by rewrite touch_lookup, Hs.
Qed.


Lemma handleStream_only_spawn
    (claude claude' : Claude.Spawn → Claude.StreamRun) (prompt : string)
    (opts : Claude.ClaudeArgs) (model convKey : string) (startedAt : Z)
    (st : State) :
  claude (Claude.callClaudeStream config prompt opts)
  = claude' (Claude.callClaudeStream config prompt opts) →
  handleStream config claude prompt opts model convKey startedAt st
  = handleStream config claude' prompt opts model convKey startedAt st.
Proof. intros Hsame. rewrite !handleStream_unfold. cbv zeta. by rewrite Hsame. Qed.

Lemma endsWithDone_after (frames : list Sse) (f : Sse) :
  endsWithDone (frames ++ [f; SseDone]).
Proof. exists (frames ++ [f]). by rewrite <- app_assoc. Qed.

Lemma handleStream_ends (claude : Claude.Spawn → Claude.StreamRun)
    (prompt : string) (opts : Claude.ClaudeArgs) (model convKey : string)
    (startedAt : Z) (st : State) :
  writableEnded (res st) = false →
  writableEnded
    (res (handleStream config claude prompt opts model convKey startedAt st))
  = true ∧
  endsWithDone
    (written
       (res (handleStream config claude prompt opts model convKey startedAt st))) ∧
  head (res (handleStream config claude prompt opts model convKey startedAt st))
  = Some (200, sseHeaders).
Proof.
  intros Hopen. rewrite handleStream_unfold. cbv zeta.
  generalize ("chatcmpl-" +:+ Js.ofNumber startedAt). intros id.
  destruct (events_split
              (Claude.yielded
                 (claude (Claude.callClaudeStream config prompt opts))))
    as [Hall | (before & now & ev & after & Hrun & Hbefore & Hev)].
  - destruct (consume_no_result id model convKey _ false
                (writeHead 200 sseHeaders st) Hall)
      as (inside' & frames & -> & _).
    destruct (Claude.rejected _) as [error|].
    + change (writableEnded
                (res (write frames (writeHead 200 sseHeaders st))))
        with (writableEnded (res st)).
      rewrite Hopen. cbn [negb]. cbv iota.
      split; [reflexivity|]. split; [|reflexivity].
      unfold endsWithDone. cbn [written res endResponse write setSessions].
      eexists. reflexivity.
    + split; [reflexivity|]. split; [|reflexivity].
      unfold Translate.formatSSEDone.
      cbn [written res endResponse write setSessions].
      apply endsWithDone_after.
  - rewrite Hrun.
    destruct (consume_result id model convKey before after now ev false
                (writeHead 200 sseHeaders st) Hbefore Hev)
      as (frames & -> & _).
    destruct (onResult_effect id model convKey now ev
                (write frames (writeHead 200 sseHeaders st)))
      as (-> & -> & -> & _).
    split; [reflexivity|]. split; [|reflexivity].
    unfold Translate.formatSSEDone. apply endsWithDone_after.
Qed.

Lemma handleChatCompletion_stream
    (claudeSync : Claude.SyncCall → Claude.SyncRun)
    (claude : Claude.Spawn → Claude.StreamRun)
    (model : option string) (messages : list Message)
    (header : option string) (uuid : string) (now : Z)
    (tr tr1 : SessionTracker.t) (log log1 : list string)
    (session : Session) (translated : Translate.TranslatedInput) :
  messages ≠ [] →
  resolveSession messages
    (SessionTracker.makeKey (conversationIdOf header) messages)
    uuid now tr log
  = Returned (session, translated, tr1, log1) →
  handleChatCompletion config claudeSync claude
    (chatRequest model messages true) header uuid now tr log
  = Returned
      {| reply :=
           EventStream
             (res (handleStream config claude (Translate.prompt translated)
                     (chatOptions config model session translated true)
                     (orElse model (defaultModel config))
                     (SessionTracker.makeKey (conversationIdOf header) messages)
                     now
                     {| sessions := tr1; res := freshResponse;
                        console := log1 |}));
         tracker :=
           sessions (handleStream config claude (Translate.prompt translated)
                       (chatOptions config model session translated true)
                       (orElse model (defaultModel config))
                       (SessionTracker.makeKey (conversationIdOf header)
                          messages)
                       now
                       {| sessions := tr1; res := freshResponse;
                          console := log1 |});
         logged :=
           console (handleStream config claude (Translate.prompt translated)
                      (chatOptions config model session translated true)
                      (orElse model (defaultModel config))
                      (SessionTracker.makeKey (conversationIdOf header)
                         messages)
                      now
                      {| sessions := tr1; res := freshResponse;
                         console := log1 |}) |}.
Proof.
  intros Hne Hresolve. destruct messages as [|m messages]; [done|].
  unfold handleChatCompletion, chatRequest.
  cbn [req_messages req_model req_stream]. by rewrite Hresolve.
Qed.

(** X26.  A streaming request on a first turn spawns the backend once, with
    the fresh identifier behind "--session-id" and the streaming flags, and
    the full rendering of the messages on standard input; nothing else of
    the backend matters.  When the child process starts, the handler does
    not throw, and its reply is what the streaming handler leaves on a
    fresh response: an event stream with status 200 that is ended and whose
    last frame is the terminal marker, whatever the process does then.
    When the child does not start, that call of the streaming handler ends
    in an uncaught exception instead, with nothing written and the response
    not ended. *)
Theorem chat_streaming_first_turn
    (model : option string) (messages : list Message)
    (header : option string) (uuid : string) (now : Z)
    (tr : SessionTracker.t) (log : list string) :
  messages ≠ [] →
  (SessionTracker.get now
     (SessionTracker.makeKey (conversationIdOf header) messages) tr).1 = None →
  let first := Translate.translateFirstTurn messages in
  let opts := chatOptions config model (freshSession uuid now) first true in
  let spawn := Claude.callClaudeStream config (Translate.prompt first) opts in
  let convKey := SessionTracker.makeKey (conversationIdOf header) messages in
  let shown := orElse model (defaultModel config) in
  (Claude.stdin spawn = Translate.prompt first ∧
   adjacent "--session-id" uuid (Claude.argv spawn) ∧
   adjacent "--output-format" "stream-json" (Claude.argv spawn) ∧
   "--verbose" ∈ Claude.argv spawn) ∧
  (∀ claudeSync claudeSync' claude claude',
      claude spawn = claude' spawn →
      handleChatCompletion config claudeSync claude
        (chatRequest model messages true) header uuid now tr log
      = handleChatCompletion config claudeSync' claude'
          (chatRequest model messages true) header uuid now tr log) ∧
  (∀ claudeSync claude,
      ∃ handled stream start,
        handleChatCompletion config claudeSync claude
          (chatRequest model messages true) header uuid now tr log
        = Returned handled ∧
        reply handled = EventStream stream ∧
        res start = freshResponse ∧
        stream = res (handleStream config claude (Translate.prompt first) opts
                        shown convKey now start) ∧
        head stream = Some (200, sseHeaders) ∧
        writableEnded stream = true ∧
        endsWithDone (written stream)) ∧
  (∀ child error start,
      child spawn = Claude.Errored error →
      res start = freshResponse →
      ∃ left,
        handleStreamOn config child (Translate.prompt first) opts shown convKey
          now start = Uncaught error left ∧
        written (res left) = [] ∧
        writableEnded (res left) = false).
Proof.
  intros Hne Hnone. cbv zeta.
  pose proof (resolveSession_new messages _ uuid now tr log Hnone) as Hresolve.
  split; [|split; [|split]].
  - split; [done|].
    pose proof (buildArgs_session config
                  (Claude.withStream
                     (chatOptions config model (freshSession uuid now)
                        (Translate.translateFirstTurn messages) true) true))
      as Hsession.
    pose proof (buildArgs_streaming config
                  (Claude.withStream
                     (chatOptions config model (freshSession uuid now)
                        (Translate.translateFirstTurn messages) true) true)
                  eq_refl) as (Hformat & Hverbose & _).
    done.
  - intros claudeSync claudeSync' claude claude' Hsame.
    rewrite (handleChatCompletion_stream claudeSync claude _ _ _ _ _ _ _ _ _ _ _
               Hne Hresolve).
    rewrite (handleChatCompletion_stream claudeSync' claude' _ _ _ _ _ _ _ _ _ _
               _ Hne Hresolve).
    by rewrite (handleStream_only_spawn claude claude' _ _ _ _ _ _ Hsame).
  - intros claudeSync claude.
    rewrite (handleChatCompletion_stream claudeSync claude _ _ _ _ _ _ _ _ _ _ _
               Hne Hresolve).
    eexists _, _, _. split; [reflexivity|]. split; [reflexivity|].
    split; [|split; [reflexivity|]]; [reflexivity|].
    destruct (handleStream_ends claude
                (Translate.prompt (Translate.translateFirstTurn messages))
                (chatOptions config model (freshSession uuid now)
                   (Translate.translateFirstTurn messages) true)
                (orElse model (defaultModel config))
                (SessionTracker.makeKey (conversationIdOf header) messages) now
                {| sessions :=
                     (SessionTracker.create uuid now
                        (SessionTracker.makeKey (conversationIdOf header)
                           messages)
                        (SessionTracker.get now
                           (SessionTracker.makeKey (conversationIdOf header)
                              messages) tr).2).2;
                   res := freshResponse;
                   console :=
                     log ++ ["[session] new: "
                             +:+ SessionTracker.makeKey
                                   (conversationIdOf header) messages
                             +:+ " → claude-session " +:+ uuid] |} eq_refl)
      as (Hended & Hdone & Hhead).
    done.
  - intros child error start Hchild Hfresh. unfold handleStreamOn.
    rewrite Hchild. eexists. split; [reflexivity|].
    cbn [written writableEnded res writeHead]. by rewrite Hfresh.
Qed.

Lemma serve_chat (claudeSync : Claude.SyncCall → Claude.SyncRun)
    (claude : Claude.Spawn → Claude.StreamRun) (body : Body)
    (header : option string) (uuid : string) (now : Z)
    (tr : SessionTracker.t) (log : list string) :
  serve config claudeSync claude "POST" "/v1/chat/completions" body header uuid
    now tr log
  = match handleChatCompletion config claudeSync claude body header uuid now
            tr log with
    | Returned handled => handled
    | Thrown _ =>
        {| reply := JsonReply 500 (errorEnvelope unhandled);
           tracker := tr; logged := log |}
    end.
Proof. reflexivity. Qed.

Lemma handleError_status (error : Js.Error) (convKey : option string)
    (tr : SessionTracker.t) :
  (handleError error convKey tr).1.1 ∈ [429; 401; 504; 502].
Proof.
  rewrite handleError_unfold.
  destruct (existsb _ rateLimitPhrases);
    [apply list_elem_of_In; simpl; tauto|].
  destruct (existsb _ authPhrases); [apply list_elem_of_In; simpl; tauto|].
  destruct (Js.killed error || existsb _ timeoutPhrases);
    [apply list_elem_of_In; simpl; tauto|].
  destruct (existsb _ sessionPhrases); apply list_elem_of_In; simpl; tauto.
Qed.

(** X27.  Two failures escape the chat handler, both before any backend is
    called and before anything is stored or logged.  A body that is the
    JSON document null makes the handler throw when it reads the messages.
    A request that finds a live session and carries no user message makes
    it throw when it looks for the last user message, streaming or not.
    The server answers both with 500 and the code "internal_error", leaving
    tracker and log as they were. *)
Theorem chat_escaping_failure
    (claudeSync : Claude.SyncCall → Claude.SyncRun)
    (claude : Claude.Spawn → Claude.StreamRun)
    (header : option string) (uuid : string) (now : Z)
    (tr : SessionTracker.t) (log : list string) :
  (handleChatCompletion config claudeSync claude JsonNull header uuid now tr log
   = Thrown nullBody ∧
   serve config claudeSync claude "POST" "/v1/chat/completions" JsonNull header
     uuid now tr log
   = {| reply := JsonReply 500 (errorEnvelope unhandled);
        tracker := tr; logged := log |}) ∧
  (∀ model messages streaming s,
      messages ≠ [] → Forall (λ m, role m ≠ "user") messages →
      (SessionTracker.get now
         (SessionTracker.makeKey (conversationIdOf header) messages) tr).1
      = Some s →
      handleChatCompletion config claudeSync claude
        (chatRequest model messages streaming) header uuid now tr log
      = Thrown (Js.newError Translate.noUserMessage) ∧
      serve config claudeSync claude "POST" "/v1/chat/completions"
        (chatRequest model messages streaming) header uuid now tr log
      = {| reply := JsonReply 500 (errorEnvelope unhandled);
           tracker := tr; logged := log |}) ∧
  errorCode (errorEnvelope unhandled) = Some "internal_error".
Proof.
  split; [|split; [|reflexivity]].
  - split; reflexivity.
  - intros model messages streaming s Hne Hnone Hsome.
    assert (Hthrown :
      handleChatCompletion config claudeSync claude
        (chatRequest model messages streaming) header uuid now tr log
      = Thrown (Js.newError Translate.noUserMessage)).
    { destruct messages as [|m messages]; [done|].
      unfold handleChatCompletion, chatRequest. cbn [req_messages req_model].
      rewrite (resolveSession_known _ _ uuid now tr log s Hsome).
      by rewrite translateContinueTurn_no_user. }
    split; [done|]. by rewrite serve_chat, Hthrown.
Qed.

(** X28.  A chat request is answered 400 exactly when its body is not JSON,
    with the code "parse_error", or is a JSON document other than null
    without a non-empty array of messages, with the code
    "missing_messages"; the tracker and the log then stay as they were, and
    neither backend has any part in the answer.  The document null is
    answered 500, and no failure of a backend is ever reported as 400. *)
Theorem chat_rejects_bad_bodies
    (claudeSync : Claude.SyncCall → Claude.SyncRun)
    (claude : Claude.Spawn → Claude.StreamRun) (body : Body)
    (header : option string) (uuid : string) (now : Z)
    (tr : SessionTracker.t) (log : list string) :
  (body = Malformed →
     serve config claudeSync claude "POST" "/v1/chat/completions" body header
       uuid now tr log
     = {| reply := JsonReply 400 (errorEnvelope invalidJson);
          tracker := tr; logged := log |}) ∧
  (∀ parsed,
      body = Parsed parsed →
      req_messages parsed = None ∨ req_messages parsed = Some [] →
      serve config claudeSync claude "POST" "/v1/chat/completions" body header
        uuid now tr log
      = {| reply := JsonReply 400 (errorEnvelope missingMessages);
           tracker := tr; logged := log |}) ∧
  (body = JsonNull →
     reply (serve config claudeSync claude "POST" "/v1/chat/completions" body
              header uuid now tr log)
     = JsonReply 500 (errorEnvelope unhandled)) ∧
  (∀ answer,
      reply (serve config claudeSync claude "POST" "/v1/chat/completions" body
               header uuid now tr log) = JsonReply 400 answer →
      (body = Malformed ∧ answer = errorEnvelope invalidJson) ∨
      (∃ parsed,
          body = Parsed parsed ∧
          (req_messages parsed = None ∨ req_messages parsed = Some []) ∧
          answer = errorEnvelope missingMessages)) ∧
  errorCode (errorEnvelope invalidJson) = Some "parse_error" ∧
  errorCode (errorEnvelope missingMessages) = Some "missing_messages".
Proof.
  split; [by intros ->|]. split; [|split; [by intros ->|split; [|done]]].
  - intros parsed -> [Hm | Hm]; rewrite serve_chat;
      unfold handleChatCompletion; by rewrite Hm.
  - intros answer. rewrite serve_chat.
    destruct body as [| |[model messages streaming]].
    + intros [= <-]. by left.
    + intros [=].
    + destruct messages as [[|m messages]|].
      * intros [= <-]. right. eexists. split; [reflexivity|].
        split; [by right | reflexivity].
      * intros Hreply. exfalso. revert Hreply.
        assert (Hne : m :: messages ≠ []) by done.
        change (Parsed {| req_model := model;
                          req_messages := Some (m :: messages);
                          req_stream := streaming |})
          with (chatRequest model (m :: messages) streaming).
        destruct (resolveSession (m :: messages)
                    (SessionTracker.makeKey (conversationIdOf header)
                       (m :: messages)) uuid now tr log)
          as [[[[session translated] tr1] log1]|e] eqn:Hresolve.
        -- destruct streaming.
           ++ rewrite (handleChatCompletion_stream claudeSync claude _ _ _ _ _
                         _ _ _ _ _ _ Hne Hresolve).
              intros [=].
           ++ rewrite (handleChatCompletion_sync claudeSync claude _ _ _ _ _
                         _ _ _ _ _ _ Hne Hresolve).
              cbv zeta. destruct (Claude.returned _) as [doc|error].
              ** intros [=].
              ** cbn [reply]. intros [= Hstatus _].
                 pose proof (handleError_status error
                               (Some (SessionTracker.makeKey
                                        (conversationIdOf header)
                                        (m :: messages))) tr1) as Hin.
                 rewrite Hstatus in Hin. apply list_elem_of_In in Hin.
                 simpl in Hin. by destruct Hin as [H | [H | [H | [H | []]]]].
        -- unfold handleChatCompletion, chatRequest.
           cbn [req_messages req_model req_stream]. rewrite Hresolve.
           intros [=].
      * intros [= <-]. right. eexists. split; [reflexivity|].
        split; [by left | reflexivity].
Qed.

(** X29.  Only the chat route can change anything or reach a backend.  A
    request with any other method or path leaves tracker and log as they
    were and is answered without looking at its body, its header or the
    backends: an OPTIONS request with 204 whatever the path, the health
    route with the number of stored entries, and anything unknown with 404
    and the code "not_found". *)
Theorem serve_other_routes
    (claudeSync : Claude.SyncCall → Claude.SyncRun)
    (claude : Claude.Spawn → Claude.StreamRun)
    (method url : string) (body : Body) (header : option string)
    (uuid : string) (now : Z) (tr : SessionTracker.t) (log : list string) :
  (method = "OPTIONS" →
     reply (serve config claudeSync claude method url body header uuid now
              tr log) = NoContent 204) ∧
  (method ≠ "POST" ∨ url ≠ "/v1/chat/completions" →
     tracker (serve config claudeSync claude method url body header uuid now
                tr log) = tr ∧
     logged (serve config claudeSync claude method url body header uuid now
               tr log) = log ∧
     ∀ claudeSync' claude' body' header' uuid' now',
       serve config claudeSync claude method url body header uuid now tr log
       = serve config claudeSync' claude' method url body' header' uuid' now'
           tr log) ∧
  (method = "GET" → url = "/health" →
     reply (serve config claudeSync claude method url body header uuid now
              tr log)
     = JsonReply 200
         (JObj [("status", JStr "ok");
                ("activeSessions",
                 JNum (Z.of_nat (size (SessionTracker.sessions tr))))])) ∧
  (method ≠ "OPTIONS" → method ≠ "GET" → method ≠ "POST" →
     reply (serve config claudeSync claude method url body header uuid now
              tr log)
     = JsonReply 404 (errorEnvelope (notFound method url)) ∧
     errorCode (errorEnvelope (notFound method url)) = Some "not_found").
Proof.
  split; [|split; [|split]].
  - intros ->. reflexivity.
  - intros Hother.
    assert (Hchat : bool_decide (method = "POST") &&
                    bool_decide (url = "/v1/chat/completions") = false).
    { destruct Hother as [H | H].
      - by rewrite (bool_decide_eq_false_2 _ H).
      - rewrite (bool_decide_eq_false_2 _ H). apply andb_false_r. }
    unfold serve. rewrite Hchat.
    destruct (bool_decide (method = "OPTIONS")); [by repeat split|].
    destruct (bool_decide (method = "GET") && bool_decide (url = "/health"));
      [by repeat split|].
    destruct (bool_decide (method = "GET") && bool_decide (url = "/v1/models"));
      by repeat split.
  - intros -> ->. reflexivity.
  - intros Ho Hg Hp. unfold serve.
    rewrite (bool_decide_eq_false_2 _ Ho), (bool_decide_eq_false_2 _ Hg),
      (bool_decide_eq_false_2 _ Hp).
    cbn [andb]. split; reflexivity.
Qed.

End ChatHandler.

Lemma chat_first_turn_witness :
  ∃ handled,
    Server.handleChatCompletion sampleConfig sampleSyncOk (λ _, sampleClosedRun)
      (chatRequest (Some "claude-sonnet") sampleConversation false)
      (Some "thread-42") "f00d" 1000 (SessionTracker.new 1800000) []
    = Returned handled ∧
    SessionTracker.sessions (Server.tracker handled) !! "thread-42"
    = Some {| claudeSessionId := "f00d"; turnCount := 1;
              lastUsedAt := 2000; messageCount := 1 |}.
Proof.
  destruct (chat_first_turn sampleConfig (Some "claude-sonnet")
              sampleConversation (Some "thread-42") "f00d" 1000
              (SessionTracker.new 1800000) []) as (_ & _ & Hanswered).
  - discriminate.
  - vm_compute. reflexivity.
  - destruct (Hanswered sampleSyncOk (λ _, sampleClosedRun) sampleDocument
                eq_refl) as (handled & Hhandled & _ & _ & Hsession).
    exists handled. split; [exact Hhandled | exact Hsession].
Defined.

Lemma chat_failed_first_turn_witness :
  ∃ handled,
    Server.handleChatCompletion sampleConfig sampleSyncFailing
      (λ _, sampleClosedRun)
      (chatRequest (Some "claude-sonnet") sampleConversation false)
      (Some "thread-42") "f00d" 1000 (SessionTracker.new 1800000) []
    = Returned handled ∧
    SessionTracker.sessions (Server.tracker handled) !! "thread-42"
    = Some (freshSession "f00d" 1000).
Proof.
  destruct (chat_failed_first_turn sampleConfig (Some "claude-sonnet")
              sampleConversation (Some "thread-42") "f00d" 1000
              (SessionTracker.new 1800000) [] sampleSyncFailing
              (λ _, sampleClosedRun) (Js.newError "Command failed: exit 1"))
    as (handled & Hhandled & _ & Hkept & _).
  - discriminate.
  - vm_compute. reflexivity.
  - reflexivity.
  - exists handled. split; [exact Hhandled|].
    apply Hkept. intros (Hsession & _).
    apply mentions_spec in Hsession. discriminate Hsession.
Defined.

Lemma chat_continuation_witness :
  adjacent "--resume" "b7c1"
    (Claude.buildArgs sampleConfig
       (chatOptions sampleConfig (Some "claude-sonnet") sampleSession
          {| Translate.prompt := "c"; Translate.systemPrompt := None;
             Translate.isFirstTurn := false |} false)).
Proof.
  destruct (chat_continuation sampleConfig (Some "claude-sonnet")
              [textMessage "system" "be brief"; textMessage "user" "a";
               textMessage "assistant" "b"]
              [] (textMessage "user" "c") (Some "conv-a") "f00d" 1200
              sampleTracker [] sampleSession)
    as ((_ & Hresume & _) & _).
  - reflexivity.
  - constructor.
  - vm_compute. reflexivity.
  - exact Hresume.
Defined.


Lemma chat_streaming_first_turn_witness :
  (∃ handled stream,
      Server.handleChatCompletion sampleConfig sampleSyncOk
        (λ _, sampleFailedRun)
        (chatRequest (Some "claude-sonnet") sampleConversation true)
        (Some "thread-42") "f00d" 1000 (SessionTracker.new 1800000) []
      = Returned handled ∧
      Server.reply handled = Server.EventStream stream ∧
      Server.writableEnded stream = true) ∧
  (∃ left,
      Server.handleStreamOn sampleConfig sampleNoChild
        (Translate.prompt (Translate.translateFirstTurn sampleConversation))
        (chatOptions sampleConfig (Some "claude-sonnet")
           (freshSession "f00d" 1000)
           (Translate.translateFirstTurn sampleConversation) true)
        "claude-sonnet" "thread-42" 1000 (request (SessionTracker.new 1800000))
      = Server.Uncaught (Js.newError "spawn claude ENOENT") left ∧
      Server.written (Server.res left) = []).
Proof.
  destruct (chat_streaming_first_turn sampleConfig (Some "claude-sonnet")
              sampleConversation (Some "thread-42") "f00d" 1000
              (SessionTracker.new 1800000) []) as (_ & _ & Hstream & Hcrash).
  - discriminate.
  - vm_compute. reflexivity.
  - split.
    + destruct (Hstream sampleSyncOk (λ _, sampleFailedRun))
        as (handled & stream & start & Hhandled & Hreply & _ & _ & _ & Hended
            & _).
      exists handled, stream. by repeat split.
    + destruct (Hcrash sampleNoChild (Js.newError "spawn claude ENOENT")
                  (request (SessionTracker.new 1800000)) eq_refl eq_refl)
        as (left & Hleft & Hnothing & _).
      exists left. split; [exact Hleft | exact Hnothing].
Defined.

Lemma chat_escaping_failure_witness :
  Server.serve sampleConfig sampleSyncOk (λ _, sampleClosedRun) "POST"
    "/v1/chat/completions"
    (chatRequest None
       [textMessage "system" "be brief"; textMessage "assistant" "b"] false)
    (Some "conv-a") "f00d" 1200 sampleTracker []
  = {| Server.reply :=
         Server.JsonReply 500 (Server.errorEnvelope Server.unhandled);
       Server.tracker := sampleTracker; Server.logged := [] |}.
Proof.
  destruct (chat_escaping_failure sampleConfig sampleSyncOk
              (λ _, sampleClosedRun) (Some "conv-a") "f00d" 1200 sampleTracker
              []) as (_ & Hescapes & _).
  destruct (Hescapes None
              [textMessage "system" "be brief"; textMessage "assistant" "b"]
              false sampleSession) as [_ Hserved].
  - discriminate.
  - repeat constructor; discriminate.
  - vm_compute. reflexivity.
  - exact Hserved.
Defined.

Lemma chat_rejects_bad_bodies_witness :
  Server.serve sampleConfig sampleSyncOk (λ _, sampleClosedRun) "POST"
    "/v1/chat/completions" (chatRequest (Some "claude-sonnet") [] false) None
    "f00d" 1000 sampleTracker []
  = {| Server.reply :=
         Server.JsonReply 400 (Server.errorEnvelope Server.missingMessages);
       Server.tracker := sampleTracker; Server.logged := [] |} ∧
  Server.reply
    (Server.serve sampleConfig sampleSyncOk (λ _, sampleClosedRun) "POST"
       "/v1/chat/completions" Server.JsonNull None "f00d" 1000 sampleTracker [])
  = Server.JsonReply 500 (Server.errorEnvelope Server.unhandled).
Proof.
  split.
  - destruct (chat_rejects_bad_bodies sampleConfig sampleSyncOk
                (λ _, sampleClosedRun)
                (chatRequest (Some "claude-sonnet") [] false) None "f00d" 1000
                sampleTracker []) as (_ & Hmissing & _).
    apply (Hmissing _ eq_refl). by right.
  - destruct (chat_rejects_bad_bodies sampleConfig sampleSyncOk
                (λ _, sampleClosedRun) Server.JsonNull None "f00d" 1000
                sampleTracker []) as (_ & _ & Hnull & _).
    apply Hnull. reflexivity.
Defined.

Lemma serve_other_routes_witness :
  Server.reply
    (Server.serve sampleConfig sampleSyncOk (λ _, sampleClosedRun) "DELETE"
       "/v1/chat/completions" Server.Malformed None "f00d" 1000 sampleTracker [])
  = Server.JsonReply 404
      (Server.errorEnvelope
         (Server.notFound "DELETE" "/v1/chat/completions")) ∧
  Server.tracker
    (Server.serve sampleConfig sampleSyncOk (λ _, sampleClosedRun) "GET"
       "/health" Server.Malformed None "f00d" 1000 sampleTracker [])
  = sampleTracker.
Proof.
  split.
  - destruct (serve_other_routes sampleConfig sampleSyncOk
                (λ _, sampleClosedRun) "DELETE" "/v1/chat/completions"
                Server.Malformed None "f00d" 1000 sampleTracker [])
      as (_ & _ & _ & Hunknown).
    apply Hunknown; discriminate.
  - destruct (serve_other_routes sampleConfig sampleSyncOk
                (λ _, sampleClosedRun) "GET" "/health"
                Server.Malformed None "f00d" 1000 sampleTracker [])
      as (_ & Hother & _).
    apply Hother. left. discriminate.
Defined.
